(** * The variational Bayes inference loop of BayesPy

    A shallow embedding of [bayespy/inference/vmp/vmp.py] (class [VB]):
    the constructor, [update], [loglikelihood_lowerbound],
    [plot_iteration_by_nodes], [get_iteration_by_nodes], [save], [load]
    and [__getitem__], followed by the properties of the iteration ledger,
    of the progress checks, of checkpointing and of lookup.

    Python floats are IEEE 754 binary64 numbers and are modelled by Rocq's
    primitive floats; [np.nan] is [nan].  A Python object is mutated in
    place and an exception leaves the mutations made so far, so every
    method is a function from the state (the [VB] object and its
    environment) to an outcome together with the state reached. *)

From Stdlib Require Import ZArith Bool Lia.
From Stdlib Require Import Floats.
From stdpp Require Import base option list gmap strings.

(** ** Exceptions, outcomes, output *)

(** The exceptions that occur: [raise Exception(msg)] of the source, the
    errors of NumPy indexing, of dictionaries and of h5py, and whatever a
    node callback raises. *)
Inductive Exn : Type :=
| PyException (msg : string)
| KeyError
| IndexError
| ValueError
| OSError
| NodeError (tag : nat).

Inductive Res (A : Type) : Type :=
| Ok (a : A)
| Raise (e : Exn).
Arguments Ok {A} a.
Arguments Raise {A} e.

(** What the loop prints and warns about, in order of emission.  The
    elapsed time printed with each iteration is left out. *)
Inductive Event : Type :=
| PrintIteration (n : nat) (Lv : float)
| WarnDecreased (L_diff : float)
| PrintConverged
| PrintAutoSaved (fname : string).

(** ** HDF5 files *)

(** The content a node writes into its own group. *)
Definition Group : Type := list (string * list float).

(** A file as [save] lays it out: the group [nodes] with one subgroup per
    node, the datasets [L] and [iter], and the group [boundterms] with one
    dataset per node.  A dataset or group not yet created is [None]. *)
Record H5File : Type := {
  h5_nodes : gmap string Group;
  h5_L : option (list float);
  h5_iter : option nat;
  h5_boundterms : option (gmap string (list float))
}.

(** The operations that [save] asks of the HDF5 library, and the library's
    say on them.  h5py reads a name as a path: "/" is the root, "a/b" passes
    through "a"; so it may refuse a name that is not yet in use, or the
    dataset [L] after a node named "/L" has made a group of that name.
    Which names it refuses in which file, and with which exception, is not
    fixed here: the library is part of the environment, and [None] is its
    consent. *)
Inductive H5Op : Type :=
| CreateGroup (nm : string)
| WriteL
| WriteIter
| CreateBoundterms
| WriteBoundterm (nm : string).

Definition H5Lib : Type := H5Op -> H5File -> option Exn.

(** [h5py.File(filename, 'w')] followed by [create_group('nodes')]. *)
Definition h5_new : H5File :=
  {| h5_nodes := ∅; h5_L := None; h5_iter := None; h5_boundterms := None |}.

(** [group.create_group(name)]: h5py refuses a name already in use, and
    whatever else the library refuses. *)
Definition h5_create_group (lib : H5Lib) (nm : string) (f : H5File)
    : Res H5File :=
  match h5_nodes f !! nm with
  | Some _ => Raise ValueError
  | None =>
      match lib (CreateGroup nm) f with
      | Some e => Raise e
      | None =>
          Ok {| h5_nodes := <[nm := []]> (h5_nodes f); h5_L := h5_L f;
                h5_iter := h5_iter f; h5_boundterms := h5_boundterms f |}
      end
  end.

Definition h5_fill_group (nm : string) (g : Group) (f : H5File) : Res H5File :=
  Ok {| h5_nodes := <[nm := g]> (h5_nodes f); h5_L := h5_L f;
        h5_iter := h5_iter f; h5_boundterms := h5_boundterms f |}.

(** Modelled from the spec: [utils.utils.write_to_hdf5(group, data, name)]
    is not among the sources; it stores [data] as the dataset [name] of
    [group].  The three uses in [save] are written out one by one. *)
Definition write_L_to_hdf5 (lib : H5Lib) (data : list float) (f : H5File)
    : Res H5File :=
  match lib WriteL f with
  | Some e => Raise e
  | None =>
      Ok {| h5_nodes := h5_nodes f; h5_L := Some data;
            h5_iter := h5_iter f; h5_boundterms := h5_boundterms f |}
  end.

Definition write_iter_to_hdf5 (lib : H5Lib) (data : nat) (f : H5File)
    : Res H5File :=
  match lib WriteIter f with
  | Some e => Raise e
  | None =>
      Ok {| h5_nodes := h5_nodes f; h5_L := h5_L f;
            h5_iter := Some data; h5_boundterms := h5_boundterms f |}
  end.

Definition h5_create_boundterms (lib : H5Lib) (f : H5File) : Res H5File :=
  match lib CreateBoundterms f with
  | Some e => Raise e
  | None =>
      Ok {| h5_nodes := h5_nodes f; h5_L := h5_L f;
            h5_iter := h5_iter f; h5_boundterms := Some ∅ |}
  end.

Definition write_boundterm_to_hdf5 (lib : H5Lib) (data : list float)
    (nm : string) (f : H5File) : Res H5File :=
  match h5_boundterms f with
  | None => Raise KeyError
  | Some b =>
      match b !! nm with
      | Some _ => Raise ValueError
      | None =>
          match lib (WriteBoundterm nm) f with
          | Some e => Raise e
          | None =>
              Ok {| h5_nodes := h5_nodes f; h5_L := h5_L f;
                    h5_iter := h5_iter f;
                    h5_boundterms := Some (<[nm := data]> b) |}
          end
      end
  end.

(** Modelled from the spec: [utils.utils.nans(n)] is not among the
    sources; it is the array of [n] reserved slots, each holding the
    not-a-number sentinel. *)
Definition nans (n : nat) : list float := replicate n nan.

(** The thresholds of the progress checks, as the literals of the source
    (each read as the nearest binary64 number, as Python reads it). *)
#[local] Set Warnings "-inexact-float".
Definition warn_tol : float := 1e-6%float.
Definition conv_tol : float := 1e-12%float.

(** Python's truth value of an optional string: [None] and [''] are false. *)
Definition truthy (o : option string) : bool :=
  match o with
  | Some s => negb (String.eqb s "")
  | None => false
  end.

(** The name of [tempfile.NamedTemporaryFile(prefix=prefix, suffix='.hdf5')]
    with [prefix = 'vb_autosave_%s_' % date]: the directory of temporary
    files, the prefix, some random characters, the suffix. *)
Definition tmpfile_name (tmpdir date rnd : string) : string :=
  tmpdir +:+ "/" +:+ ("vb_autosave_" +:+ date +:+ "_") +:+ rnd +:+ ".hdf5".

Section Model.

Context {S : Type}.

(** ** Nodes

    A node is an object outside the loop.  [node_id] stands for the
    identity of the object (what [in], [set] and [dict] compare), [S] for
    the state of all the nodes together, which the callbacks read and
    change.  A capability that a node lacks ([hasattr] false) is [None]. *)
Record Node : Type := {
  node_id : nat;
  name : string;
  node_update : option (S -> Res unit * S);
  lower_bound_contribution : S -> Res float * S;
  node_save : option (S -> Res Group * S);
  node_load : option (Group -> S -> Res unit * S)
}.

(** Modelled from the spec: [utils.utils.unique(nodes)] is not among the
    sources; it removes duplicate nodes and keeps the first-seen order. *)
Fixpoint unique_from (seen : gset nat) (nodes : list Node) : list Node :=
  match nodes with
  | [] => []
  | n :: rest =>
      if decide (node_id n ∈ seen) then unique_from seen rest
      else n :: unique_from ({[node_id n]} ∪ seen) rest
  end.

Definition unique (nodes : list Node) : list Node := unique_from ∅ nodes.

(** ** The loop object and its environment *)

Record VB : Type := {
  model : list Node;
  iter : nat;
  L : list float;
  l : gmap nat (list float);
  autosave_iterations : Z;
  autosave_filename : string;
  filename : option string
}.

Record Env : Type := {
  node_state : S;
  files : gmap string H5File;
  out : list Event;
  h5py : H5Lib
}.

Definition set_L (v : list float) (vb : VB) : VB :=
  {| model := model vb; iter := iter vb; L := v; l := l vb;
     autosave_iterations := autosave_iterations vb;
     autosave_filename := autosave_filename vb; filename := filename vb |}.

Definition set_l (v : gmap nat (list float)) (vb : VB) : VB :=
  {| model := model vb; iter := iter vb; L := L vb; l := v;
     autosave_iterations := autosave_iterations vb;
     autosave_filename := autosave_filename vb; filename := filename vb |}.

Definition set_iter (v : nat) (vb : VB) : VB :=
  {| model := model vb; iter := v; L := L vb; l := l vb;
     autosave_iterations := autosave_iterations vb;
     autosave_filename := autosave_filename vb; filename := filename vb |}.

Definition set_node_state (s : S) (env : Env) : Env :=
  {| node_state := s; files := files env; out := out env; h5py := h5py env |}.

Definition set_files (fs : gmap string H5File) (env : Env) : Env :=
  {| node_state := node_state env; files := fs; out := out env;
     h5py := h5py env |}.

Definition set_out (o : list Event) (env : Env) : Env :=
  {| node_state := node_state env; files := files env; out := o;
     h5py := h5py env |}.

(** ** Methods as state transformers that may raise *)

Definition M (A : Type) : Type := VB * Env -> Res A * (VB * Env).

Definition ret {A} (a : A) : M A := λ st, (Ok a, st).

Definition raise {A} (e : Exn) : M A := λ st, (Raise e, st).

Definition bind {A B} (m : M A) (k : A -> M B) : M B :=
  λ st, match m st with
        | (Ok a, st') => k a st'
        | (Raise e, st') => (Raise e, st')
        end.

Notation "'do' x <- m ; k" := (bind m (λ x, k))
  (at level 10, x name, m at level 100, k at level 200, only parsing).

Definition get_self : M VB := λ st, (Ok st.1, st).

(** The HDF5 library at hand. *)
Definition get_h5py : M H5Lib := λ st, (Ok (h5py st.2), st).

Definition set_self (f : VB -> VB) : M unit := λ st, (Ok tt, (f st.1, st.2)).

Definition print (e : Event) : M unit :=
  λ st, (Ok tt, (st.1, set_out (out st.2 ++ [e]) st.2)).

(** A call of a node method. *)
Definition call {A} (cb : S -> Res A * S) : M A :=
  λ st, let (r, s') := cb (node_state st.2) in
        (r, (st.1, set_node_state s' st.2)).

(** [for x in xs: body(x)] *)
Fixpoint for_each {A} (xs : list A) (body : A -> M unit) : M unit :=
  match xs with
  | [] => ret tt
  | x :: rest => do _ <- body x ; for_each rest body
  end.

(** [try: m  except KeyError: handler] *)
Definition except_KeyError {A} (m : M A) (handler : M A) : M A :=
  λ st, match m st with
        | (Raise KeyError, st') => handler st'
        | r => r
        end.

(** NumPy indexing of a one-dimensional array with a non-negative index:
    out of range it raises. *)
Definition getitem (a : list float) (i : nat) : M float :=
  match a !! i with
  | Some x => ret x
  | None => raise IndexError
  end.

Definition setitem (a : list float) (i : nat) (x : float) : M (list float) :=
  if (i <? length a)%nat then ret (<[i := x]> a) else raise IndexError.

(** [self.l[node]] *)
Definition getitem_l (node : Node) : M (list float) :=
  do vb <- get_self ;
  match l vb !! node_id node with
  | Some s => ret s
  | None => raise KeyError
  end.

(** The file at [fname], opened for writing, changed by [op]. *)
Definition h5_write (fname : string) (op : H5File -> Res H5File) : M unit :=
  λ st, match files st.2 !! fname with
        | None => (Raise OSError, st)
        | Some f =>
            match op f with
            | Ok f' => (Ok tt, (st.1, set_files (<[fname := f']> (files st.2)) st.2))
            | Raise e => (Raise e, st)
            end
        end.

(** [h5py.File(filename, 'w')]: the file is created, or emptied. *)
Definition h5_open_w (fname : string) : M unit :=
  λ st, (Ok tt, (st.1, set_files (<[fname := h5_new]> (files st.2)) st.2)).

(** [h5py.File(filename, 'r')]: the file must exist. *)
Definition h5_open_r (fname : string) : M H5File :=
  λ st, match files st.2 !! fname with
        | Some f => (Ok f, st)
        | None => (Raise OSError, st)
        end.

(** ** [VB.__init__] (lines 39-67); [tol] is not used. *)
Definition __init__ (nodes : list Node) (autosave_iterations : Z)
    (autosave_filename : option string) (tmpdir date rnd : string) : Res VB :=
  let model := unique nodes in
  let fnames :=
    if negb (truthy autosave_filename) then (tmpfile_name tmpdir date rnd, None)
    else (default "" autosave_filename, autosave_filename) in
  let self :=
    {| model := model;
       iter := 0;
       L := [];
       l := list_to_map ((λ n, (node_id n, [])) <$> model);
       autosave_iterations := autosave_iterations;
       autosave_filename := fnames.1;
       filename := fnames.2 |} in
  let names := name <$> model in
  if negb (length names =? length (model))%nat
  then Raise (PyException "Use unique names for nodes.")
  else Ok self.

(** ** [VB.save] (lines 149-175) *)

(** Lines 151-156 of [save], the same as lines 179-184 of [load]. *)
Definition resolve_filename (fname : option string) : M string :=
  do vb <- get_self ;
  if negb (truthy fname) then
    if truthy (filename vb) then ret (default "" (filename vb))
    else raise (PyException "Filename must be given.")
  else ret (default "" fname).

(** Lines 158-175. *)
Definition save_to (fname : string) : M unit :=
  do lib <- get_h5py ;
  do _ <- h5_open_w fname ;
  do vb <- get_self ;
  do _ <- for_each (model vb) (λ node,
       if String.eqb (name node) "" then
         raise (PyException
           "In order to save nodes, they must have (unique) names.")
       else
         match node_save node with
         | Some f =>
             do _ <- h5_write fname (h5_create_group lib (name node)) ;
             do g <- call f ;
             h5_write fname (h5_fill_group (name node) g)
         | None => ret tt
         end) ;
  do vb <- get_self ;
  do _ <- h5_write fname (write_L_to_hdf5 lib (L vb)) ;
  do _ <- h5_write fname (write_iter_to_hdf5 lib (iter vb)) ;
  do _ <- h5_write fname (h5_create_boundterms lib) ;
  for_each (model vb) (λ node,
    do s <- getitem_l node ;
    h5_write fname (write_boundterm_to_hdf5 lib s (name node))).

Definition save (fname : option string) : M unit :=
  do fname <- resolve_filename fname ;
  save_to fname.

(** ** [VB.loglikelihood_lowerbound] (lines 117-124) *)

Fixpoint lowerbound_loop (nodes : list Node) (Lv : float) : M float :=
  match nodes with
  | [] => ret Lv
  | node :: rest =>
      do lp <- call (lower_bound_contribution node) ;
      let Lv := (Lv + lp)%float in
      do s <- getitem_l node ;
      do vb <- get_self ;
      do s' <- setitem s (iter vb) lp ;
      do _ <- set_self (set_l (<[node_id node := s']> (l vb))) ;
      lowerbound_loop rest Lv
  end.

Definition loglikelihood_lowerbound : M float :=
  do vb <- get_self ;
  lowerbound_loop (model vb) 0%float.

(** ** [VB.update] (lines 69-113) *)

(** Lines 84-86. *)
Definition update_nodes (nodes : list Node) : M unit :=
  for_each nodes (λ node,
    match node_update node with
    | Some f => call f
    | None => ret tt
    end).

(** Lines 83-89: the node updates of a round and the bound they give. *)
Definition compute_bound (nodes : list Node) : M float :=
  do _ <- update_nodes nodes ;
  loglikelihood_lowerbound.

(** Lines 94-103: [a > b] on floats is [b < a]. *)
Definition check_progress (Lv : float) : M unit :=
  do vb <- get_self ;
  if (0 <? iter vb)%nat then
    do prev <- getitem (L vb) (iter vb - 1) ;
    do _ <- (if (warn_tol <? prev - Lv)%float then
          do prev <- getitem (L vb) (iter vb - 1) ;
          let L_diff := (prev - Lv)%float in
          print (WarnDecreased L_diff)
        else ret tt) ;
    do prev <- getitem (L vb) (iter vb - 1) ;
    if (Lv - prev <? conv_tol)%float then print PrintConverged else ret tt
  else ret tt.

(** The condition of lines 106-107. *)
Definition autosave_due (vb : VB) : bool :=
  (0 <? autosave_iterations vb)%Z
  && (Z.of_nat (iter vb + 1) mod autosave_iterations vb =? 0)%Z.

(** Lines 106-110. *)
Definition autosave : M unit :=
  do vb <- get_self ;
  if autosave_due vb then
    do _ <- save (Some (autosave_filename vb)) ;
    print (PrintAutoSaved (autosave_filename vb))
  else ret tt.

(** Lines 112-113. *)
Definition commit (Lv : float) : M unit :=
  do vb <- get_self ;
  do a <- setitem (L vb) (iter vb) Lv ;
  do _ <- set_self (set_L a) ;
  do vb <- get_self ;
  set_self (set_iter (iter vb + 1)).

(** The body of [for i in range(repeat)] (lines 81-113). *)
Definition update_round (nodes : list Node) : M unit :=
  do Lv <- compute_bound nodes ;
  do vb <- get_self ;
  do _ <- print (PrintIteration (iter vb + 1) Lv) ;
  do _ <- check_progress Lv ;
  do _ <- autosave ;
  commit Lv.

Definition update (nodes : list Node) (repeat : nat) : M unit :=
  do vb <- get_self ;
  do _ <- set_self (set_L (L vb ++ nans repeat)) ;
  do vb <- get_self ;
  do _ <- set_self (set_l ((λ s, s ++ nans repeat) <$> l vb)) ;
  do vb <- get_self ;
  let nodes := if (length nodes =? 0)%nat then model vb else nodes in
  for_each (seq 0 repeat) (λ _, update_round nodes).

(** ** [VB.plot_iteration_by_nodes] (lines 126-143) *)

(** What the method hands to matplotlib: the abscissae [np.arange(N)+1],
    the array [L] column by column, the legends, the title and the label of
    the axis.  The drawing itself is matplotlib's and is not modelled: the
    method ends here with the figure it asks for. *)
Record Figure : Type := {
  fig_x : list nat;
  fig_columns : list (list float);
  fig_legends : list string;
  fig_title : string;
  fig_xlabel : string
}.

(** NumPy's [L[:,d] = v] on a column of [n] rows: an array of [n] entries
    is stored as it is, an array of one entry is repeated over the column,
    and an array of any other length is refused. *)
Definition assign_column (n : nat) (v : list float) : M (list float) :=
  if (length v =? n)%nat then ret v
  else match v with
       | [x] => ret (replicate n x)
       | _ => raise ValueError
       end.

(** Lines 137-139.  The keys of [self.l] are the nodes of the model, in the
    order of the model (line 50); the loop runs through them. *)
Fixpoint plot_columns (nodes : list Node) (n : nat)
    (columns : list (list float)) (legends : list string)
    : M (list (list float) * list string) :=
  match nodes with
  | [] => ret (columns, legends)
  | node :: rest =>
      do s <- getitem_l node ;
      do column <- assign_column n s ;
      plot_columns rest n (columns ++ [column]) (legends ++ [name node])
  end.

Definition plot_iteration_by_nodes : M Figure :=
  do vb <- get_self ;
  let N := iter vb in
  do r <- plot_columns (model vb) N [] [] ;
  ret {| fig_x := seq 1 N;
         fig_columns := r.1;
         fig_legends := r.2;
         fig_title := "Lower bound contributions by nodes";
         fig_xlabel := "Iteration" |}.

(** ** [VB.get_iteration_by_nodes] (lines 145-146) *)
Definition get_iteration_by_nodes : M (gmap nat (list float)) :=
  do vb <- get_self ;
  ret (l vb).

(** ** [VB.__getitem__] (lines 212-218)

    The argument is a node or a name. *)
Inductive NodeRef : Type :=
| ByNode (n : Node)
| ByName (s : string).

Definition __getitem__ (r : NodeRef) : M Node :=
  do vb <- get_self ;
  match r with
  | ByNode n =>
      if decide (node_id n ∈ node_id <$> model vb) then ret n
      else raise KeyError
  | ByName s =>
      let dictionary : gmap string Node :=
        foldl (λ d node, <[name node := node]> d) ∅ (model vb) in
      match dictionary !! s with
      | Some n => ret n
      | None => raise KeyError
      end
  end.

(** ** [VB.load] (lines 177-210) *)

(** [[self[node] for node in nodes]] *)
Fixpoint getitems (refs : list NodeRef) : M (list Node) :=
  match refs with
  | [] => ret []
  | r :: rest =>
      do n <- __getitem__ r ;
      do ns <- getitems rest ;
      ret (n :: ns)
  end.

(** [h5f[key]] for a key that may be missing. *)
Definition h5_get {A} (o : option A) : M A :=
  match o with
  | Some a => ret a
  | None => raise KeyError
  end.

(** Lines 186-210. *)
Definition load_from (nodes : list NodeRef) (fname : string) : M unit :=
  do h5f <- h5_open_r fname ;
  do vb <- get_self ;
  do nodes <- (if (length nodes =? 0)%nat then ret (model vb)
               else getitems nodes) ;
  do _ <- for_each nodes (λ node,
       if String.eqb (name node) "" then
         raise (PyException
           "In order to load nodes, they must have (unique) names.")
       else
         match node_load node with
         | Some f =>
             except_KeyError
               (do g <- h5_get (h5_nodes h5f !! name node) ;
                call (f g))
               (raise (PyException
                  ("File does not contain variable " +:+ name node)))
         | None => ret tt
         end) ;
  do a <- h5_get (h5_L h5f) ;
  do _ <- set_self (set_L a) ;
  do i <- h5_get (h5_iter h5f) ;
  do _ <- set_self (set_iter i) ;
  do vb <- get_self ;
  for_each (model vb) (λ node,
    do b <- h5_get (h5_boundterms h5f) ;
    do s <- h5_get (b !! name node) ;
    do vb <- get_self ;
    set_self (set_l (<[node_id node := s]> (l vb)))).

Definition load (nodes : list NodeRef) (fname : option string) : M unit :=
  do fname <- resolve_filename fname ;
  load_from nodes fname.

End Model.

Arguments Node : clear implicits.
Arguments VB : clear implicits.
Arguments Env : clear implicits.
Arguments NodeRef : clear implicits.
Arguments M : clear implicits.

(** * Vocabulary of the properties *)

(** Signs of the floats of the specification of the arithmetic. *)
Definition sf_positive (x : spec_float) : bool :=
  match x with
  | S754_finite false _ _ | S754_infinity false => true
  | _ => false
  end.

Definition sf_negative (x : spec_float) : bool :=
  match x with
  | S754_finite true _ _ | S754_infinity true => true
  | _ => false
  end.

Definition sf_with_sign (s : bool) (x : spec_float) : spec_float :=
  match x with
  | S754_zero _ => S754_zero s
  | S754_infinity _ => S754_infinity s
  | S754_nan => S754_nan
  | S754_finite _ m e => S754_finite s m e
  end.

(** The rounds in which an autosave was announced: the round of an
    "Auto-saved" message is the number of the last "Iteration" line before
    it ([cur] when there is none). *)
Fixpoint autosave_rounds_from (cur : nat) (evs : list Event) : list nat :=
  match evs with
  | [] => []
  | PrintIteration n _ :: rest => autosave_rounds_from n rest
  | PrintAutoSaved _ :: rest => cur :: autosave_rounds_from cur rest
  | _ :: rest => autosave_rounds_from cur rest
  end.

Definition autosave_rounds (evs : list Event) : list nat :=
  autosave_rounds_from 0 evs.

Fixpoint last_iteration (cur : nat) (evs : list Event) : nat :=
  match evs with
  | [] => cur
  | PrintIteration n _ :: rest => last_iteration n rest
  | _ :: rest => last_iteration cur rest
  end.

Definition is_autosaved (e : Event) : bool :=
  match e with
  | PrintAutoSaved _ => true
  | _ => false
  end.

(** The test of lines 106-107 for the round numbered [m] from one. *)
Definition due_round (c : Z) (m : nat) : bool :=
  (0 <? c)%Z && (Z.of_nat m mod c =? 0)%Z.

(** Names that every HDF5 library takes as they are: not empty, and made of
    letters, digits and underscores. *)
Definition plain_char (c : Ascii.ascii) : bool :=
  let n := Ascii.nat_of_ascii c in
  ((48 <=? n) && (n <=? 57) || (65 <=? n) && (n <=? 90)
   || (97 <=? n) && (n <=? 122) || (n =? 95))%nat.

Fixpoint plain_chars (s : string) : bool :=
  match s with
  | EmptyString => true
  | String c rest => plain_char c && plain_chars rest
  end.

Definition plain (s : string) : bool := negb (String.eqb s "") && plain_chars s.

Definition plain_op (op : H5Op) : bool :=
  match op with
  | CreateGroup nm | WriteBoundterm nm => plain nm
  | WriteL | WriteIter | CreateBoundterms => true
  end.

(** A file in which every group and every bound term has a plain name. *)
Definition plain_file (f : H5File) : Prop :=
  (∀ nm, is_Some (h5_nodes f !! nm) → plain nm = true) ∧
  (∀ b nm, h5_boundterms f = Some b → is_Some (b !! nm) → plain nm = true).

(** A library that consents to every operation under a plain name on a file
    that holds plain names only: there, nothing can be read as a path. *)
Definition accepts_plain (lib : H5Lib) : Prop :=
  ∀ op f, plain_op op = true → plain_file f → lib op f = None.

Section Vocabulary.

Context {S : Type}.
Implicit Types (st : VB S * Env S) (vb : VB S) (env : Env S).
Implicit Types (node : Node S) (nodes : list (Node S)).

(** A method [m] stays within the relation [R] between the state before
    and the state after, whatever its outcome. *)
Definition preserves {A} (R : relation (VB S * Env S)) (m : M S A) : Prop :=
  ∀ st r st', m st = (r, st') → R st st'.

(** What a method leaves alone. *)
Definition self_kept : relation (VB S * Env S) := λ st st', st'.1 = st.1.
Definition out_kept : relation (VB S * Env S) :=
  λ st st', out st'.2 = out st.2.
Definition files_kept : relation (VB S * Env S) :=
  λ st st', files st'.2 = files st.2.
Definition files_kept_except (p : string) : relation (VB S * Env S) :=
  λ st st', ∀ q, q ≠ p → files st'.2 !! q = files st.2 !! q.
Definition out_grows : relation (VB S * Env S) :=
  λ st st', out st.2 `prefix_of` out st'.2.

(** The events of the checks of lines 94-103, given the previous bound. *)
Definition warn_events (prev Lv : float) : list Event :=
  if (warn_tol <? prev - Lv)%float then [WarnDecreased (prev - Lv)%float] else [].

Definition conv_events (prev Lv : float) : list Event :=
  if (Lv - prev <? conv_tol)%float then [PrintConverged] else [].

Definition add_out (evs : list Event) (env : Env S) : Env S :=
  set_out (out env ++ evs) env.

(** Reserving [repeat] slots (lines 72-74). *)
Definition reserve (repeat : nat) (vb : VB S) : VB S :=
  set_l ((λ s, s ++ nans repeat) <$> l vb) (set_L (L vb ++ nans repeat) vb).

(** The nodes a call updates (lines 77-78). *)
Definition targets (nodes : list (Node S)) (vb : VB S) : list (Node S) :=
  if (length nodes =? 0)%nat then model vb else nodes.

(** [n] rounds in a row. *)
Definition rounds (nodes : list (Node S)) (n : nat) : M S unit :=
  for_each (seq 0 n) (λ _, update_round nodes).

(** The values the nodes of [nodes] contribute, asked in order from the
    node state [s], and the node state after the calls. *)
Fixpoint contributions nodes (s : S) : Res (list float) * S :=
  match nodes with
  | [] => (Ok [], s)
  | node :: rest =>
      match lower_bound_contribution node s with
      | (Ok v, s1) =>
          match contributions rest s1 with
          | (Ok vs, s2) => (Ok (v :: vs), s2)
          | (Raise e, s2) => (Raise e, s2)
          end
      | (Raise e, s1) => (Raise e, s1)
      end
  end.

(** The sum of the contributions as [loglikelihood_lowerbound] forms it:
    additions from the left, starting from zero. *)
Definition py_sum (vs : list float) : float := foldl PrimFloat.add 0%float vs.

(** The entry of round [i] in the series of [node]. *)
Definition entry vb node (i : nat) : option float :=
  l vb !! node_id node ≫= (.!! i).

Definition static_eq vb vb' : Prop :=
  model vb' = model vb ∧ autosave_iterations vb' = autosave_iterations vb ∧
  autosave_filename vb' = autosave_filename vb ∧ filename vb' = filename vb.

(** A series changed at index [i] at most. *)
Definition series_frame (i : nat) (s s' : list float) : Prop :=
  length s' = length s ∧ ∀ j, j ≠ i → s' !! j = s !! j.

Definition ledger_frame (i : nat) vb vb' : Prop :=
  static_eq vb vb' ∧ series_frame i (L vb) (L vb') ∧
  ∀ k, option_Forall2 (series_frame i) (l vb !! k) (l vb' !! k).

(** A callback that raises in no state. *)
Definition never_raises {A} (cb : S → Res A * S) : Prop :=
  ∀ s, ∃ a s', cb s = (Ok a, s').

(** No callback of the node raises. *)
Definition node_total node : Prop :=
  (∀ f, node_update node = Some f → never_raises f) ∧
  never_raises (lower_bound_contribution node) ∧
  (∀ f, node_save node = Some f → never_raises f).

(** What [save] asks of the names: none empty, no two equal. *)
Definition names_ok nodes : Prop :=
  (∀ node, node ∈ nodes → name node ≠ "") ∧ NoDup (name <$> nodes).

(** A state property kept by a method, as a relation. *)
Definition keeps (I : VB S * Env S → Prop) : relation (VB S * Env S) :=
  λ st st', I st → I st'.

(** The file at [p] holds the ledger [a] and the count [i]. *)
Definition holds_ledger (p : string) (a : list float) (i : nat)
    (st : VB S * Env S) : Prop :=
  ∃ ck, files st.2 !! p = Some ck ∧ h5_L ck = Some a ∧ h5_iter ck = Some i.

(** What a round prints before it comes to the autosave. *)
Definition progress_events vb (Lv : float) : list Event :=
  if (0 <? iter vb)%nat then
    match L vb !! (iter vb - 1) with
    | Some prev => warn_events prev Lv ++ conv_events prev Lv
    | None => []
    end
  else [].

Definition round_events vb (Lv : float) : list Event :=
  PrintIteration (iter vb + 1) Lv :: progress_events vb Lv.

(** The shape of the ledger that every state of a loop has. *)
Record ledger_shape vb : Prop := {
  shape_ids : NoDup (node_id <$> model vb);
  shape_series : ∀ node, node ∈ model vb →
    ∃ s, l vb !! node_id node = Some s ∧ length s = length (L vb);
  shape_iter : iter vb ≤ length (L vb);
  shape_reserved : ∀ i, iter vb ≤ i → i < length (L vb) → L vb !! i = Some nan
}.

(** The loop as the constructor leaves it. *)
Definition fresh (nodes : list (Node S)) (c : Z) (fn : option string)
    (tmpdir date rnd : string) : VB S :=
  {| model := unique nodes;
     iter := 0;
     L := [];
     l := list_to_map ((λ n, (node_id n, [])) <$> unique nodes);
     autosave_iterations := c;
     autosave_filename :=
       if truthy fn then default "" fn else tmpfile_name tmpdir date rnd;
     filename := if truthy fn then fn else None |}.

(** The states of a loop: built by the constructor, then changed by calls of
    [update] with any nodes and repeat counts, whatever their outcomes. *)
Inductive reachable : VB S * Env S → Prop :=
| reachable_init nodes c fn tmpdir date rnd vb env :
    __init__ nodes c fn tmpdir date rnd = Ok vb → reachable (vb, env)
| reachable_update st nodes k r st' :
    reachable st → update nodes k st = (r, st') → reachable st'.

(** The recorded bound of every completed round is the sum of the
    contributions recorded for that round, over the whole model. *)
Definition sum_consistent vb : Prop :=
  ∀ i, i < iter vb →
    ∃ vs, Forall2 (λ node v, entry vb node i = Some v) (model vb) vs ∧
          L vb !! i = Some (py_sum vs).

(** A series with exactly [k] entries that are not the sentinel, at the
    front, and the sentinel in every slot after them. *)
Definition front (k : nat) (a : list float) : Prop :=
  (∀ i, i < k → ∃ v, a !! i = Some v ∧ is_nan v = false) ∧
  (∀ i, k ≤ i → i < length a → a !! i = Some nan).

(** The recorded bounds and the series of every node of the model have one
    length and the iteration count as their front. *)
Definition aligned vb : Prop :=
  front (iter vb) (L vb) ∧
  ∀ node, node ∈ model vb →
    ∃ s, l vb !! node_id node = Some s ∧ length s = length (L vb) ∧
         front (iter vb) s.

(** Whatever the state of the nodes, no contribution is the sentinel, nor
    is their sum. *)
Definition bounds_not_nan nodes : Prop :=
  ∀ s vs s', contributions nodes s = (Ok vs, s') →
    Forall (λ v, is_nan v = false) vs ∧ is_nan (py_sum vs) = false.

(** A sequence of calls of [update], each with its nodes and its repeat
    count, run until one raises. *)
Definition run_calls (calls : list (list (Node S) * nat)) : M S unit :=
  for_each calls (λ call, update call.1 call.2).

(** What a loop keeps from call to call when every call returns. *)
Definition sound (nodes : list (Node S)) (c : Z) (vb : VB S) : Prop :=
  ledger_shape vb ∧ aligned vb ∧ model vb = unique nodes ∧
  autosave_iterations vb = c ∧ autosave_filename vb ≠ "".

(** With a cadence that is not positive, nothing is autosaved. *)
Definition no_autosave : relation (VB S * Env S) := λ st st',
  (autosave_iterations st.1 ≤ 0)%Z →
  (autosave_iterations st'.1 ≤ 0)%Z ∧ files st'.2 = files st.2 ∧
  ∃ evs, out st'.2 = out st.2 ++ evs ∧
         Forall (λ e, is_autosaved e = false) evs.

(** The nodes bear plain names. *)
Definition names_plain nodes : Prop :=
  ∀ node, node ∈ nodes → plain (name node) = true.

(** When autosaves are on, the names of the model and the library allow
    saving. *)
Definition autosave_safe (lib : H5Lib) vb : Prop :=
  (autosave_iterations vb ≤ 0)%Z ∨
  (names_ok (model vb) ∧ names_plain (model vb) ∧ accepts_plain lib).

(** The library stays what it is. *)
Definition lib_kept : relation (VB S * Env S) :=
  λ st st', h5py st'.2 = h5py st.2.

(** Two states that differ in their files at most, and methods that do not
    look at the files. *)
Definition agree (st1 st2 : VB S * Env S) : Prop :=
  st1.1 = st2.1 ∧ node_state st1.2 = node_state st2.2 ∧ out st1.2 = out st2.2.

Definition file_blind {A} (m : M S A) : Prop :=
  ∀ st1 st2, agree st1 st2 →
    (m st1).1 = (m st2).1 ∧ agree (m st1).2 (m st2).2.

(** The node that the dictionary of line 217 holds for the name [s]: the
    last node of the model that bears it. *)
Definition last_named (s : string) nodes : option (Node S) :=
  last (filter (λ node, name node = s) nodes).

(** A reference that [self[...]] resolves. *)
Definition resolves vb (r : NodeRef S) : Prop :=
  match r with
  | ByNode n => node_id n ∈ node_id <$> model vb
  | ByName s => s ∈ name <$> model vb
  end.

(** The group [g] is something that the callback [cb] of a node writes. *)
Definition written_by (cb : S → Res Group * S) (g : Group) : Prop :=
  ∃ s s', cb s = (Ok g, s').

(** A file as a completed [save] of the loop [vb] leaves it: the bounds, the
    count, one bound term for each node of the model and for no other name,
    one group for each node that can be saved and for no other name, written
    by that node. *)
Definition checkpoint_of vb (ck : H5File) : Prop :=
  h5_L ck = Some (L vb) ∧ h5_iter ck = Some (iter vb) ∧
  (∃ b, h5_boundterms ck = Some b ∧
     (∀ node, node ∈ model vb →
        ∃ s, l vb !! node_id node = Some s ∧ b !! name node = Some s) ∧
     (∀ nm, is_Some (b !! nm) → nm ∈ name <$> model vb)) ∧
  (∀ nm, is_Some (h5_nodes ck !! nm) ↔
     ∃ node, node ∈ model vb ∧ name node = nm ∧ is_Some (node_save node)) ∧
  (∀ node cb, node ∈ model vb → node_save node = Some cb →
     ∃ g, h5_nodes ck !! name node = Some g ∧ written_by cb g).

(** A file that holds no ledger: neither bounds, nor count, nor bound
    terms. *)
Definition no_ledger (ck : H5File) : Prop :=
  h5_L ck = None ∧ h5_iter ck = None ∧ h5_boundterms ck = None.

(** A node that can be loaded can be saved, and its [load] raises on no
    group that its [save] writes, in no state. *)
Definition load_total node : Prop :=
  ∀ f, node_load node = Some f →
    ∃ cb, node_save node = Some cb ∧
          ∀ g, written_by cb g → never_raises (f g).

(** No reserved slot is left: the bounds are as many as the rounds
    completed. *)
Definition tight vb : Prop := length (L vb) = iter vb.

(** The "Iteration" lines, in order: the number and the bound of each. *)
Definition iteration_lines (evs : list Event) : list (nat * float) :=
  omap (λ e, match e with PrintIteration n Lv => Some (n, Lv) | _ => None end)
    evs.

(** The keys of the dictionary of the series are the nodes of the model. *)
Definition keys_are_model vb : Prop :=
  ∀ k, is_Some (l vb !! k) ↔ k ∈ node_id <$> model vb.

(** One call of a method of the loop, as a user makes it. *)
Inductive Call : Type :=
| CallUpdate (nodes : list (Node S)) (repeat : nat)
| CallSave (fname : option string)
| CallLoad (refs : list (NodeRef S)) (fname : option string)
| CallGetitem (r : NodeRef S)
| CallGetIteration
| CallPlot.

Definition run_call (c : Call) : M S unit :=
  match c with
  | CallUpdate nodes repeat => update nodes repeat
  | CallSave fname => save fname
  | CallLoad refs fname => load refs fname
  | CallGetitem r => bind (__getitem__ r) (λ _, ret tt)
  | CallGetIteration => bind get_iteration_by_nodes (λ _, ret tt)
  | CallPlot => bind plot_iteration_by_nodes (λ _, ret tt)
  end.

(** The states of a loop in use: built by the constructor, then changed by
    calls of its methods, whatever their outcomes. *)
Inductive in_use : VB S * Env S → Prop :=
| in_use_init nodes c fn tmpdir date rnd vb env :
    __init__ nodes c fn tmpdir date rnd = Ok vb → in_use (vb, env)
| in_use_call st c r st' :
    in_use st → run_call c st = (r, st') → in_use st'.

(** A loop driven from one state to another by calls of its methods. *)
Inductive driven : relation (VB S * Env S) :=
| driven_refl st : driven st st
| driven_step st c r st1 st2 :
    run_call c st = (r, st1) → driven st1 st2 → driven st st2.


(** The file at [p] holds no ledger. *)
Definition file_without_ledger (p : string) (st : VB S * Env S) : Prop :=
  ∃ ck, files st.2 !! p = Some ck ∧ no_ledger ck.

(** The file at [p] exists. *)
Definition file_exists (p : string) (st : VB S * Env S) : Prop :=
  is_Some (files st.2 !! p).

(** What the round that fills the slot [i] of the bounds [a] prints before
    it comes to the autosave: its "Iteration" line, then what the checks of
    lines 94-103 say of the bound of the slot before. *)
Definition round_lines (a : list float) (i : nat) : list Event :=
  match a !! i with
  | Some Lv =>
      PrintIteration (i + 1) Lv ::
      (if (0 <? i)%nat then
         match a !! (i - 1) with
         | Some prev => warn_events prev Lv ++ conv_events prev Lv
         | None => []
         end
       else [])
  | None => []
  end.

(** What [n] rounds in a row print, from the round that fills the slot
    [from] on, read from the bounds [a] they leave: the lines of each round,
    and the announcement of its autosave when one is due, with cadence [c]
    and autosave path [fn]. *)
Definition call_output (c : Z) (fn : string) (a : list float) (from n : nat)
    : list Event :=
  flat_map (λ i, round_lines a i ++
                 (if due_round c (i + 1) then [PrintAutoSaved fn] else []))
    (seq from n).

(** The calls that read a ledger from a file. *)
Definition is_load (c : Call) : bool :=
  match c with
  | CallLoad _ _ => true
  | _ => false
  end.

(** The states of a loop that has kept its own ledger: built by the
    constructor, then changed by calls of its methods other than [load],
    whatever their outcomes. *)
Inductive own_ledger : VB S * Env S → Prop :=
| own_ledger_init nodes c fn tmpdir date rnd vb env :
    __init__ nodes c fn tmpdir date rnd = Ok vb → own_ledger (vb, env)
| own_ledger_call st c r st' :
    own_ledger st → is_load c = false → run_call c st = (r, st') →
    own_ledger st'.

End Vocabulary.
(** * Concrete nodes and loops

    The state of the nodes is one number, the count of the updates done. *)

Module Examples.

(** The model [A, B] of the specification's example: [A] is updated in
    every round and contributes 1.0, 1.5, 1.5000000000005; [B] is fixed
    and contributes 0.5. *)
Definition A : Node nat :=
  {| node_id := 0; name := "A";
     node_update := Some (λ s, (Ok tt, Datatypes.S s));
     lower_bound_contribution := λ s,
       (Ok (nth (s - 1) [1.0; 1.5; 1.5000000000005]%float nan), s);
     node_save := None; node_load := None |}.

Definition B : Node nat :=
  {| node_id := 1; name := "B";
     node_update := None;
     lower_bound_contribution := λ s, (Ok 0.5%float, s);
     node_save := None; node_load := None |}.

(** A node whose bound drops from 2.0 to 1.0 in the second round. *)
Definition D : Node nat :=
  {| node_id := 2; name := "D";
     node_update := Some (λ s, (Ok tt, Datatypes.S s));
     lower_bound_contribution := λ s,
       (Ok (nth (s - 1) [2.0; 1.0]%float nan), s);
     node_save := None; node_load := None |}.

(** A node whose [update] raises. *)
Definition R : Node nat :=
  {| node_id := 3; name := "R";
     node_update := Some (λ s, (Raise (NodeError 7), s));
     lower_bound_contribution := λ s, (Ok 1.0%float, s);
     node_save := None; node_load := None |}.

(** A node left without a name. *)
Definition U : Node nat :=
  {| node_id := 4; name := "";
     node_update := None;
     lower_bound_contribution := λ s, (Ok 1.0%float, s);
     node_save := None; node_load := None |}.

(** A node whose contribution is not a number. *)
Definition N : Node nat :=
  {| node_id := 5; name := "N";
     node_update := None;
     lower_bound_contribution := λ s, (Ok nan, s);
     node_save := None; node_load := None |}.

(** Two nodes with one name. *)
Definition X1 : Node nat :=
  {| node_id := 6; name := "x";
     node_update := None;
     lower_bound_contribution := λ s, (Ok 1.0%float, s);
     node_save := None; node_load := None |}.

Definition X2 : Node nat :=
  {| node_id := 7; name := "x";
     node_update := None;
     lower_bound_contribution := λ s, (Ok 2.0%float, s);
     node_save := None; node_load := None |}.

(** A node that can be saved and loaded; it contributes its count. *)
Definition P : Node nat :=
  {| node_id := 8; name := "p";
     node_update := Some (λ s, (Ok tt, Datatypes.S s));
     lower_bound_contribution := λ s,
       (Ok (nth (s - 1) [1.0; 2.0; 3.0; 4.0]%float 5.0%float), s);
     node_save := Some (λ s, (Ok [("count", replicate s 1.0%float)], s));
     node_load := Some (λ g s,
       match g with
       | [(_, ones)] => (Ok tt, length ones)
       | _ => (Raise KeyError, s)
       end) |}.


(** A library that takes plain names and refuses every other name.  The
    nodes above bear plain names, or none. *)
Definition lib : H5Lib :=
  λ op _, if plain_op op then None else Some ValueError.

Definition env0 : Env nat :=
  {| node_state := 0; files := ∅; out := []; h5py := lib |}.

(** The loop built over [nodes] with [autosave_iterations=c] and
    [autosave_filename=fn], in the environment [env0]. *)
Definition start (nodes : list (Node nat)) (c : Z) (fn : option string)
    : VB nat * Env nat :=
  match __init__ nodes c fn "/tmp" "20130101000000" "k3x9" with
  | Ok vb => (vb, env0)
  | Raise _ => (fresh [] 0 None "" "" "", env0)
  end.

(** The state after a call, whatever its outcome. *)
Definition after {A} (m : M nat A) (st : VB nat * Env nat) : VB nat * Env nat :=
  (m st).2.

(** The loop over [D] alone: after one call of [update()], and in the
    second call once its slot is reserved and before its round is run. *)
Definition D1 : VB nat * Env nat := after (update [] 1) (start [D] 0 None).
Definition D2 : VB nat * Env nat := (reserve 1 D1.1, D1.2).
Definition D2_bound : Res float * (VB nat * Env nat) := compute_bound [D] D2.

(** The loop over [A] and [B]: as built, and after one, two and three
    calls of [update()]; the third call once its slot is reserved. *)
Definition AB0 : VB nat * Env nat := start [A; B] 0 None.
Definition AB1 : VB nat * Env nat := after (update [] 1) AB0.
Definition AB2 : VB nat * Env nat := after (update [] 1) AB1.
Definition AB3 : VB nat * Env nat := after (update [] 1) AB2.
Definition AB2r : VB nat * Env nat := (reserve 1 AB2.1, AB2.2).
Definition AB2r_bound : Res float * (VB nat * Env nat) :=
  compute_bound [A; B] AB2r.

(** The loop over [A] and [B] after [update(A, repeat=2)]. *)
Definition ABs : VB nat * Env nat := after (update [A] 2) AB0.

(** The loop over [P] with an autosave every second round to "ckpt.h5":
    as built, after one call of [update()], and in the second call once its
    slot is reserved. *)
Definition P0 : VB nat * Env nat := start [P] 2 (Some "ckpt.h5").
Definition P1 : VB nat * Env nat := after (update [] 1) P0.
Definition P1r : VB nat * Env nat := (reserve 1 P1.1, P1.2).

(** The loop over [R] alone. *)
Definition R0 : VB nat * Env nat := start [R] 0 None.

(** The loop over [P] saved to "s.h5" after its first round, run for one
    more round, then loaded from "s.h5". *)
Definition PS : VB nat * Env nat := after (save (Some "s.h5")) P1.
Definition P2 : VB nat * Env nat := after (update [] 1) PS.
Definition PL : VB nat * Env nat := after (load [] (Some "s.h5")) P2.

(** An environment in which the file "e.h5" exists and is empty. *)
Definition env_e : Env nat :=
  {| node_state := 0; files := {[ "e.h5" := h5_new ]}; out := [];
     h5py := lib |}.

(** The loop over [B] and [P], with the empty file "e.h5" at hand. *)
Definition BP0 : VB nat * Env nat := ((start [B; P] 0 None).1, env_e).

(** The loop over [X1] and [X2], which bear one name. *)
Definition XX0 : VB nat * Env nat := start [X1; X2] 0 None.

(** The loop over [P] and the unnamed [U]. *)
Definition PU0 : VB nat * Env nat := start [P; U] 0 None.

(** The loop over [A] and [B], with the file "b.h5" at hand that the loop
    over [B] alone saved after two rounds. *)
Definition Bs : VB nat * Env nat :=
  after (save (Some "b.h5")) (after (update [] 2) (start [B] 0 None)).
Definition ABb : VB nat * Env nat := (AB0.1, Bs.2).

(** The loop over [P] and [U], with the checkpoint "s.h5" at hand. *)
Definition PUs : VB nat * Env nat := (PU0.1, PS.2).

(** The loop over [N], whose bound is not a number: after one call of
    [update()], and in the second call once its slot is reserved. *)
Definition N1 : VB nat * Env nat := after (update [] 1) (start [N] 0 None).
Definition N1r : VB nat * Env nat := (reserve 1 N1.1, N1.2).

(** The loop over [P] after the round of [P1r], in which it autosaves, and
    then loaded from the checkpoint of that round. *)
Definition P2a : VB nat * Env nat := after (update_round [P]) P1r.
Definition P2l : VB nat * Env nat := after (load [] (Some "ckpt.h5")) P2a.

(** The loop over [R] after a call of [update(repeat=2)], which fails. *)
Definition R2 : VB nat * Env nat := after (update [] 2) R0.



End Examples.

(** * Properties *)

Section Basics.

Context {S : Type}.
Implicit Types (st : VB S * Env S) (vb : VB S) (env : Env S).

Lemma bind_inv {A B} (m : M S A) (k : A → M S B) st r st2 :
  bind m k st = (r, st2) →
  (∃ a st1, m st = (Ok a, st1) ∧ k a st1 = (r, st2))
  ∨ (∃ e, m st = (Raise e, st2) ∧ r = Raise e).
Proof.
  unfold bind. destruct (m st) as [[a|e] st1]; intros H.
  - left. eauto.
  - right. injection H as <- <-. eauto.
Qed.

Lemma bind_ok {A B} (m : M S A) (k : A → M S B) st a st1 :
  m st = (Ok a, st1) → bind m k st = k a st1.
Proof. unfold bind. by intros ->. Qed.

Lemma bind_raise {A B} (m : M S A) (k : A → M S B) st e st1 :
  m st = (Raise e, st1) → bind m k st = (Raise e, st1).
Proof. unfold bind. by intros ->. Qed.

Section Preserves.

Context (R : relation (VB S * Env S)) `{!PreOrder R}.

Lemma preserves_ret {A} (a : A) : preserves R (ret a).
Proof. intros st r st' [= <- <-]. reflexivity. Qed.

Lemma preserves_raise {A} e : preserves R (raise e : M S A).
Proof. intros st r st' [= <- <-]. reflexivity. Qed.

Lemma preserves_get_self : preserves R get_self.
Proof. intros st r st' [= <- <-]. reflexivity. Qed.

Lemma preserves_get_h5py : preserves R get_h5py.
Proof. intros st r st' [= <- <-]. reflexivity. Qed.

Lemma preserves_getitem a i : preserves R (getitem a i).
Proof.
  unfold getitem. destruct (a !! i); [apply preserves_ret | apply preserves_raise].
Qed.

Lemma preserves_setitem a i x : preserves R (setitem a i x).
Proof.
  unfold setitem. destruct (i <? length a)%nat;
    [apply preserves_ret | apply preserves_raise].
Qed.

Lemma preserves_h5_get {A} (o : option A) : preserves R (h5_get o).
Proof. destruct o; [apply preserves_ret | apply preserves_raise]. Qed.

Lemma preserves_h5_open_r fname : preserves R (h5_open_r fname).
Proof.
  intros st r st'. unfold h5_open_r.
  destruct (files st.2 !! fname); intros [= <- <-]; reflexivity.
Qed.

Lemma preserves_bind {A B} (m : M S A) (k : A → M S B) :
  preserves R m → (∀ a, preserves R (k a)) → preserves R (bind m k).
Proof.
  intros Hm Hk st r st2 H.
  apply bind_inv in H as [(a & st1 & H1 & H2)|(e & H1 & _)].
  - etrans; [by eapply Hm | by eapply Hk].
  - by eapply Hm.
Qed.

Lemma preserves_for_each {A} (xs : list A) (body : A → M S unit) :
  (∀ x, x ∈ xs → preserves R (body x)) → preserves R (for_each xs body).
Proof.
  induction xs as [|x xs IH]; intros Hb; simpl.
  - apply preserves_ret.
  - apply preserves_bind.
    + apply Hb. by left.
    + intros _. apply IH. intros y Hy. apply Hb. by right.
Qed.

Lemma preserves_getitem_l (node : Node S) : preserves R (getitem_l node).
Proof.
  unfold getitem_l. apply preserves_bind; [apply preserves_get_self|].
  intros vb. destruct (l vb !! node_id node);
    [apply preserves_ret | apply preserves_raise].
Qed.

Lemma preserves_except_KeyError {A} (m h : M S A) :
  preserves R m → preserves R h → preserves R (except_KeyError m h).
Proof.
  intros Hm Hh st r st2. unfold except_KeyError.
  destruct (m st) as [[a|e] st1] eqn:E.
  - intros [= <- <-]. by eapply Hm.
  - destruct e; try (intros [= <- <-]; by eapply Hm).
    intros H. etrans; [by eapply Hm | by eapply Hh].
Qed.

End Preserves.

#[export] Instance self_kept_po : PreOrder (@self_kept S).
Proof. split; [by intros ?|]. intros x y z. unfold self_kept. congruence. Qed.
#[export] Instance out_kept_po : PreOrder (@out_kept S).
Proof. split; [by intros ?|]. intros x y z. unfold out_kept. congruence. Qed.
#[export] Instance files_kept_po : PreOrder (@files_kept S).
Proof. split; [by intros ?|]. intros x y z. unfold files_kept. congruence. Qed.
#[export] Instance files_kept_except_po p : PreOrder (@files_kept_except S p).
Proof.
  split; [intros x q Hq; reflexivity|]. intros x y z H1 H2 q Hq.
  by rewrite H2, H1.
Qed.
#[export] Instance lib_kept_po : PreOrder (@lib_kept S).
Proof. split; [by intros ?|]. intros x y z. unfold lib_kept. congruence. Qed.
#[export] Instance out_grows_po : PreOrder (@out_grows S).
Proof.
  split.
  - intros x. unfold out_grows. reflexivity.
  - intros x y z. unfold out_grows. intros H1 H2. by etrans.
Qed.

Ltac prim :=
  intros [? ?] ? ?;
  unfold set_self, print, call, h5_write, h5_open_w; simpl;
  repeat case_match; intros [= <- <-]; simpl; try done;
  try (unfold out_grows; simpl; first [reflexivity | by apply prefix_app_r]).

Lemma set_self_out_kept f : preserves out_kept (set_self (S:=S) f).
Proof. prim. Qed.
Lemma set_self_files_kept f : preserves files_kept (set_self (S:=S) f).
Proof. prim. Qed.
Lemma set_self_out_grows f : preserves out_grows (set_self (S:=S) f).
Proof. prim. Qed.

Lemma set_self_lib_kept f : preserves lib_kept (set_self (S:=S) f).
Proof. prim. Qed.
Lemma print_lib_kept e : preserves lib_kept (print (S:=S) e).
Proof. prim. Qed.
Lemma call_lib_kept {A} (cb : S → Res A * S) : preserves lib_kept (call cb).
Proof. prim. Qed.
Lemma h5_write_lib_kept p op : preserves lib_kept (h5_write (S:=S) p op).
Proof. prim. Qed.
Lemma h5_open_w_lib_kept p : preserves lib_kept (h5_open_w (S:=S) p).
Proof. prim. Qed.

Lemma print_self_kept e : preserves self_kept (print (S:=S) e).
Proof. prim. Qed.
Lemma print_files_kept e : preserves files_kept (print (S:=S) e).
Proof. prim. Qed.
Lemma print_out_grows e : preserves out_grows (print (S:=S) e).
Proof. prim. Qed.

Lemma call_self_kept {A} (cb : S → Res A * S) : preserves self_kept (call cb).
Proof. prim. Qed.
Lemma call_out_kept {A} (cb : S → Res A * S) : preserves out_kept (call cb).
Proof. prim. Qed.
Lemma call_files_kept {A} (cb : S → Res A * S) : preserves files_kept (call cb).
Proof. prim. Qed.
Lemma call_out_grows {A} (cb : S → Res A * S) : preserves out_grows (call cb).
Proof. prim. Qed.

Lemma h5_write_self_kept p op : preserves self_kept (h5_write (S:=S) p op).
Proof. prim. Qed.
Lemma h5_write_out_kept p op : preserves out_kept (h5_write (S:=S) p op).
Proof. prim. Qed.
Lemma h5_write_out_grows p op : preserves out_grows (h5_write (S:=S) p op).
Proof. prim. Qed.
Lemma h5_write_files_kept_except p op :
  preserves (files_kept_except p) (h5_write (S:=S) p op).
Proof. prim; intros q Hq; simpl; by rewrite ?lookup_insert_ne. Qed.

Lemma h5_open_w_self_kept p : preserves self_kept (h5_open_w (S:=S) p).
Proof. prim. Qed.
Lemma h5_open_w_out_kept p : preserves out_kept (h5_open_w (S:=S) p).
Proof. prim. Qed.
Lemma h5_open_w_out_grows p : preserves out_grows (h5_open_w (S:=S) p).
Proof. prim. Qed.
Lemma h5_open_w_files_kept_except p :
  preserves (files_kept_except p) (h5_open_w (S:=S) p).
Proof. prim; intros q Hq; simpl; by rewrite ?lookup_insert_ne. Qed.

Lemma files_kept_weaken {A} p (m : M S A) :
  preserves files_kept m → preserves (files_kept_except p) m.
Proof. intros H st r st' E q _. by rewrite (H _ _ _ E). Qed.

End Basics.

Create HintDb pres discriminated.

#[export] Hint Resolve
  set_self_out_kept set_self_files_kept set_self_out_grows
  print_self_kept print_files_kept print_out_grows
  call_self_kept call_out_kept call_files_kept call_out_grows
  h5_write_self_kept h5_write_out_kept h5_write_out_grows
  h5_write_files_kept_except
  h5_open_w_self_kept h5_open_w_out_kept
  h5_open_w_out_grows h5_open_w_files_kept_except
  set_self_lib_kept print_lib_kept call_lib_kept h5_write_lib_kept
  h5_open_w_lib_kept : pres.

(** Walks through a method built from binds, loops and branches. *)
Tactic Notation "pres_apply" uconstr(lem) := apply lem; [apply _ | ..].

Ltac pres :=
  repeat first
    [ pres_apply preserves_ret | pres_apply preserves_raise
    | pres_apply preserves_get_self | pres_apply preserves_get_h5py
    | pres_apply preserves_getitem | pres_apply preserves_setitem
    | pres_apply preserves_h5_get | pres_apply preserves_h5_open_r
    | pres_apply preserves_getitem_l
    | pres_apply preserves_bind; [|intros ?]
    | pres_apply preserves_for_each; intros ? ?
    | pres_apply preserves_except_KeyError
    | solve [eauto with pres]
    | apply files_kept_weaken; solve [eauto with pres]
    | match goal with
      | |- preserves _ (if ?b then _ else _) => destruct b
      | |- preserves _ (match ?x with _ => _ end) => destruct x
      | |- preserves _ (let _ := _ in _) => cbv zeta
      end ].

Section Frames.

Context {S : Type}.
Implicit Types (st : VB S * Env S) (vb : VB S) (env : Env S).

Lemma resolve_filename_self_kept o : preserves self_kept (@resolve_filename S o).
Proof. unfold resolve_filename. pres. Qed.

Lemma save_to_self_kept p : preserves self_kept (@save_to S p).
Proof. unfold save_to. pres. Qed.

Lemma save_to_out_kept p : preserves out_kept (@save_to S p).
Proof. unfold save_to. pres. Qed.

Lemma save_to_files_kept_except p : preserves (files_kept_except p) (@save_to S p).
Proof. unfold save_to. pres. Qed.

End Frames.

(** ** The steps of a round, one equation each *)

Section Steps.

Context {S : Type}.
Implicit Types (st : VB S * Env S) (vb : VB S) (env : Env S).

Lemma add_out_app evs1 evs2 env :
  add_out evs2 (add_out evs1 env) = add_out (evs1 ++ evs2) env.
Proof. unfold add_out, set_out. simpl. by rewrite app_assoc. Qed.

Lemma check_progress_eq Lv vb env :
  check_progress Lv (vb, env) =
    if (0 <? iter vb)%nat then
      match L vb !! (iter vb - 1) with
      | Some prev =>
          (Ok tt, (vb, add_out (warn_events prev Lv ++ conv_events prev Lv) env))
      | None => (Raise IndexError, (vb, env))
      end
    else (Ok tt, (vb, env)).
Proof.
  unfold check_progress, bind, get_self, getitem, warn_events, conv_events.
  simpl. destruct (0 <? iter vb)%nat; [|done].
  destruct (L vb !! (iter vb - 1)) as [prev|]; [|done]. simpl.
  destruct env as [s fs o].
  destruct (warn_tol <? prev - Lv)%float, (Lv - prev <? conv_tol)%float;
    simpl; unfold print, ret, add_out, set_out; simpl;
    by rewrite <- ?app_assoc, ?app_nil_r.
Qed.

Lemma commit_eq Lv vb env :
  commit Lv (vb, env) =
    if (iter vb <? length (L vb))%nat then
      (Ok tt, (set_iter (iter vb + 1) (set_L (<[iter vb := Lv]> (L vb)) vb), env))
    else (Raise IndexError, (vb, env)).
Proof.
  unfold commit, bind, get_self, setitem. simpl.
  by destruct (iter vb <? length (L vb))%nat.
Qed.

Lemma lowerbound_loop_cons node rest Lv vb env :
  lowerbound_loop (node :: rest) Lv (vb, env) =
    match lower_bound_contribution node (node_state env) with
    | (Raise e, s') => (Raise e, (vb, set_node_state s' env))
    | (Ok lp, s') =>
        match l vb !! node_id node with
        | None => (Raise KeyError, (vb, set_node_state s' env))
        | Some s =>
            if (iter vb <? length s)%nat then
              lowerbound_loop rest (Lv + lp)%float
                (set_l (<[node_id node := <[iter vb := lp]> s]> (l vb)) vb,
                 set_node_state s' env)
            else (Raise IndexError, (vb, set_node_state s' env))
        end
    end.
Proof.
  simpl. unfold bind, call, getitem_l, get_self, setitem, set_self, bind. simpl.
  destruct (lower_bound_contribution node (node_state env)) as [[lp|e] s']; [|done].
  simpl. destruct (l vb !! node_id node) as [s|]; [|done]. simpl.
  by destruct (iter vb <? length s)%nat.
Qed.

Lemma update_nodes_cons node rest vb env :
  update_nodes (node :: rest) (vb, env) =
    match node_update node with
    | None => update_nodes rest (vb, env)
    | Some f =>
        match f (node_state env) with
        | (Ok _, s') => update_nodes rest (vb, set_node_state s' env)
        | (Raise e, s') => (Raise e, (vb, set_node_state s' env))
        end
    end.
Proof.
  unfold update_nodes. simpl. unfold bind, call, ret. simpl.
  destruct (node_update node) as [f|]; [|done]. simpl.
  by destruct (f (node_state env)) as [[[]|e] s'].
Qed.

Lemma update_eq nodes repeat vb env :
  update nodes repeat (vb, env) =
    rounds (targets nodes vb) repeat (reserve repeat vb, env).
Proof. reflexivity. Qed.

Lemma for_each_const {A} (xs ys : list A) (m : M S unit) :
  length xs = length ys → for_each xs (λ _, m) = for_each ys (λ _, m).
Proof.
  revert ys. induction xs as [|x xs IH]; intros [|y ys] [=]; simpl; [done|].
  by rewrite (IH ys).
Qed.

Lemma rounds_0 (nodes : list (Node S)) st : rounds nodes 0 st = (Ok tt, st).
Proof. reflexivity. Qed.

Lemma rounds_S (nodes : list (Node S)) n :
  rounds nodes (Datatypes.S n) = bind (update_round nodes) (λ _, rounds nodes n).
Proof.
  unfold rounds. simpl.
  rewrite (for_each_const (seq 1 n) (seq 0 n)); [done|]. by rewrite !length_seq.
Qed.

Lemma update_round_eq nodes st :
  update_round nodes st =
    match compute_bound nodes st with
    | (Raise e, st1) => (Raise e, st1)
    | (Ok Lv, (vb1, env1)) =>
        match check_progress Lv
                (vb1, add_out [PrintIteration (iter vb1 + 1) Lv] env1) with
        | (Raise e, st2) => (Raise e, st2)
        | (Ok _, st2) => bind autosave (λ _, commit Lv) st2
        end
    end.
Proof.
  unfold update_round at 1. unfold bind at 1.
  destruct (compute_bound nodes st) as [[Lv|e] [vb1 env1]]; [|done].
  unfold bind at 1. simpl. unfold bind at 1. simpl. unfold bind at 1.
  by destruct (check_progress _ _) as [[[]|e] st2].
Qed.

End Steps.

(** ** The ledger across a round *)

Section Ledger.

Context {S : Type}.
Implicit Types (st : VB S * Env S) (vb : VB S) (env : Env S).
Implicit Types (node : Node S) (nodes : list (Node S)).

Lemma series_frame_refl i s : series_frame i s s.
Proof. by split. Qed.

Lemma series_frame_trans i s1 s2 s3 :
  series_frame i s1 s2 → series_frame i s2 s3 → series_frame i s1 s3.
Proof.
  intros [H1 H2] [H3 H4]. split; [congruence|].
  intros j Hj. by rewrite H4, H2.
Qed.

Lemma series_frame_insert i x s : series_frame i s (<[i := x]> s).
Proof.
  split; [apply length_insert|]. intros j Hj. by apply list_lookup_insert_ne.
Qed.

Lemma ledger_frame_refl i vb : ledger_frame i vb vb.
Proof.
  split; [done|]. split; [apply series_frame_refl|].
  intros k. destruct (l vb !! k); constructor. apply series_frame_refl.
Qed.

Lemma ledger_frame_trans i vb1 vb2 vb3 :
  ledger_frame i vb1 vb2 → ledger_frame i vb2 vb3 → ledger_frame i vb1 vb3.
Proof.
  intros ((Ha & Hb & Hc & Hd) & HL & Hl) ((Ha' & Hb' & Hc' & Hd') & HL' & Hl').
  split; [|split].
  - unfold static_eq. by rewrite Ha', Hb', Hc', Hd'.
  - by eapply series_frame_trans.
  - intros k. specialize (Hl k). specialize (Hl' k).
    destruct Hl as [s1 s2 H12|]; inversion Hl' as [s2' s3 H23|]; subst;
      constructor. by eapply series_frame_trans.
Qed.

Lemma lowerbound_loop_frame nodes Lv vb env r vb' env' :
  lowerbound_loop nodes Lv (vb, env) = (r, (vb', env')) →
  ledger_frame (iter vb) vb vb' ∧ iter vb' = iter vb ∧ L vb' = L vb ∧
  files env' = files env ∧ out env' = out env ∧
  (∀ k, k ∉ node_id <$> nodes → l vb' !! k = l vb !! k).
Proof.
  revert Lv vb env. induction nodes as [|node rest IH]; intros Lv vb env.
  { intros [= <- <- <-]. split; [apply ledger_frame_refl|done]. }
  rewrite lowerbound_loop_cons.
  destruct (lower_bound_contribution node (node_state env)) as [[lp|e] s1].
  2:{ intros [= <- <- <-]. split; [apply ledger_frame_refl|done]. }
  destruct (l vb !! node_id node) as [s|] eqn:Es.
  2:{ intros [= <- <- <-]. split; [apply ledger_frame_refl|done]. }
  destruct (iter vb <? length s)%nat.
  2:{ intros [= <- <- <-]. split; [apply ledger_frame_refl|done]. }
  intros H. apply IH in H as (Hf & Hi & HL & Hfs & Ho & Hk). simpl in *.
  split; [|split_and!; try done].
  - eapply ledger_frame_trans; [|exact Hf].
    split; [done|]. split; [apply series_frame_refl|]. simpl.
    intros k. destruct (decide (k = node_id node)) as [->|Hne].
    + rewrite lookup_insert_eq, Es. constructor. apply series_frame_insert.
    + rewrite lookup_insert_ne by done.
      destruct (l vb !! k); constructor. apply series_frame_refl.
  - intros k Hk'. apply not_elem_of_cons in Hk' as [Hne Hk'].
    rewrite (Hk k Hk'). by rewrite lookup_insert_ne.
Qed.

Lemma lowerbound_loop_ok nodes Lv vb env Lv' vb' env' :
  NoDup (node_id <$> nodes) →
  lowerbound_loop nodes Lv (vb, env) = (Ok Lv', (vb', env')) →
  ∃ vs, contributions nodes (node_state env) = (Ok vs, node_state env') ∧
        Forall2 (λ node v, entry vb' node (iter vb) = Some v) nodes vs ∧
        Lv' = foldl PrimFloat.add Lv vs.
Proof.
  revert Lv vb env. induction nodes as [|node rest IH]; intros Lv vb env Hnd.
  { intros [= <- <- <-]. exists []. by split_and!. }
  rewrite lowerbound_loop_cons. simpl.
  destruct (lower_bound_contribution node (node_state env)) as [[lp|e] s1];
    [|done].
  destruct (l vb !! node_id node) as [s|] eqn:Es; [|done].
  destruct (iter vb <? length s)%nat eqn:Elt; [|done].
  apply Nat.ltb_lt in Elt.
  rewrite fmap_cons in Hnd. apply NoDup_cons in Hnd as [Hnotin Hnd].
  intros H. pose proof (lowerbound_loop_frame _ _ _ _ _ _ _ H) as Hfr.
  destruct Hfr as (_ & _ & _ & _ & _ & Hk).
  apply IH in H as (vs & Hc & Hall & ->); [|done]. simpl in *.
  rewrite Hc. exists (lp :: vs). split_and!; [done| |done].
  constructor; [|done].
  unfold entry. rewrite (Hk _ Hnotin). simpl.
  rewrite lookup_insert_eq. simpl. by apply list_lookup_insert_eq.
Qed.

Lemma lowerbound_loop_total nodes Lv vb env vs s' :
  contributions nodes (node_state env) = (Ok vs, s') →
  NoDup (node_id <$> nodes) →
  (∀ node, node ∈ nodes →
     ∃ s, l vb !! node_id node = Some s ∧ iter vb < length s) →
  ∃ vb', lowerbound_loop nodes Lv (vb, env)
         = (Ok (foldl PrimFloat.add Lv vs), (vb', set_node_state s' env)).
Proof.
  revert Lv vb env vs. induction nodes as [|node rest IH];
    intros Lv vb env vs.
  { simpl. intros [= <- <-] _ _. exists vb. by destruct env. }
  intros Hc Hnd Hl. rewrite lowerbound_loop_cons. simpl in Hc.
  destruct (lower_bound_contribution node (node_state env)) as [[lp|e] s1];
    [|done].
  destruct (contributions rest s1) as [[vs'|e] s2] eqn:Ec; [|done].
  injection Hc as <- <-.
  destruct (Hl node) as (s & -> & Hlt); [by left|].
  apply Nat.ltb_lt in Hlt as ->.
  apply NoDup_cons in Hnd as [Hnotin Hnd].
  edestruct (IH (Lv + lp)%float
    (set_l (<[node_id node := <[iter vb := lp]> s]> (l vb)) vb)
    (set_node_state s1 env) vs') as [vb' Hvb']; [done|done| |].
  - intros n Hn. simpl. destruct (Hl n) as (sn & Hsn & Hlen); [by right|].
    rewrite lookup_insert_ne; [eauto|].
    intros Heq. apply Hnotin. rewrite Heq. by apply list_elem_of_fmap_2.
  - exists vb'. by rewrite Hvb'.
Qed.

End Ledger.

(** ** Node updates and the bound of a round *)

Section Bound.

Context {S : Type}.
Implicit Types (st : VB S * Env S) (vb : VB S) (env : Env S).
Implicit Types (node : Node S) (nodes : list (Node S)).

Lemma update_nodes_self_kept nodes : preserves self_kept (update_nodes nodes).
Proof. unfold update_nodes. pres. Qed.

Lemma update_nodes_files_kept nodes : preserves files_kept (update_nodes nodes).
Proof. unfold update_nodes. pres. Qed.

Lemma update_nodes_out_kept nodes : preserves out_kept (update_nodes nodes).
Proof. unfold update_nodes. pres. Qed.

Lemma update_nodes_frame nodes vb env r vb' env' :
  update_nodes nodes (vb, env) = (r, (vb', env')) →
  vb' = vb ∧ files env' = files env ∧ out env' = out env.
Proof.
  intros H. split_and!.
  - apply (update_nodes_self_kept _ _ _ _ H).
  - apply (update_nodes_files_kept _ _ _ _ H).
  - apply (update_nodes_out_kept _ _ _ _ H).
Qed.

Lemma update_nodes_total nodes vb env :
  (∀ node, node ∈ nodes → node_total node) →
  ∃ s', update_nodes nodes (vb, env) = (Ok tt, (vb, set_node_state s' env)).
Proof.
  revert env. induction nodes as [|node rest IH]; intros env Ht.
  { exists (node_state env). by destruct env. }
  rewrite update_nodes_cons.
  assert (Hrest : ∀ n, n ∈ rest → node_total n) by (intros; apply Ht; by right).
  destruct (node_update node) as [f|] eqn:Ef; [|by apply IH].
  destruct (Ht node) as (Hu & _); [by left|].
  destruct (Hu f Ef (node_state env)) as ([] & s1 & ->).
  destruct (IH (set_node_state s1 env) Hrest) as [s' Hs']. by exists s'.
Qed.

Lemma contributions_total nodes s :
  (∀ node, node ∈ nodes → node_total node) →
  ∃ vs s', contributions nodes s = (Ok vs, s').
Proof.
  revert s. induction nodes as [|node rest IH]; intros s Ht; simpl; [eauto|].
  destruct (Ht node) as (_ & Hc & _); [by left|].
  destruct (Hc s) as (v & s1 & ->).
  destruct (IH s1) as (vs & s2 & ->); [intros; apply Ht; by right|]. eauto.
Qed.

Lemma compute_bound_frame nodes vb env r vb' env' :
  compute_bound nodes (vb, env) = (r, (vb', env')) →
  ledger_frame (iter vb) vb vb' ∧ iter vb' = iter vb ∧ L vb' = L vb ∧
  files env' = files env ∧ out env' = out env.
Proof.
  unfold compute_bound. intros H.
  apply bind_inv in H as [([] & [vb1 env1] & H1 & H2)|(e & H1 & _)].
  - apply update_nodes_frame in H1 as (-> & Hf & Ho).
    unfold loglikelihood_lowerbound, bind, get_self in H2. simpl in H2.
    apply lowerbound_loop_frame in H2 as (? & ? & ? & ? & ? & _).
    split_and!; congruence.
  - apply update_nodes_frame in H1 as (-> & Hf & Ho).
    split; [apply ledger_frame_refl|done].
Qed.

Lemma compute_bound_ok nodes vb env Lv vb' env' :
  NoDup (node_id <$> model vb) →
  compute_bound nodes (vb, env) = (Ok Lv, (vb', env')) →
  ∃ vs s1, contributions (model vb) s1 = (Ok vs, node_state env') ∧
           Forall2 (λ node v, entry vb' node (iter vb) = Some v) (model vb) vs ∧
           Lv = py_sum vs.
Proof.
  unfold compute_bound. intros Hnd H.
  apply bind_inv in H as [([] & [vb1 env1] & H1 & H2)|(e & _ & [=])].
  apply update_nodes_frame in H1 as (-> & _).
  unfold loglikelihood_lowerbound, bind, get_self in H2. simpl in H2.
  apply lowerbound_loop_ok in H2 as (vs & ? & ? & ?); [|done]. eauto.
Qed.

Lemma compute_bound_total nodes vb env :
  (∀ node, node ∈ nodes → node_total node) →
  (∀ node, node ∈ model vb → node_total node) →
  NoDup (node_id <$> model vb) →
  (∀ node, node ∈ model vb →
     ∃ s, l vb !! node_id node = Some s ∧ iter vb < length s) →
  ∃ Lv vb' env', compute_bound nodes (vb, env) = (Ok Lv, (vb', env')).
Proof.
  intros Hn Hm Hnd Hl. unfold compute_bound.
  destruct (update_nodes_total nodes vb env Hn) as [s1 H1].
  rewrite (bind_ok _ _ _ _ _ H1).
  unfold loglikelihood_lowerbound, bind, get_self. simpl.
  destruct (contributions_total (model vb) s1 Hm) as (vs & s2 & Hc).
  edestruct (lowerbound_loop_total (model vb) 0%float vb
               (set_node_state s1 env)) as [vb' Hvb']; [exact Hc|done|done|].
  rewrite Hvb'. eauto.
Qed.

End Bound.

(** ** Checkpoints *)

Section Checkpoint.

Context {S : Type}.
Implicit Types (st : VB S * Env S) (vb : VB S) (env : Env S).
Implicit Types (node : Node S) (nodes : list (Node S)).

Lemma bind_ok_inv {A B} (m : M S A) (k : A → M S B) st b st2 :
  bind m k st = (Ok b, st2) →
  ∃ a st1, m st = (Ok a, st1) ∧ k a st1 = (Ok b, st2).
Proof.
  intros H. apply bind_inv in H as [(a & st1 & ? & ?)|(e & _ & [=])]. eauto.
Qed.

Lemma for_each_total {A} (I : list A → VB S * Env S → Prop)
    (xs : list A) (body : A → M S unit) st :
  I [] st →
  (∀ pre x post st1, xs = pre ++ x :: post → I pre st1 →
     ∃ st2, body x st1 = (Ok tt, st2) ∧ I (pre ++ [x]) st2) →
  ∃ st', for_each xs body st = (Ok tt, st') ∧ I xs st'.
Proof.
  intros H0 Hstep.
  cut (∀ rest pre st1, xs = pre ++ rest → I pre st1 →
         ∃ st', for_each rest body st1 = (Ok tt, st') ∧ I xs st').
  { intros Hcut. by apply (Hcut xs [] st). }
  induction rest as [|x rest IH]; intros pre st1 Hxs HI.
  - rewrite app_nil_r in Hxs. subst. simpl. by exists st1.
  - destruct (Hstep pre x rest st1 Hxs HI) as (st2 & Hb & HI2).
    simpl. rewrite (bind_ok _ _ _ _ _ Hb).
    apply (IH (pre ++ [x])); [|done]. by rewrite <- app_assoc.
Qed.

Lemma eqb_empty_false (s : string) : s ≠ "" → String.eqb s "" = false.
Proof. intros H. by apply String.eqb_neq. Qed.

Lemma NoDup_app_cons_name nodes pre node post :
  NoDup (name <$> nodes) → nodes = pre ++ node :: post →
  name node ∉ name <$> pre.
Proof.
  intros Hnd ->. rewrite fmap_app, fmap_cons in Hnd.
  apply NoDup_app in Hnd as (_ & Hdisj & _).
  intros Hin. apply (Hdisj _ Hin). by left.
Qed.

Lemma save_to_total p vb env :
  names_ok (model vb) →
  names_plain (model vb) →
  accepts_plain (h5py env) →
  (∀ node, node ∈ model vb → node_total node) →
  (∀ node, node ∈ model vb → is_Some (l vb !! node_id node)) →
  ∃ env', save_to p (vb, env) = (Ok tt, (vb, env')).
Proof.
  intros [Hne Hnd] Hplain Hlib Ht Hl. unfold save_to.
  unfold bind at 1. simpl. unfold bind at 1. simpl. unfold bind at 1. simpl.
  set (env1 := set_files (<[p := h5_new]> (files env)) env).
  assert (Hpl : ∀ (pre : list (Node S)) nm,
            pre ⊆ model vb → nm ∈ name <$> pre → plain nm = true).
  { intros pre nm Hsub Hin. apply list_elem_of_fmap in Hin as (n0 & -> & Hn0).
    apply Hplain, Hsub, Hn0. }
  assert (Hsub : ∀ pre node post,
            model vb = pre ++ node :: post → pre ⊆ model vb).
  { intros pre node post -> n0 Hn0. apply elem_of_app. by left. }
  (* the groups of the nodes *)
  lazymatch goal with
  | |- ∃ _, bind (for_each _ ?body) _ _ = _ =>
      edestruct (for_each_total
        (λ pre st1, st1.1 = vb ∧ ∃ f, files st1.2 !! p = Some f ∧
           h5_boundterms f = None ∧
           (∀ nm, is_Some (h5_nodes f !! nm) → nm ∈ name <$> pre))
        (model vb) body (vb, env1))
        as ([vb2 env2] & Hfe & Hvb2 & f2 & Hf2 & Hb2 & Hdom2);
        [| |rewrite (bind_ok _ _ _ _ _ Hfe); simpl in *; subst vb2]
  end.
  { split; [done|]. exists h5_new. subst env1. simpl.
    rewrite lookup_insert_eq. split_and!; try done.
    intros nm [g Hg]. by rewrite lookup_empty in Hg. }
  { intros pre node post [vb1 e1] Hsplit (Hvb1 & f & Hf & Hbt & Hdom).
    simpl in Hvb1, Hf. subst vb1.
    assert (Hin : node ∈ model vb).
    { rewrite Hsplit. apply elem_of_app. right. by left. }
    rewrite (eqb_empty_false _ (Hne node Hin)).
    destruct (node_save node) as [cb|] eqn:Ecb.
    2:{ eexists. split; [done|]. split; [done|]. exists f. split_and!; try done.
        intros nm Hnm. rewrite fmap_app. apply elem_of_app. left. eauto. }
    assert (Hfresh : h5_nodes f !! name node = None).
    { destruct (h5_nodes f !! name node) eqn:E; [|done]. exfalso.
      eapply NoDup_app_cons_name; [exact Hnd|exact Hsplit|]. apply Hdom. eauto. }
    assert (Hok : h5py env (CreateGroup (name node)) f = None).
    { apply Hlib; [by apply Hplain|]. split.
      - intros nm Hnm. apply (Hpl pre); [by eapply Hsub|by apply Hdom].
      - intros b nm Hb. congruence. }
    destruct (Ht node Hin) as (_ & _ & Hs).
    destruct (Hs cb Ecb (node_state e1)) as (g & s1 & Hg).
    unfold bind, h5_write, call, h5_create_group, h5_fill_group. simpl.
    rewrite Hf, Hfresh, Hok. simpl. rewrite Hg. simpl.
    rewrite lookup_insert_eq. eexists. split; [done|]. split; [done|].
    eexists. simpl. rewrite lookup_insert_eq. split; [done|]. simpl.
    split; [done|].
    intros nm [g' Hg']. rewrite fmap_app. apply elem_of_app.
    destruct (decide (nm = name node)) as [->|Hneq].
    - right. simpl. by left.
    - left. apply Hdom. rewrite !lookup_insert_ne in Hg' by done. eauto. }
  (* the ledger *)
  assert (Hgroups : ∀ nm, is_Some (h5_nodes f2 !! nm) → plain nm = true).
  { intros nm Hnm. by apply (Hpl (model vb)), Hdom2. }
  assert (Hpf : ∀ f', h5_nodes f' = h5_nodes f2 → h5_boundterms f' = None →
            plain_file f').
  { intros f' Hn Hb. split; [intros nm; rewrite Hn; apply Hgroups|].
    intros b nm Hb'. congruence. }
  unfold bind at 1. simpl.
  unfold bind at 1. unfold h5_write at 1, write_L_to_hdf5. simpl.
  rewrite Hf2, (Hlib WriteL f2 eq_refl (Hpf f2 eq_refl Hb2)). simpl.
  unfold bind at 1. unfold h5_write at 1, write_iter_to_hdf5. simpl.
  rewrite lookup_insert_eq.
  rewrite (Hlib WriteIter); [|done|by apply Hpf]. simpl.
  unfold bind at 1. unfold h5_write at 1, h5_create_boundterms. simpl.
  rewrite lookup_insert_eq.
  rewrite (Hlib CreateBoundterms); [|done|by apply Hpf]. simpl.
  edestruct (for_each_total
    (λ pre st1, st1.1 = vb ∧ ∃ f b, files st1.2 !! p = Some f ∧
       h5_boundterms f = Some b ∧ h5_nodes f = h5_nodes f2 ∧
       (∀ nm, is_Some (b !! nm) → nm ∈ name <$> pre))
    (model vb)) as ([vb3 env3] & -> & Hvb3 & _); [| |simpl in *; subst; eauto].
  { split; [done|]. eexists _, _. simpl. rewrite lookup_insert_eq.
    split; [done|]. simpl. split_and!; try done.
    intros nm [g Hg]. by rewrite lookup_empty in Hg. }
  { intros pre node post [vb1 e1] Hsplit (Hvb1 & f & b & Hf & Hb & Hfn & Hdom).
    simpl in Hvb1, Hf. subst vb1.
    assert (Hin : node ∈ model vb).
    { rewrite Hsplit. apply elem_of_app. right. by left. }
    destruct (Hl node Hin) as [s Hs].
    assert (Hfresh : b !! name node = None).
    { destruct (b !! name node) eqn:E; [|done]. exfalso.
      eapply NoDup_app_cons_name; [exact Hnd|exact Hsplit|]. apply Hdom. eauto. }
    assert (Hok : h5py env (WriteBoundterm (name node)) f = None).
    { apply Hlib; [by apply Hplain|]. split.
      - intros nm. rewrite Hfn. apply Hgroups.
      - intros b' nm Hb' Hnm. assert (b' = b) as -> by congruence.
        apply (Hpl pre); [by eapply Hsub|by apply Hdom]. }
    unfold getitem_l, bind, get_self, h5_write, write_boundterm_to_hdf5. simpl.
    rewrite Hs. simpl. rewrite Hf, Hb, Hfresh, Hok. simpl.
    eexists. split; [done|]. split; [done|]. eexists _, _. simpl.
    rewrite lookup_insert_eq. split; [done|]. simpl. split_and!; try done.
    intros nm [g' Hg']. rewrite fmap_app. apply elem_of_app.
    destruct (decide (nm = name node)) as [->|Hneq].
    - right. simpl. by left.
    - left. apply Hdom. rewrite lookup_insert_ne in Hg' by done. eauto. }
Qed.

#[export] Instance keeps_po I : PreOrder (@keeps S I).
Proof. split; [by intros ? ?|]. intros x y z H1 H2 H. by apply H2, H1. Qed.

Lemma h5_write_keeps_ledger p a i op :
  (∀ f f', op f = Ok f' → h5_L f' = h5_L f ∧ h5_iter f' = h5_iter f) →
  preserves (keeps (holds_ledger p a i)) (h5_write (S:=S) p op).
Proof.
  intros Hop [vb env] r st'. unfold h5_write. simpl.
  destruct (files env !! p) as [f|] eqn:Ef; [|by intros [= <- <-]].
  destruct (op f) as [f'|e] eqn:Eop; intros [= <- <-]; [|done].
  intros (ck & Hck & HL & Hi). simpl in *. simplify_eq.
  destruct (Hop _ _ Eop) as [HL' Hi'].
  exists f'. simpl. rewrite lookup_insert_eq. split; [done|]. split; congruence.
Qed.

Lemma save_to_content p vb env vb' env' :
  save_to p (vb, env) = (Ok tt, (vb', env')) →
  vb' = vb ∧ holds_ledger p (L vb) (iter vb) (vb', env').
Proof.
  intros H. pose proof (save_to_self_kept _ _ _ _ H) as Hself.
  unfold self_kept in Hself. simpl in Hself. subst vb'. split; [done|]. revert H. unfold save_to.
  intros H. apply bind_ok_inv in H as (lib & st0 & H0 & H). injection H0 as <- <-.
  apply bind_ok_inv in H as ([] & [vb1 env1] & H1 & H).
  injection H1 as <- <-.
  apply bind_ok_inv in H as (vb1 & st1 & H1 & H). injection H1 as <- <-.
  apply bind_ok_inv in H as ([] & [vb2 env2] & H1 & H).
  assert (vb2 = vb) as ->.
  { revert H1. match goal with |- ?m _ = _ → _ =>
      assert (Hp : preserves self_kept m) by pres end.
    intros H1. apply (Hp _ _ _ H1). }
  clear H1.
  apply bind_ok_inv in H as (vb2 & st1 & H1 & H). injection H1 as <- <-.
  apply bind_ok_inv in H as ([] & [vb3 env3] & H1 & H).
  apply bind_ok_inv in H as ([] & [vb4 env4] & H2 & H).
  assert (holds_ledger p (L vb) (iter vb) (vb4, env4)) as Hhold.
  { revert H1 H2. unfold h5_write, write_L_to_hdf5, write_iter_to_hdf5. simpl.
    destruct (files env2 !! p) as [f|]; [|done].
    destruct (h5py env WriteL f); [done|]. intros [= <- <-]. simpl.
    rewrite lookup_insert_eq.
    destruct (h5py env WriteIter _); [done|]. intros [= <- <-].
    eexists. simpl. rewrite lookup_insert_eq. done. }
  revert Hhold. clear H1 H2. revert H.
  match goal with |- ?m _ = _ → _ =>
    assert (Hp : preserves (keeps (holds_ledger p (L vb) (iter vb))) m) end.
  { pres_apply preserves_bind.
    - apply h5_write_keeps_ledger. intros f f'. unfold h5_create_boundterms.
      destruct (h5py env CreateBoundterms f); [done|]. by intros [= <-].
    - intros _. pres_apply preserves_for_each. intros node _.
      pres_apply preserves_bind; [pres|]. intros s.
      apply h5_write_keeps_ledger. intros f f'.
      unfold write_boundterm_to_hdf5. repeat case_match; intros [= <-]; done. }
  intros H. apply (Hp _ _ _ H).
Qed.

Lemma resolve_filename_explicit (p : string) st :
  p ≠ "" → resolve_filename (Some p) st = (Ok p, st).
Proof.
  intros Hp. unfold resolve_filename, bind, get_self. simpl.
  by rewrite (eqb_empty_false _ Hp).
Qed.

Lemma save_explicit (p : string) st :
  p ≠ "" → save (Some p) st = save_to p st.
Proof.
  intros Hp. unfold save.
  by rewrite (bind_ok _ _ _ _ _ (resolve_filename_explicit p st Hp)).
Qed.

Lemma save_self_kept o : preserves self_kept (@save S o).
Proof.
  unfold save. pres_apply preserves_bind; [apply resolve_filename_self_kept|].
  intros p. apply save_to_self_kept.
Qed.

Lemma save_out_kept o : preserves out_kept (@save S o).
Proof.
  unfold save. pres_apply preserves_bind; [unfold resolve_filename; pres|].
  intros p. apply save_to_out_kept.
Qed.

Lemma autosave_self_kept : preserves self_kept (@autosave S).
Proof.
  unfold autosave. pres_apply preserves_bind; [pres|]. intros vb.
  destruct (autosave_due vb); [|pres].
  pres_apply preserves_bind; [apply save_self_kept|pres].
Qed.

Lemma autosave_out_grows : preserves out_grows (@autosave S).
Proof.
  unfold autosave. pres_apply preserves_bind; [pres|]. intros vb.
  destruct (autosave_due vb); [|pres].
  pres_apply preserves_bind; [|pres].
  intros st r st' H. unfold out_grows.
  by rewrite (save_out_kept _ _ _ _ H).
Qed.

Lemma autosave_not_due vb env :
  autosave_due vb = false → autosave (vb, env) = (Ok tt, (vb, env)).
Proof. intros H. unfold autosave, bind, get_self. simpl. by rewrite H. Qed.

Lemma autosave_when_due vb env :
  autosave_due vb = true →
  autosave (vb, env) =
    match save (Some (autosave_filename vb)) (vb, env) with
    | (Ok _, (vb1, env1)) =>
        (Ok tt, (vb1, add_out [PrintAutoSaved (autosave_filename vb)] env1))
    | (Raise e, st1) => (Raise e, st1)
    end.
Proof.
  intros H. unfold autosave, bind, get_self. simpl. rewrite H.
  by destruct (save _ _) as [[[]|e] [vb1 env1]].
Qed.

End Checkpoint.

(** ** Rounds *)

Section Rounds.

Context {S : Type}.
Implicit Types (st : VB S * Env S) (vb : VB S) (env : Env S).
Implicit Types (node : Node S) (nodes : list (Node S)).

Lemma update_round_raise_bound nodes st e st1 :
  compute_bound nodes st = (Raise e, st1) →
  update_round nodes st = (Raise e, st1).
Proof. intros H. by rewrite update_round_eq, H. Qed.

Lemma update_round_after_bound nodes vb env Lv vb1 env1 :
  compute_bound nodes (vb, env) = (Ok Lv, (vb1, env1)) →
  iter vb ≤ length (L vb) →
  update_round nodes (vb, env) =
    bind autosave (λ _, commit Lv) (vb1, add_out (round_events vb Lv) env1).
Proof.
  intros H Hle. rewrite update_round_eq, H.
  apply compute_bound_frame in H as (_ & Hi & HL & _).
  rewrite check_progress_eq, Hi, HL. unfold round_events, progress_events.
  destruct (0 <? iter vb)%nat eqn:E0; simpl.
  - apply Nat.ltb_lt in E0.
    destruct (lookup_lt_is_Some_2 (L vb) (iter vb - 1)) as [prev ->]; [lia|].
    by rewrite add_out_app.
  - done.
Qed.

Lemma commit_frame Lv vb env r vb' env' :
  commit Lv (vb, env) = (r, (vb', env')) →
  ledger_frame (iter vb) vb vb' ∧ env' = env ∧
  match r with
  | Ok _ => iter vb' = iter vb + 1 ∧ iter vb < length (L vb)
            ∧ L vb' = <[iter vb := Lv]> (L vb) ∧ l vb' = l vb
  | Raise _ => vb' = vb
  end.
Proof.
  rewrite commit_eq. destruct (iter vb <? length (L vb))%nat eqn:E.
  - intros [= <- <- <-]. apply Nat.ltb_lt in E. split_and!; try done.
    split; [done|]. simpl. split; [apply series_frame_insert|].
    intros k. destruct (l vb !! k); constructor. apply series_frame_refl.
  - intros [= <- <- <-]. split; [apply ledger_frame_refl|done].
Qed.

Lemma update_round_frame nodes vb env r vb' env' :
  update_round nodes (vb, env) = (r, (vb', env')) →
  ledger_frame (iter vb) vb vb' ∧ out env `prefix_of` out env' ∧
  match r with
  | Ok _ => iter vb' = iter vb + 1 ∧ iter vb < length (L vb)
  | Raise _ => iter vb' = iter vb ∧ L vb' = L vb
  end.
Proof.
  rewrite update_round_eq.
  destruct (compute_bound nodes (vb, env)) as [[Lv|e] [vb1 env1]] eqn:Ec.
  2:{ intros [= <- <- <-].
      apply compute_bound_frame in Ec as (? & ? & ? & ? & ->). done. }
  apply compute_bound_frame in Ec as (Hfr & Hi & HL & _ & Ho).
  destruct (check_progress Lv _) as [[[]|e] [vb2 env2]] eqn:Ep.
  2:{ intros [= <- <- <-]. revert Ep. rewrite check_progress_eq.
      repeat case_match; intros [= <- <- <-]; try done.
      split_and!; try done. simpl. rewrite Ho. by apply prefix_app_r. }
  assert (vb2 = vb1 ∧ out env `prefix_of` out env2) as [-> Hpre].
  { revert Ep. rewrite check_progress_eq.
    repeat case_match; intros [= <- <-]; (split; [done|]); simpl;
      rewrite Ho, <- ?app_assoc; by apply prefix_app_r. }
  intros H. apply bind_inv in H as [([] & [vb3 env3] & H1 & H2)|(e & H1 & ->)].
  - pose proof (autosave_self_kept _ _ _ H1) as Hs.
    pose proof (autosave_out_grows _ _ _ H1) as Hg.
    unfold self_kept, out_grows in *. simpl in *. subst vb3.
    apply commit_frame in H2 as (Hfr2 & -> & Hr).
    rewrite Hi in Hfr2. split; [by eapply ledger_frame_trans|].
    split; [by etrans|]. destruct r.
    + rewrite <- Hi, <- HL. tauto.
    + subst. done.
  - pose proof (autosave_self_kept _ _ _ H1) as Hs.
    pose proof (autosave_out_grows _ _ _ H1) as Hg.
    unfold self_kept, out_grows in *. simpl in *. subst vb'.
    split_and!; try done. by etrans.
Qed.

Lemma shape_round nodes vb env r vb' env' :
  ledger_shape vb →
  update_round nodes (vb, env) = (r, (vb', env')) →
  ledger_shape vb'.
Proof.
  intros [Hids Hser Hit Hres] H.
  apply update_round_frame in H as (((Hm & _) & [HLlen HL] & Hl) & _ & Hr).
  split.
  - by rewrite Hm.
  - rewrite Hm. intros node Hin. destruct (Hser node Hin) as (s & Hs & Hlen).
    specialize (Hl (node_id node)). rewrite Hs in Hl.
    inversion Hl as [? s' [Hlen' _] |]; subst. exists s'. split; [done|].
    congruence.
  - destruct r as [[]|e]; destruct Hr as [Hi ?]; rewrite Hi, HLlen; lia.
  - intros i Hi Hlt. rewrite HLlen in Hlt. destruct r as [[]|e].
    + destruct Hr as [Hi' ?]. rewrite HL by lia. apply Hres; lia.
    + destruct Hr as [Hi' ->]. apply Hres; lia.
Qed.

Lemma shape_reserve k vb : ledger_shape vb → ledger_shape (reserve k vb).
Proof.
  intros [Hids Hser Hit Hres]. split; simpl.
  - done.
  - intros node Hin. destruct (Hser node Hin) as (s & Hs & Hlen).
    exists (s ++ nans k). rewrite lookup_fmap, Hs. split; [done|].
    rewrite !length_app. congruence.
  - rewrite length_app. lia.
  - intros i Hi. rewrite length_app. unfold nans. rewrite length_replicate.
    intros Hlt. destruct (decide (i < length (L vb))) as [Hin|Hout].
    + rewrite lookup_app_l by done. by apply Hres.
    + rewrite lookup_app_r by lia. apply lookup_replicate_2. lia.
Qed.

Lemma rounds_spec nodes n vb env r vb' env' :
  ledger_shape vb →
  rounds nodes n (vb, env) = (r, (vb', env')) →
  ledger_shape vb' ∧ static_eq vb vb' ∧ length (L vb') = length (L vb) ∧
  out env `prefix_of` out env' ∧
  match r with
  | Ok _ => iter vb' = iter vb + n
  | Raise _ => ∃ j, j < n ∧ iter vb' = iter vb + j
  end.
Proof.
  revert vb env. induction n as [|n IH]; intros vb env Hsh.
  { intros [= <- <- <-]. split_and!; try done; lia. }
  rewrite rounds_S. intros H.
  apply bind_inv in H as [([] & [vb1 env1] & H1 & H2)|(e & H1 & ->)].
  - pose proof (shape_round _ _ _ _ _ _ Hsh H1) as Hsh1.
    apply update_round_frame in H1 as ((Hst & [HLlen _] & _) & Hpre & Hi & _).
    apply IH in H2 as (Hsh' & Hst' & HLlen' & Hpre' & Hr); [|done].
    split_and!; try done.
    + destruct Hst as (? & ? & ? & ?), Hst' as (? & ? & ? & ?).
      unfold static_eq. split_and!; congruence.
    + congruence.
    + by etrans.
    + destruct r as [[]|e].
      * lia.
      * destruct Hr as (j & Hj & Hj'). exists (Datatypes.S j). lia.
  - pose proof (shape_round _ _ _ _ _ _ Hsh H1) as Hsh1.
    apply update_round_frame in H1 as ((Hst & [HLlen _] & _) & Hpre & Hi & _).
    split_and!; try done. exists 0. lia.
Qed.

Lemma update_spec nodes k vb env r vb' env' :
  ledger_shape vb →
  update nodes k (vb, env) = (r, (vb', env')) →
  ledger_shape vb' ∧ static_eq vb vb' ∧ length (L vb') = length (L vb) + k ∧
  out env `prefix_of` out env' ∧
  match r with
  | Ok _ => iter vb' = iter vb + k
  | Raise _ => ∃ j, j < k ∧ iter vb' = iter vb + j
  end.
Proof.
  intros Hsh. rewrite update_eq. intros H.
  apply rounds_spec in H as (Hsh' & Hst & HLlen & Hpre & Hr);
    [|by apply shape_reserve].
  split_and!; try done. rewrite HLlen. simpl. rewrite length_app.
  unfold nans. by rewrite length_replicate.
Qed.

End Rounds.

(** ** The constructor *)

Section Constructor.

Context {S : Type}.
Implicit Types (st : VB S * Env S) (vb : VB S) (env : Env S).
Implicit Types (node : Node S) (nodes : list (Node S)).

Lemma unique_from_spec (seen : gset nat) nodes :
  NoDup (node_id <$> unique_from seen nodes) ∧
  (∀ node, node ∈ unique_from seen nodes → node ∈ nodes ∧ node_id node ∉ seen).
Proof.
  revert seen. induction nodes as [|n rest IH]; intros seen; simpl.
  { split; [constructor|]. intros node Hin. by apply elem_of_nil in Hin. }
  destruct (decide (node_id n ∈ seen)) as [Hseen|Hnew].
  - destruct (IH seen) as [Hnd Hsub]. split; [done|].
    intros node Hin. destruct (Hsub node Hin). split; [by right|done].
  - destruct (IH ({[node_id n]} ∪ seen)) as [Hnd Hsub]. split.
    + rewrite fmap_cons. apply NoDup_cons. split; [|done].
      intros Hin. apply list_elem_of_fmap in Hin as (node & Heq & Hin).
      destruct (Hsub node Hin) as [_ Hnot]. apply Hnot. rewrite <- Heq.
      apply elem_of_union. left. by apply elem_of_singleton.
    + intros node Hin. apply elem_of_cons in Hin as [->|Hin].
      * split; [by left|done].
      * destruct (Hsub node Hin) as [? Hnot]. split; [by right|].
        intros Hs. apply Hnot. apply elem_of_union. by right.
Qed.

Lemma unique_NoDup nodes : NoDup (node_id <$> unique nodes).
Proof. apply unique_from_spec. Qed.

Lemma unique_subseteq nodes node : node ∈ unique nodes → node ∈ nodes.
Proof. intros H. by apply (unique_from_spec ∅ nodes). Qed.

Lemma tmpfile_name_nonempty tmpdir date rnd : tmpfile_name tmpdir date rnd ≠ "".
Proof. unfold tmpfile_name. by destruct tmpdir. Qed.

Lemma init_eq nodes c fn tmpdir date rnd :
  __init__ nodes c fn tmpdir date rnd = Ok (fresh nodes c fn tmpdir date rnd).
Proof.
  unfold __init__, fresh. rewrite length_fmap, Nat.eqb_refl. simpl.
  by destruct (truthy fn).
Qed.

Lemma fresh_series nodes c fn tmpdir date rnd node :
  node ∈ unique nodes →
  l (fresh nodes c fn tmpdir date rnd) !! node_id node = Some [].
Proof.
  intros Hin. simpl. apply elem_of_list_to_map_1'.
  - intros y Hy. apply list_elem_of_fmap in Hy as (n & [= _ ->] & _). done.
  - apply list_elem_of_fmap. eauto.
Qed.

Lemma fresh_shape nodes c fn tmpdir date rnd :
  ledger_shape (fresh nodes c fn tmpdir date rnd).
Proof.
  split; simpl.
  - apply unique_NoDup.
  - intros node Hin. exists []. split; [|done].
    by apply (fresh_series nodes c fn tmpdir date rnd).
  - done.
  - intros i _ Hi. lia.
Qed.

Lemma fresh_autosave_filename nodes c fn tmpdir date rnd :
  autosave_filename (fresh nodes c fn tmpdir date rnd) ≠ "".
Proof.
  simpl. destruct fn as [f|]; simpl; [|apply tmpfile_name_nonempty].
  destruct (String.eqb f "") eqn:E; simpl; [apply tmpfile_name_nonempty|].
  by apply String.eqb_neq.
Qed.

Lemma reachable_shape st :
  reachable st → ledger_shape st.1 ∧ autosave_filename st.1 ≠ "".
Proof.
  induction 1 as [nodes c fn tmpdir date rnd vb env H|st nodes k r st' _ IH H].
  - rewrite init_eq in H. injection H as <-.
    split; [apply fresh_shape|apply fresh_autosave_filename].
  - destruct st as [vb env], st' as [vb' env'], IH as [Hsh Hne].
    apply update_spec in H as (Hsh' & (_ & _ & Hf & _) & _); [|done].
    simpl in *. split; [done|]. by rewrite Hf.
Qed.

End Constructor.

(** ** Floating-point comparisons *)

Section FloatFacts.

(** Rounding does not look at the sign. *)
Lemma binary_round_aux_sign prec emax s mx ex lx :
  binary_round_aux prec emax s mx ex lx
  = sf_with_sign s (binary_round_aux prec emax false mx ex lx).
Proof.
  unfold binary_round_aux.
  destruct (shr_fexp prec emax mx ex lx) as [mrs' e'].
  destruct (shr_fexp prec emax _ e' loc_Exact) as [mrs'' e''].
  destruct (shr_m mrs''); simpl; try reflexivity.
  destruct (Z.leb _ _); reflexivity.
Qed.

Lemma binary_round_sign prec emax s mx ex :
  binary_round prec emax s mx ex
  = sf_with_sign s (binary_round prec emax false mx ex).
Proof.
  unfold binary_round. destruct (shl_align _ _ _) as [mz ez].
  apply binary_round_aux_sign.
Qed.

Lemma binary_normalize_opp prec emax m e :
  sf_positive (binary_normalize prec emax m e false) = true →
  sf_negative (binary_normalize prec emax (- m) e false) = true.
Proof.
  destruct m as [|p|p]; simpl.
  - discriminate.
  - rewrite (binary_round_sign prec emax true).
    destruct (binary_round prec emax false p e) as [[]|[]| |[] ? ?];
      simpl; congruence.
  - rewrite (binary_round_sign prec emax true).
    destruct (binary_round prec emax false p e) as [[]|[]| |[] ? ?];
      simpl; congruence.
Qed.

(** If [x - y] is positive then [y - x] is negative. *)
Lemma SFsub_positive_negative prec emax x y :
  sf_positive (SFsub prec emax x y) = true →
  sf_negative (SFsub prec emax y x) = true.
Proof.
  destruct x as [sx|sx| |sx mx ex], y as [sy|sy| |sy my ey]; simpl;
    try congruence;
    try (destruct sx; simpl; congruence);
    try (destruct sy; simpl; congruence);
    try (destruct sx, sy; simpl; congruence).
  intros H. rewrite (Z.min_comm ey ex).
  set (a := cond_Zopp sx _) in *. set (b := cond_Zopp sy _) in *.
  replace (b - a)%Z with (- (a - b))%Z by lia.
  by apply binary_normalize_opp.
Qed.

Lemma SFltb_positive m e x :
  SFltb (S754_finite false m e) x = true → sf_positive x = true.
Proof. destruct x as [[]|[]| |[] ? ?]; unfold SFltb; simpl; congruence. Qed.

Lemma SFltb_negative m e x :
  sf_negative x = true → SFltb x (S754_finite false m e) = true.
Proof. destruct x as [[]|[]| |[] ? ?]; unfold SFltb; simpl; congruence. Qed.

Lemma warn_tol_positive : ∃ m e, Prim2SF warn_tol = S754_finite false m e.
Proof. do 2 eexists. vm_compute. reflexivity. Qed.

Lemma conv_tol_positive : ∃ m e, Prim2SF conv_tol = S754_finite false m e.
Proof. do 2 eexists. vm_compute. reflexivity. Qed.

(** A bound that fell by more than [warn_tol] rose by less than
    [conv_tol]. *)
Lemma decrease_below_conv_tol (prev Lv : float) :
  (warn_tol <? prev - Lv)%float = true → (Lv - prev <? conv_tol)%float = true.
Proof.
  rewrite !FloatAxioms.ltb_spec, !FloatAxioms.sub_spec. unfold SF64sub.
  destruct warn_tol_positive as (m1 & e1 & ->).
  destruct conv_tol_positive as (m2 & e2 & ->).
  intros H. apply SFltb_negative, SFsub_positive_negative.
  by apply SFltb_positive in H.
Qed.

End FloatFacts.

(** ** A round from the bound on *)

Section RoundOutcome.

Context {S : Type}.
Implicit Types (st : VB S * Env S) (vb : VB S) (env : Env S).
Implicit Types (node : Node S) (nodes : list (Node S)).

Lemma update_round_completes nodes vb env Lv vb1 env1 st2 :
  compute_bound nodes (vb, env) = (Ok Lv, (vb1, env1)) →
  iter vb < length (L vb) →
  autosave (vb1, add_out (round_events vb Lv) env1) = (Ok tt, st2) →
  update_round nodes (vb, env) =
    (Ok tt, (set_iter (iter vb + 1) (set_L (<[iter vb := Lv]> (L vb)) vb1),
             st2.2)).
Proof.
  intros Hc Hlt Ha.
  rewrite (update_round_after_bound _ _ _ _ _ _ Hc) by lia.
  rewrite (bind_ok _ _ _ _ _ Ha). destruct st2 as [vb2 env2].
  pose proof (autosave_self_kept _ _ _ Ha) as Hs.
  unfold self_kept in Hs. simpl in Hs. subst vb2.
  apply compute_bound_frame in Hc as (_ & Hi & HL & _).
  rewrite commit_eq, Hi, HL.
  apply Nat.ltb_lt in Hlt. by rewrite Hlt.
Qed.

Lemma update_round_out nodes vb env Lv vb1 env1 r st' :
  compute_bound nodes (vb, env) = (Ok Lv, (vb1, env1)) →
  iter vb ≤ length (L vb) →
  update_round nodes (vb, env) = (r, st') →
  (out env ++ round_events vb Lv) `prefix_of` out st'.2.
Proof.
  intros Hc Hle. rewrite (update_round_after_bound _ _ _ _ _ _ Hc) by done.
  apply compute_bound_frame in Hc as (_ & _ & _ & _ & Ho).
  intros H. apply bind_inv in H as [([] & [vb2 env2] & H1 & H2)|(e & H1 & _)].
  - apply autosave_out_grows in H1. unfold out_grows in H1. simpl in H1.
    destruct st' as [vb' env']. apply commit_frame in H2 as (_ & -> & _).
    simpl. by rewrite <- Ho.
  - apply autosave_out_grows in H1. unfold out_grows in H1. simpl in H1.
    by rewrite <- Ho.
Qed.

Lemma round_events_later vb Lv prev :
  0 < iter vb → L vb !! (iter vb - 1) = Some prev →
  round_events vb Lv
  = PrintIteration (iter vb + 1) Lv :: warn_events prev Lv ++ conv_events prev Lv.
Proof.
  intros H0 Hp. unfold round_events, progress_events.
  apply Nat.ltb_lt in H0. by rewrite H0, Hp.
Qed.

End RoundOutcome.

(** ** Which file [save] and [load] use *)

Section Paths.

Context {S : Type}.
Implicit Types (st : VB S * Env S) (vb : VB S) (env : Env S).
Implicit Types (node : Node S) (nodes : list (Node S)).

Lemma resolve_filename_default (f : string) vb env :
  filename vb = Some f → f ≠ "" →
  resolve_filename None (vb, env) = (Ok f, (vb, env)).
Proof.
  intros Hf Hne. unfold resolve_filename, bind, get_self. simpl.
  rewrite Hf. simpl. by rewrite (eqb_empty_false _ Hne).
Qed.

Lemma resolve_filename_missing vb env :
  filename vb = None →
  resolve_filename None (vb, env)
  = (Raise (PyException "Filename must be given."), (vb, env)).
Proof.
  intros Hf. unfold resolve_filename, bind, get_self. simpl. by rewrite Hf.
Qed.

Lemma h5_write_keeps_file p op :
  preserves (keeps (file_exists p)) (h5_write (S:=S) p op).
Proof.
  intros [vb env] r st'. unfold h5_write, keeps. simpl.
  destruct (files env !! p) as [f|] eqn:Ef; [|by intros [= <- <-]].
  destruct (op f) as [f'|e]; intros [= <- <-]; [|done].
  intros _. unfold file_exists. simpl. rewrite lookup_insert_eq. eauto.
Qed.

Lemma call_keeps_file {A} p (cb : S → Res A * S) :
  preserves (keeps (file_exists p)) (call cb).
Proof.
  intros [vb env] r st'. unfold call, keeps. simpl.
  destruct (cb (node_state env)); intros [= <- <-]. done.
Qed.

Lemma save_to_file_exists p vb env r st' :
  save_to p (vb, env) = (r, st') → file_exists p st'.
Proof.
  unfold save_to. intros H.
  apply bind_inv in H as [(lib & st0 & H0 & H)|(e & [=] & _)].
  injection H0 as <- <-.
  apply bind_inv in H as [([] & st1 & H1 & H)|(e & [=] & _)].
  injection H1 as <-. revert H.
  match goal with |- ?m _ = _ → _ =>
    assert (Hp : preserves (keeps (file_exists p)) m) end.
  { pres_apply preserves_bind; [pres|]. intros vb1.
    pres_apply preserves_bind.
    { pres_apply preserves_for_each. intros node _.
      destruct (String.eqb (name node) ""); [pres|].
      destruct (node_save node); [|pres].
      pres_apply preserves_bind; [apply h5_write_keeps_file|]. intros _.
      pres_apply preserves_bind; [apply call_keeps_file|]. intros g.
      apply h5_write_keeps_file. }
    intros _. pres_apply preserves_bind; [pres|]. intros vb2.
    pres_apply preserves_bind; [apply h5_write_keeps_file|]. intros _.
    pres_apply preserves_bind; [apply h5_write_keeps_file|]. intros _.
    pres_apply preserves_bind; [apply h5_write_keeps_file|]. intros _.
    pres_apply preserves_for_each. intros node _.
    pres_apply preserves_bind; [pres|]. intros s.
    apply h5_write_keeps_file. }
  intros H. apply (Hp _ _ _ H). unfold file_exists. simpl.
  rewrite lookup_insert_eq. eauto.
Qed.

Lemma getitem_files_kept (r : NodeRef S) : preserves files_kept (__getitem__ r).
Proof. unfold __getitem__. pres. Qed.

Lemma getitems_files_kept (refs : list (NodeRef S)) :
  preserves files_kept (getitems refs).
Proof.
  induction refs as [|r refs IH]; simpl; [pres|].
  pres_apply preserves_bind; [apply getitem_files_kept|]. intros n.
  pres_apply preserves_bind; [apply IH|]. intros ns. pres.
Qed.

Lemma load_from_files_kept (refs : list (NodeRef S)) p :
  preserves files_kept (load_from refs p).
Proof.
  unfold load_from. pres_apply preserves_bind; [pres|]. intros h5f.
  pres_apply preserves_bind; [pres|]. intros vb.
  pres_apply preserves_bind.
  { destruct (length refs =? 0)%nat; [pres|apply getitems_files_kept]. }
  intros nodes. pres.
Qed.

Lemma file_blind_ret {A} (a : A) : file_blind (ret (S:=S) a).
Proof. by intros st1 st2 H. Qed.

Lemma file_blind_raise {A} e : file_blind (raise e : M S A).
Proof. by intros st1 st2 H. Qed.

Lemma file_blind_get_self : file_blind (get_self (S:=S)).
Proof. intros st1 st2 H. split; [|done]. simpl. by destruct H as [-> _]. Qed.

Lemma file_blind_set_self f : file_blind (set_self (S:=S) f).
Proof.
  intros [vb1 env1] [vb2 env2] (H1 & H2 & H3). simpl in *. subst.
  by split.
Qed.

Lemma file_blind_call {A} (cb : S → Res A * S) : file_blind (call cb).
Proof.
  intros [vb1 env1] [vb2 env2] (H1 & H2 & H3). simpl in *. subst.
  unfold call. simpl. rewrite H2. by destruct (cb (node_state env2)).
Qed.

Lemma file_blind_h5_get {A} (o : option A) : file_blind (h5_get (S:=S) o).
Proof. destruct o; [apply file_blind_ret|apply file_blind_raise]. Qed.

Lemma file_blind_bind {A B} (m : M S A) (k : A → M S B) :
  file_blind m → (∀ a, file_blind (k a)) → file_blind (bind m k).
Proof.
  intros Hm Hk st1 st2 H. unfold bind.
  destruct (Hm st1 st2 H) as [Hr Hst].
  destruct (m st1) as [[a1|e1] st1'], (m st2) as [[a2|e2] st2'];
    simpl in *; simplify_eq; [by apply Hk|done].
Qed.

Lemma file_blind_for_each {A} (xs : list A) (body : A → M S unit) :
  (∀ x, file_blind (body x)) → file_blind (for_each xs body).
Proof.
  intros Hb. induction xs as [|x xs IH]; simpl; [apply file_blind_ret|].
  apply file_blind_bind; [apply Hb|done].
Qed.

Lemma file_blind_except_KeyError {A} (m h : M S A) :
  file_blind m → file_blind h → file_blind (except_KeyError m h).
Proof.
  intros Hm Hh st1 st2 H. unfold except_KeyError.
  destruct (Hm st1 st2 H) as [Hr Hst].
  destruct (m st1) as [[a1|e1] st1'], (m st2) as [[a2|e2] st2'];
    simpl in *; simplify_eq; [done|].
  destruct e2; try done. by apply Hh.
Qed.

Lemma file_blind_getitem (r : NodeRef S) : file_blind (__getitem__ r).
Proof.
  unfold __getitem__. apply file_blind_bind; [apply file_blind_get_self|].
  intros vb. destruct r as [n|nm].
  - destruct (decide _); [apply file_blind_ret|apply file_blind_raise].
  - cbv zeta. destruct (_ !! nm); [apply file_blind_ret|apply file_blind_raise].
Qed.

Lemma file_blind_getitems (refs : list (NodeRef S)) :
  file_blind (getitems refs).
Proof.
  induction refs as [|r refs IH]; simpl; [apply file_blind_ret|].
  apply file_blind_bind; [apply file_blind_getitem|]. intros n.
  apply file_blind_bind; [apply IH|]. intros ns. apply file_blind_ret.
Qed.

(** [load] looks at the files through the file it opens alone. *)
Lemma load_from_reads_one_file (refs : list (NodeRef S)) p st1 st2 :
  agree st1 st2 →
  files st1.2 !! p = files st2.2 !! p →
  (load_from refs p st1).1 = (load_from refs p st2).1 ∧
  agree (load_from refs p st1).2 (load_from refs p st2).2.
Proof.
  intros Hag Hp. unfold load_from.
  match goal with |- context [bind (h5_open_r p) ?k] => set (K := k) end.
  unfold bind, h5_open_r. rewrite Hp.
  destruct (files st2.2 !! p) as [h5f|]; [|by split].
  revert st1 st2 Hag Hp. assert (Hb : file_blind (K h5f)).
  { apply file_blind_bind; [apply file_blind_get_self|]. intros vb.
    apply file_blind_bind.
    { destruct (length refs =? 0)%nat;
        [apply file_blind_ret|apply file_blind_getitems]. }
    intros nodes. apply file_blind_bind.
    { apply file_blind_for_each. intros node.
      destruct (String.eqb (name node) ""); [apply file_blind_raise|].
      destruct (node_load node); [|apply file_blind_ret].
      apply file_blind_except_KeyError; [|apply file_blind_raise].
      apply file_blind_bind; [apply file_blind_h5_get|]. intros g.
      apply file_blind_call. }
    intros _. apply file_blind_bind; [apply file_blind_h5_get|]. intros a.
    apply file_blind_bind; [apply file_blind_set_self|]. intros _.
    apply file_blind_bind; [apply file_blind_h5_get|]. intros i.
    apply file_blind_bind; [apply file_blind_set_self|]. intros _.
    apply file_blind_bind; [apply file_blind_get_self|]. intros vb2.
    apply file_blind_for_each. intros node.
    apply file_blind_bind; [apply file_blind_h5_get|]. intros b.
    apply file_blind_bind; [apply file_blind_h5_get|]. intros s.
    apply file_blind_bind; [apply file_blind_get_self|]. intros vb3.
    apply file_blind_set_self. }
  intros st1 st2 Hag _. by apply Hb.
Qed.

Lemma load_from_missing (refs : list (NodeRef S)) p vb env :
  files env !! p = None →
  load_from refs p (vb, env) = (Raise OSError, (vb, env)).
Proof.
  intros H. unfold load_from, bind, h5_open_r. simpl. by rewrite H.
Qed.

End Paths.

(** ** The bound of a round is the sum of its contributions *)

Section SumConsistency.

Context {S : Type}.
Implicit Types (st : VB S * Env S) (vb : VB S) (env : Env S).
Implicit Types (node : Node S) (nodes : list (Node S)).

Lemma update_round_ok_inv nodes vb env vb' env' :
  update_round nodes (vb, env) = (Ok tt, (vb', env')) →
  ∃ Lv vb1 env1,
    compute_bound nodes (vb, env) = (Ok Lv, (vb1, env1)) ∧
    autosave (vb1, add_out (round_events vb Lv) env1) = (Ok tt, (vb1, env')) ∧
    vb' = set_iter (iter vb + 1) (set_L (<[iter vb := Lv]> (L vb)) vb1) ∧
    iter vb < length (L vb).
Proof.
  intros H. pose proof (update_round_frame _ _ _ _ _ _ H) as (_ & _ & _ & Hlt).
  destruct (compute_bound nodes (vb, env)) as [[Lv|e] [vb1 env1]] eqn:Ec.
  2:{ by rewrite (update_round_raise_bound _ _ _ _ Ec) in H. }
  rewrite (update_round_after_bound _ _ _ _ _ _ Ec) in H by lia.
  apply bind_ok_inv in H as ([] & [vb2 env2] & Ha & Hcm).
  pose proof (autosave_self_kept _ _ _ Ha) as Hs.
  unfold self_kept in Hs. simpl in Hs. subst vb2.
  apply compute_bound_frame in Ec as (_ & Hi & HL & _).
  rewrite commit_eq, Hi, HL in Hcm.
  destruct (iter vb <? length (L vb))%nat; [|done].
  injection Hcm as <- <-. eauto 10.
Qed.

Lemma entry_frame i0 vb vb' node i v :
  ledger_frame i0 vb vb' → i ≠ i0 →
  entry vb node i = Some v → entry vb' node i = Some v.
Proof.
  intros (_ & _ & Hl) Hne. unfold entry. specialize (Hl (node_id node)).
  destruct Hl as [s s' [_ Hs]|]; simpl; [|done]. by rewrite Hs.
Qed.

Lemma sum_consistent_round nodes vb env r vb' env' :
  NoDup (node_id <$> model vb) →
  sum_consistent vb →
  update_round nodes (vb, env) = (r, (vb', env')) →
  sum_consistent vb'.
Proof.
  intros Hnd Hsum H.
  pose proof (update_round_frame _ _ _ _ _ _ H) as (Hfr & _ & Hr).
  assert (Hold : ∀ i, i < iter vb →
    ∃ vs, Forall2 (λ node v, entry vb' node i = Some v) (model vb') vs ∧
          L vb' !! i = Some (py_sum vs)).
  { intros i Hi. destruct (Hsum i Hi) as (vs & Hall & HLi).
    pose proof Hfr as ((Hm & _) & [_ HL] & _). exists vs. rewrite Hm. split.
    - eapply Forall2_impl; [exact Hall|]. intros node v Hv.
      eapply entry_frame; [exact Hfr|by apply Nat.lt_neq|exact Hv].
    - rewrite HL by lia. done. }
  destruct r as [[]|e].
  - destruct Hr as [Hi Hlt].
    apply update_round_ok_inv in H as (Lv & vb1 & env1 & Hc & _ & -> & _).
    intros i Hilt. simpl in Hilt.
    destruct (decide (i = iter vb)) as [->|Hne]; [|apply Hold; lia].
    pose proof (compute_bound_frame _ _ _ _ _ _ Hc) as (((Hm & _) & _) & _).
    apply compute_bound_ok in Hc as (vs & s1 & _ & Hall & ->); [|done].
    exists vs. simpl. rewrite Hm. split; [done|].
    by apply list_lookup_insert_eq.
  - destruct Hr as [Hi _]. intros i Hilt. apply Hold. lia.
Qed.

Lemma sum_consistent_reserve k vb :
  sum_consistent vb → sum_consistent (reserve k vb).
Proof.
  intros Hsum i Hi. simpl in Hi. destruct (Hsum i Hi) as (vs & Hall & HLi).
  exists vs. simpl. split.
  - eapply Forall2_impl; [exact Hall|]. intros node v. unfold entry. simpl.
    rewrite lookup_fmap. destruct (l vb !! node_id node) as [s|]; simpl; [|done].
    intros Hv. by apply lookup_app_l_Some.
  - by apply lookup_app_l_Some.
Qed.

Lemma sum_consistent_rounds nodes n vb env r vb' env' :
  ledger_shape vb → sum_consistent vb →
  rounds nodes n (vb, env) = (r, (vb', env')) →
  sum_consistent vb'.
Proof.
  revert vb env. induction n as [|n IH]; intros vb env Hsh Hsum.
  { by intros [= <- <- <-]. }
  rewrite rounds_S. intros H.
  apply bind_inv in H as [([] & [vb1 env1] & H1 & H2)|(e & H1 & ->)].
  - eapply IH; [| |exact H2].
    + by eapply shape_round.
    + eapply sum_consistent_round; [apply Hsh|done|exact H1].
  - eapply sum_consistent_round; [apply Hsh|done|exact H1].
Qed.

Lemma reachable_sum_consistent st : reachable st → sum_consistent st.1.
Proof.
  induction 1 as [nodes c fn tmpdir date rnd vb env H|st nodes k r st' Hre IH H].
  - rewrite init_eq in H. injection H as <-. intros i Hi. simpl in Hi. lia.
  - destruct st as [vb env], st' as [vb' env'].
    apply reachable_shape in Hre as [Hsh _]. simpl in *.
    rewrite update_eq in H.
    eapply sum_consistent_rounds; [| |exact H].
    + by apply shape_reserve.
    + by apply sum_consistent_reserve.
Qed.

End SumConsistency.

(** ** What a completed round leaves behind *)

Section RoundEffects.

Context {S : Type}.
Implicit Types (st : VB S * Env S) (vb : VB S) (env : Env S).
Implicit Types (node : Node S) (nodes : list (Node S)).

Lemma autosave_due_static vb vb1 :
  static_eq vb vb1 → iter vb1 = iter vb → autosave_due vb1 = autosave_due vb.
Proof. intros (_ & Hc & _) Hi. unfold autosave_due. by rewrite Hc, Hi. Qed.

Lemma autosave_due_iff vb :
  autosave_due vb = true ↔
  (0 < autosave_iterations vb)%Z ∧
  (Z.of_nat (iter vb + 1) mod autosave_iterations vb = 0)%Z.
Proof.
  unfold autosave_due. rewrite andb_true_iff, Z.ltb_lt, Z.eqb_eq. done.
Qed.

Lemma update_round_ok_effects nodes vb env vb' env' :
  update_round nodes (vb, env) = (Ok tt, (vb', env')) →
  ∃ Lv,
    L vb' = <[iter vb := Lv]> (L vb) ∧
    iter vb' = iter vb + 1 ∧
    iter vb < length (L vb) ∧
    out env' = out env ++ round_events vb Lv ++
      (if autosave_due vb then [PrintAutoSaved (autosave_filename vb)] else []) ∧
    (autosave_due vb = false → files env' = files env) ∧
    (autosave_due vb = true → autosave_filename vb ≠ "" →
       holds_ledger (autosave_filename vb) (L vb) (iter vb) (vb', env') ∧
       ∀ q, q ≠ autosave_filename vb → files env' !! q = files env !! q).
Proof.
  intros H. apply update_round_ok_inv in H as (Lv & vb1 & env1 & Hc & Ha & -> & Hlt).
  apply compute_bound_frame in Hc as ((Hst & _) & Hi & HL & Hf & Ho).
  exists Lv. simpl. split_and!; try done.
  - destruct (autosave_due vb) eqn:Ed.
    + rewrite autosave_when_due in Ha
        by (by rewrite (autosave_due_static vb vb1)).
      destruct (save _ _) as [[[]|e] [vb2 env2]] eqn:Es; [|done].
      injection Ha as <- <-.
      apply save_out_kept in Es. unfold out_kept in Es. simpl in Es.
      destruct Hst as (_ & _ & -> & _). simpl. rewrite Es. simpl.
      by rewrite Ho, <- app_assoc.
    + rewrite autosave_not_due in Ha
        by (by rewrite (autosave_due_static vb vb1)).
      injection Ha as <-. simpl. by rewrite Ho, app_nil_r.
  - intros Ed. rewrite autosave_not_due in Ha
      by (by rewrite (autosave_due_static vb vb1)).
    by injection Ha as <-.
  - intros Ed Hne. rewrite autosave_when_due in Ha
      by (by rewrite (autosave_due_static vb vb1)).
    destruct (save _ _) as [[[]|e] [vb2 env2]] eqn:Es; [|done].
    injection Ha as <- <-.
    destruct Hst as (_ & _ & Haf & _). rewrite Haf in Es.
    rewrite save_explicit in Es by done.
    pose proof (save_to_files_kept_except _ _ _ _ Es) as Hk.
    unfold files_kept_except in Hk.
    apply save_to_content in Es as [_ (ck & Hck & HckL & Hcki)].
    simpl in *. split.
    + exists ck. simpl. split; [done|]. split; congruence.
    + intros q Hq. rewrite (Hk q Hq). simpl. by rewrite Hf.
Qed.

End RoundEffects.

(** ** Rounds that cannot fail *)

Section Totality.

Context {S : Type}.
Implicit Types (st : VB S * Env S) (vb : VB S) (env : Env S).
Implicit Types (node : Node S) (nodes : list (Node S)).

Lemma autosave_due_round vb :
  autosave_due vb = due_round (autosave_iterations vb) (iter vb + 1).
Proof. reflexivity. Qed.

Lemma lowerbound_loop_lib_kept nodes Lv :
  preserves lib_kept (lowerbound_loop nodes Lv).
Proof.
  revert Lv. induction nodes as [|node nodes IH]; intros Lv; simpl; [pres|].
  pres_apply preserves_bind; [pres|]. intros lp. cbv zeta.
  pres_apply preserves_bind; [pres|]. intros s.
  pres_apply preserves_bind; [pres|]. intros vb.
  pres_apply preserves_bind; [pres|]. intros s'.
  pres_apply preserves_bind; [pres|]. intros _. apply IH.
Qed.

Lemma compute_bound_lib_kept nodes : preserves lib_kept (compute_bound nodes).
Proof.
  unfold compute_bound, update_nodes, loglikelihood_lowerbound.
  pres_apply preserves_bind; [pres|]. intros _.
  pres_apply preserves_bind; [pres|]. intros vb.
  apply lowerbound_loop_lib_kept.
Qed.

Lemma save_lib_kept o : preserves lib_kept (@save S o).
Proof. unfold save, resolve_filename, save_to. pres. Qed.

Lemma update_round_lib_kept nodes : preserves lib_kept (update_round nodes).
Proof.
  unfold update_round.
  pres_apply preserves_bind; [apply compute_bound_lib_kept|]. intros Lv.
  pres_apply preserves_bind; [pres|]. intros vb.
  pres_apply preserves_bind; [pres|]. intros _.
  pres_apply preserves_bind; [unfold check_progress; pres|]. intros _.
  pres_apply preserves_bind; [|intros _; unfold commit; pres].
  unfold autosave. pres_apply preserves_bind; [pres|]. intros vb1.
  destruct (autosave_due vb1); [|pres].
  pres_apply preserves_bind; [apply save_lib_kept|pres].
Qed.

Lemma rounds_lib_kept nodes n : preserves lib_kept (rounds nodes n).
Proof.
  unfold rounds. pres_apply preserves_for_each. intros _ _.
  apply update_round_lib_kept.
Qed.

Lemma update_lib_kept nodes k vb env r vb' env' :
  update nodes k (vb, env) = (r, (vb', env')) → h5py env' = h5py env.
Proof.
  rewrite update_eq. intros H. apply (rounds_lib_kept _ _ _ _ _ H).
Qed.

Lemma autosave_total vb env :
  (∀ node, node ∈ model vb → node_total node) →
  (∀ node, node ∈ model vb → is_Some (l vb !! node_id node)) →
  autosave_filename vb ≠ "" →
  autosave_safe (h5py env) vb →
  ∃ env', autosave (vb, env) = (Ok tt, (vb, env')).
Proof.
  intros Ht Hl Hne Hsafe. destruct (autosave_due vb) eqn:Ed.
  - rewrite autosave_when_due by done. rewrite save_explicit by done.
    destruct Hsafe as [Hc|(Hnames & Hplain & Hlib)].
    { apply autosave_due_iff in Ed as [Hpos _]. lia. }
    destruct (save_to_total (autosave_filename vb) vb env Hnames Hplain Hlib
                Ht Hl) as [env1 ->]. eauto.
  - rewrite autosave_not_due by done. eauto.
Qed.

Lemma update_round_total nodes vb env :
  ledger_shape vb →
  iter vb < length (L vb) →
  (∀ node, node ∈ nodes → node_total node) →
  (∀ node, node ∈ model vb → node_total node) →
  autosave_filename vb ≠ "" →
  autosave_safe (h5py env) vb →
  ∃ vb' env', update_round nodes (vb, env) = (Ok tt, (vb', env')).
Proof.
  intros [Hids Hser Hit Hres] Hlt Hn Hm Hne Hsafe.
  destruct (compute_bound_total nodes vb env Hn Hm Hids)
    as (Lv & vb1 & env1 & Hc).
  { intros node Hin. destruct (Hser node Hin) as (s & Hs & Hlen).
    exists s. split; [done|lia]. }
  pose proof (compute_bound_frame _ _ _ _ _ _ Hc)
    as (((Hmod & Hcad & Haf & _) & _ & Hl) & _).
  pose proof (compute_bound_lib_kept _ _ _ _ Hc) as Hlib.
  unfold lib_kept in Hlib. simpl in Hlib.
  destruct (autosave_total vb1 (add_out (round_events vb Lv) env1))
    as [env2 Ha].
  - by rewrite Hmod.
  - rewrite Hmod. intros node Hin. destruct (Hser node Hin) as (s & Hs & _).
    specialize (Hl (node_id node)). rewrite Hs in Hl.
    inversion Hl. eauto.
  - by rewrite Haf.
  - unfold autosave_safe. simpl. by rewrite Hcad, Hmod, Hlib.
  - rewrite (update_round_completes _ _ _ _ _ _ _ Hc Hlt Ha). eauto.
Qed.

Lemma rounds_total nodes n vb env :
  ledger_shape vb →
  iter vb + n ≤ length (L vb) →
  (∀ node, node ∈ nodes → node_total node) →
  (∀ node, node ∈ model vb → node_total node) →
  autosave_filename vb ≠ "" →
  autosave_safe (h5py env) vb →
  ∃ vb' env', rounds nodes n (vb, env) = (Ok tt, (vb', env')).
Proof.
  revert vb env. induction n as [|n IH]; intros vb env Hsh Hlen Hn Hm Hne Hsafe.
  { rewrite rounds_0. eauto. }
  destruct (update_round_total nodes vb env) as (vb1 & env1 & H1);
    [done|lia|done..|].
  rewrite rounds_S, (bind_ok _ _ _ _ _ H1).
  pose proof (shape_round _ _ _ _ _ _ Hsh H1) as Hsh1.
  pose proof (update_round_lib_kept _ _ _ _ H1) as Hlib.
  unfold lib_kept in Hlib. simpl in Hlib.
  apply update_round_frame in H1
    as (((Hmod & Hcad & Haf & _) & [HLlen _] & _) & _ & Hi & _).
  apply IH; try done.
  - lia.
  - by rewrite Hmod.
  - by rewrite Haf.
  - unfold autosave_safe. by rewrite Hcad, Hmod, Hlib.
Qed.

Lemma update_total nodes k vb env :
  ledger_shape vb →
  (∀ node, node ∈ nodes → node_total node) →
  (∀ node, node ∈ model vb → node_total node) →
  autosave_filename vb ≠ "" →
  autosave_safe (h5py env) vb →
  ∃ vb' env', update nodes k (vb, env) = (Ok tt, (vb', env')).
Proof.
  intros Hsh Hn Hm Hne Hsafe. rewrite update_eq.
  apply rounds_total; try done.
  - by apply shape_reserve.
  - simpl. rewrite length_app. unfold nans. rewrite length_replicate.
    destruct Hsh as [_ _ Hle _]. lia.
  - unfold targets. destruct (length nodes =? 0)%nat; done.
Qed.

End Totality.

(** ** The rounds that autosave *)

Section Cadence.

Context {S : Type}.
Implicit Types (st : VB S * Env S) (vb : VB S) (env : Env S).
Implicit Types (node : Node S) (nodes : list (Node S)).

Lemma autosave_rounds_from_app cur evs1 evs2 :
  autosave_rounds_from cur (evs1 ++ evs2)
  = autosave_rounds_from cur evs1
    ++ autosave_rounds_from (last_iteration cur evs1) evs2.
Proof.
  revert cur. induction evs1 as [|e evs1 IH]; intros cur; [done|].
  destruct e; simpl; by rewrite ?IH.
Qed.

Lemma last_iteration_app cur evs1 evs2 :
  last_iteration cur (evs1 ++ evs2)
  = last_iteration (last_iteration cur evs1) evs2.
Proof.
  revert cur. induction evs1 as [|e evs1 IH]; intros cur; [done|].
  destruct e; simpl; by rewrite ?IH.
Qed.

Lemma progress_events_quiet vb Lv cur :
  autosave_rounds_from cur (progress_events vb Lv) = [] ∧
  last_iteration cur (progress_events vb Lv) = cur ∧
  Forall (λ e, is_autosaved e = false) (progress_events vb Lv).
Proof.
  unfold progress_events, warn_events, conv_events.
  repeat case_match; simpl; split_and!; try done; repeat constructor.
Qed.

Lemma round_events_quiet vb Lv cur :
  autosave_rounds_from cur (round_events vb Lv) = [] ∧
  last_iteration cur (round_events vb Lv) = iter vb + 1 ∧
  Forall (λ e, is_autosaved e = false) (round_events vb Lv).
Proof.
  unfold round_events. simpl.
  destruct (progress_events_quiet vb Lv (iter vb + 1)) as (? & ? & ?).
  split_and!; try done. by constructor.
Qed.

(** The events of a completed round, read for autosaves. *)
Lemma round_events_autosave vb Lv cur :
  let evs := round_events vb Lv ++
    (if autosave_due vb then [PrintAutoSaved (autosave_filename vb)] else []) in
  autosave_rounds_from cur evs
  = (if autosave_due vb then [iter vb + 1] else []) ∧
  last_iteration cur evs = iter vb + 1.
Proof.
  cbv zeta. rewrite autosave_rounds_from_app, last_iteration_app.
  destruct (round_events_quiet vb Lv cur) as (-> & -> & _).
  by destruct (autosave_due vb).
Qed.

Lemma rounds_ok_events nodes n vb env vb' env' :
  rounds nodes n (vb, env) = (Ok tt, (vb', env')) →
  ∃ evs, out env' = out env ++ evs ∧
    ∀ cur, autosave_rounds_from cur evs
           = filter (λ m, due_round (autosave_iterations vb) m = true)
               (seq (iter vb + 1) n).
Proof.
  revert vb env. induction n as [|n IH]; intros vb env.
  { intros [= <- <-]. exists []. by rewrite app_nil_r. }
  rewrite rounds_S. intros H.
  apply bind_ok_inv in H as ([] & [vb1 env1] & H1 & H2).
  pose proof (update_round_frame _ _ _ _ _ _ H1) as (((_ & Hcad & _) & _) & _).
  apply update_round_ok_effects in H1 as (Lv & _ & Hi & _ & Ho & _).
  apply IH in H2 as (evs & Ho2 & Hevs).
  eexists. split; [by rewrite Ho2, Ho, <- !app_assoc|].
  intros cur. rewrite app_assoc, autosave_rounds_from_app.
  destruct (round_events_autosave vb Lv cur) as [-> ->].
  rewrite Hevs, Hcad, Hi. simpl. rewrite filter_cons.
  rewrite <- autosave_due_round.
  replace (Datatypes.S (iter vb + 1)) with (iter vb + 1 + 1) by lia.
  by destruct (autosave_due vb).
Qed.

Lemma filter_seq_none (P : nat → Prop) `{∀ m, Decision (P m)} a n :
  (∀ m, a ≤ m → m < a + n → ¬ P m) → filter P (seq a n) = [].
Proof.
  revert a. induction n as [|n IH]; intros a Hnone; [done|]. simpl.
  rewrite filter_cons_False by (apply Hnone; lia).
  apply IH. intros m ? ?. apply Hnone; lia.
Qed.

Lemma due_round_multiple (c m : nat) :
  0 < c → (due_round (Z.of_nat c) m = true ↔ ∃ q, m = q * c).
Proof.
  intros Hc. unfold due_round. rewrite andb_true_iff, Z.ltb_lt, Z.eqb_eq.
  split.
  - intros [_ Hmod]. apply Z.mod_divide in Hmod as [z Hz]; [|lia].
    assert (0 ≤ z)%Z.
    { destruct (Z.lt_ge_cases z 0) as [Hneg|]; [|done]. exfalso.
      assert (z * Z.of_nat c < 0)%Z by (apply Z.mul_neg_pos; lia). lia. }
    exists (Z.to_nat z). apply Nat2Z.inj.
    by rewrite Nat2Z.inj_mul, Z2Nat.id.
  - intros [q ->]. split; [lia|].
    rewrite Nat2Z.inj_mul. apply Z.mod_mul. lia.
Qed.

Lemma due_rounds_twice (c : nat) :
  0 < c →
  filter (λ m, due_round (Z.of_nat c) m = true) (seq 1 (2 * c)) = [c; 2 * c].
Proof.
  intros Hc.
  replace (2 * c) with ((c - 1) + (1 + ((c - 1) + 1))) at 1 by lia.
  rewrite !seq_app, !filter_app. simpl.
  rewrite (filter_seq_none _ 1 (c - 1)).
  2:{ intros m ? ? [q ->]%due_round_multiple; [|done].
      destruct q as [|[|q]]; simpl in *; lia. }
  rewrite (filter_seq_none _ _ (c - 1)).
  2:{ intros m ? ? [q ->]%due_round_multiple; [|done].
      destruct q as [|[|q]]; simpl in *; lia. }
  rewrite !filter_cons_True, !filter_nil.
  - simpl. f_equal; [lia|]. f_equal. lia.
  - apply due_round_multiple; [done|]. exists 2. lia.
  - apply due_round_multiple; [done|]. exists 1. lia.
Qed.

#[export] Instance no_autosave_po : PreOrder (@no_autosave S).
Proof.
  split.
  - intros st Hc. split_and!; try done. exists []. by rewrite app_nil_r.
  - intros st1 st2 st3 H12 H23 Hc.
    destruct (H12 Hc) as (Hc2 & Hf & evs & Ho & Hall).
    destruct (H23 Hc2) as (Hc3 & Hf' & evs' & Ho' & Hall').
    split_and!; [done|congruence|].
    exists (evs ++ evs'). split; [by rewrite Ho', Ho, app_assoc|].
    by apply Forall_app.
Qed.

Lemma update_round_no_autosave nodes : preserves no_autosave (update_round nodes).
Proof.
  intros [vb env] r [vb' env'] H Hc. simpl in Hc.
  pose proof (update_round_frame _ _ _ _ _ _ H) as (((_ & Hcad & _) & _) & _).
  simpl. split; [by rewrite Hcad|].
  revert H. rewrite update_round_eq.
  destruct (compute_bound nodes (vb, env)) as [[Lv|e] [vb1 env1]] eqn:Ec.
  2:{ intros [= <- <- <-].
      apply compute_bound_frame in Ec as (_ & _ & _ & -> & ->).
      split; [done|]. exists []. by rewrite app_nil_r. }
  apply compute_bound_frame in Ec as (((_ & Hcad1 & _) & _) & Hi & HL & Hf & Ho).
  assert (Hnd : ∀ env2, autosave (vb1, env2) = (Ok tt, (vb1, env2))).
  { intros env2. apply autosave_not_due. unfold autosave_due.
    replace (0 <? autosave_iterations vb1)%Z with false; [done|].
    symmetry. apply Z.ltb_ge. lia. }
  rewrite check_progress_eq.
  destruct (progress_events_quiet vb Lv 0) as (_ & _ & Hq).
  unfold progress_events in Hq. rewrite <- Hi, <- HL in Hq.
  destruct (0 <? iter vb1)%nat.
  - destruct (L vb1 !! (iter vb1 - 1)) as [prev|].
    + rewrite (bind_ok _ _ _ _ _ (Hnd _)), commit_eq.
      destruct (iter vb1 <? length (L vb1))%nat; intros [= <- <- <-]; simpl;
        (split; [done|]); rewrite Ho, <- app_assoc; eexists; (split; [done|]);
        by constructor.
    + intros [= <- <- <-]. simpl. split; [done|]. rewrite Ho.
      eexists. split; [done|]. by repeat constructor.
  - rewrite (bind_ok _ _ _ _ _ (Hnd _)), commit_eq.
    destruct (iter vb1 <? length (L vb1))%nat; intros [= <- <- <-]; simpl;
      (split; [done|]); rewrite Ho; eexists; (split; [done|]);
      by repeat constructor.
Qed.

Lemma update_no_autosave nodes k vb env r vb' env' :
  (autosave_iterations vb ≤ 0)%Z →
  update nodes k (vb, env) = (r, (vb', env')) →
  files env' = files env ∧
  ∃ evs, out env' = out env ++ evs ∧ Forall (λ e, is_autosaved e = false) evs.
Proof.
  intros Hc. rewrite update_eq. intros H.
  assert (Hp : preserves no_autosave (rounds (targets nodes vb) k)).
  { unfold rounds. pres_apply preserves_for_each. intros _ _.
    apply update_round_no_autosave. }
  destruct (Hp _ _ _ H) as (_ & Hf & Hevs); done.
Qed.

Lemma autosave_rounds_quiet evs cur :
  Forall (λ e, is_autosaved e = false) evs → autosave_rounds_from cur evs = [].
Proof.
  intros Hall. revert cur. induction Hall as [|e evs He _ IH]; intros cur; [done|].
  destruct e; simpl; done.
Qed.

End Cadence.

(** ** Alignment of the ledger *)

Section Alignment.

Context {S : Type}.
Implicit Types (st : VB S * Env S) (vb : VB S) (env : Env S).
Implicit Types (node : Node S) (nodes : list (Node S)).

Lemma front_reserve k n a : front k a → front k (a ++ nans n).
Proof.
  intros [Hw Hr]. split.
  - intros i Hi. destruct (Hw i Hi) as (v & Hv & Hnan). exists v.
    split; [by apply lookup_app_l_Some|done].
  - intros i Hi. rewrite length_app. unfold nans. rewrite length_replicate.
    intros Hlt. destruct (decide (i < length a)) as [Hin|Hout].
    + rewrite lookup_app_l by done. by apply Hr.
    + rewrite lookup_app_r by lia. apply lookup_replicate_2. lia.
Qed.

Lemma front_commit k a a' v :
  front k a → k < length a → length a' = length a →
  (∀ j, j ≠ k → a' !! j = a !! j) → a' !! k = Some v → is_nan v = false →
  front (k + 1) a'.
Proof.
  intros [Hw Hr] Hlt Hlen Hother Hk Hv. split.
  - intros i Hi. destruct (decide (i = k)) as [->|Hne]; [eauto|].
    rewrite Hother by done. apply Hw. lia.
  - intros i Hi Hilt. rewrite Hother by lia. apply Hr; lia.
Qed.

Lemma Forall2_Forall_elem {A B} (P : A → B → Prop) (Q : B → Prop) xs ys x :
  Forall2 P xs ys → Forall Q ys → x ∈ xs → ∃ y, P x y ∧ Q y.
Proof.
  induction 1 as [|x' y xs ys HP _ IH]; intros HQ Hin.
  - by apply elem_of_nil in Hin.
  - apply Forall_cons in HQ as [HQy HQ].
    apply elem_of_cons in Hin as [->|Hin]; [eauto|by apply IH].
Qed.

Lemma aligned_reserve k vb : aligned vb → aligned (reserve k vb).
Proof.
  intros [HL Hl]. split; simpl.
  - by apply front_reserve.
  - intros node Hin. destruct (Hl node Hin) as (s & Hs & Hlen & Hf).
    exists (s ++ nans k). rewrite lookup_fmap, Hs. split; [done|].
    split; [rewrite !length_app; congruence|by apply front_reserve].
Qed.

Lemma aligned_round nodes vb env vb' env' :
  NoDup (node_id <$> model vb) →
  bounds_not_nan (model vb) →
  aligned vb →
  update_round nodes (vb, env) = (Ok tt, (vb', env')) →
  aligned vb'.
Proof.
  intros Hnd Hnn [HL Hl] H.
  apply update_round_ok_inv in H as (Lv & vb1 & env1 & Hc & _ & -> & Hlt).
  pose proof (compute_bound_frame _ _ _ _ _ _ Hc)
    as (((Hmod & _) & _ & Hfr) & _).
  apply compute_bound_ok in Hc as (vs & s1 & Hcon & Hall & ->); [|done].
  destruct (Hnn _ _ _ Hcon) as [Hvs Hsum].
  split; simpl.
  - eapply front_commit; try done.
    + apply length_insert.
    + intros j Hj. by apply list_lookup_insert_ne.
    + by apply list_lookup_insert_eq.
  - rewrite Hmod. intros node Hin. destruct (Hl node Hin) as (s & Hs & Hlen & Hf).
    destruct (Forall2_Forall_elem _ _ _ _ _ Hall Hvs Hin) as (v & Hv & Hnan).
    specialize (Hfr (node_id node)). rewrite Hs in Hfr.
    inversion Hfr as [? s' [Hlen' Hother] Heq1 Heq2|]; subst.
    unfold entry in Hv. rewrite <- Heq2 in Hv. simpl in Hv.
    exists s'. split; [done|]. rewrite length_insert.
    split; [congruence|].
    eapply front_commit; try done. congruence.
Qed.

Lemma aligned_rounds nodes n vb env vb' env' :
  ledger_shape vb →
  bounds_not_nan (model vb) →
  aligned vb →
  rounds nodes n (vb, env) = (Ok tt, (vb', env')) →
  aligned vb'.
Proof.
  revert vb env. induction n as [|n IH]; intros vb env Hsh Hnn Hal.
  { by intros [= <- <-]. }
  rewrite rounds_S. intros H.
  apply bind_ok_inv in H as ([] & [vb1 env1] & H1 & H2).
  pose proof (update_round_frame _ _ _ _ _ _ H1) as (((Hmod & _) & _) & _).
  eapply IH; [| | |exact H2].
  - by eapply shape_round.
  - by rewrite Hmod.
  - eapply aligned_round; [apply Hsh|done|done|exact H1].
Qed.

Lemma aligned_fresh nodes c fn tmpdir date rnd :
  aligned (fresh nodes c fn tmpdir date rnd).
Proof.
  assert (front 0 []) as Hf.
  { split; intros i Hi; [lia|]. simpl. lia. }
  split; [done|]. intros node Hin. exists [].
  split; [by apply (fresh_series nodes c fn tmpdir date rnd)|done].
Qed.

Lemma sound_update nodes c upd k vb env :
  (∀ node, node ∈ nodes → node_total node) →
  (∀ node, node ∈ upd → node_total node) →
  (c ≤ 0)%Z ∨ (names_ok (unique nodes) ∧ names_plain (unique nodes) ∧
               accepts_plain (h5py env)) →
  bounds_not_nan (unique nodes) →
  sound nodes c vb →
  ∃ vb' env', update upd k (vb, env) = (Ok tt, (vb', env')) ∧
              iter vb' = iter vb + k ∧ sound nodes c vb' ∧
              h5py env' = h5py env.
Proof.
  intros Hn Hu Hsafe Hnn (Hsh & Hal & Hmod & Hcad & Haf).
  destruct (update_total upd k vb env) as (vb' & env' & Hup); try done.
  { rewrite Hmod. intros node Hin. apply Hn. by apply unique_subseteq. }
  { unfold autosave_safe. by rewrite Hcad, Hmod. }
  exists vb', env'. split; [done|].
  pose proof (update_spec _ _ _ _ _ _ _ Hsh Hup)
    as (Hsh' & (Hmod' & Hcad' & Haf' & _) & _ & _ & Hi).
  split; [done|]. split; [|by apply (update_lib_kept _ _ _ _ _ _ _ Hup)].
  split_and!; try done; try congruence.
  rewrite update_eq in Hup.
  eapply aligned_rounds; [| | |exact Hup].
  - by apply shape_reserve.
  - simpl. by rewrite Hmod.
  - by apply aligned_reserve.
Qed.

Lemma sound_run_calls nodes c calls vb env :
  (∀ node, node ∈ nodes → node_total node) →
  (∀ call node, call ∈ calls → node ∈ call.1 → node_total node) →
  (c ≤ 0)%Z ∨ (names_ok (unique nodes) ∧ names_plain (unique nodes) ∧
               accepts_plain (h5py env)) →
  bounds_not_nan (unique nodes) →
  sound nodes c vb →
  ∃ vb' env', run_calls calls (vb, env) = (Ok tt, (vb', env')) ∧
              sound nodes c vb' ∧ h5py env' = h5py env.
Proof.
  intros Hn Hcalls Hsafe Hnn. revert vb env Hsafe.
  induction calls as [|[upd k] calls IH]; intros vb env Hsafe Hso.
  { exists vb, env. done. }
  destruct (sound_update nodes c upd k vb env)
    as (vb1 & env1 & Hup & _ & Hso1 & Hlib1); try done.
  { intros node Hin. apply (Hcalls (upd, k)); [by left|done]. }
  destruct (IH) with (vb := vb1) (env := env1)
    as (vb' & env' & Hrun & Hso' & Hlib').
  { intros call node Hin. apply Hcalls. by right. }
  { by rewrite Hlib1. }
  { done. }
  exists vb', env'. split; [|split; [done|congruence]].
  unfold run_calls in *. simpl. by rewrite (bind_ok _ _ _ _ _ Hup).
Qed.

End Alignment.
(** * Further lemmas *)

(** ** Loops and exceptions *)

Section Loops.

Context {S : Type}.
Implicit Types (st : VB S * Env S) (vb : VB S) (env : Env S).

Lemma for_each_ok_inv {A} (I : list A → VB S * Env S → Prop)
    (xs : list A) (body : A → M S unit) st st' :
  for_each xs body st = (Ok tt, st') →
  I [] st →
  (∀ pre x post st1 st2, xs = pre ++ x :: post → I pre st1 →
     body x st1 = (Ok tt, st2) → I (pre ++ [x]) st2) →
  I xs st'.
Proof.
  intros Hfe H0 Hstep.
  cut (∀ rest pre st1, xs = pre ++ rest → I pre st1 →
         for_each rest body st1 = (Ok tt, st') → I xs st').
  { intros Hcut. by apply (Hcut xs [] st). }
  induction rest as [|x rest IH]; intros pre st1 Hxs HI Hrun.
  - rewrite app_nil_r in Hxs. subst. simpl in Hrun. by injection Hrun as <-.
  - simpl in Hrun. apply bind_ok_inv in Hrun as ([] & st2 & Hb & Hrun).
    apply (IH (pre ++ [x]) st2); [by rewrite <- app_assoc| |done].
    by apply (Hstep pre x rest st1 st2).
Qed.

Lemma for_each_raises {A} (xs : list A) (body : A → M S unit) x :
  x ∈ xs →
  (∀ st, ∃ e st', body x st = (Raise e, st')) →
  ∀ st, ∃ e st', for_each xs body st = (Raise e, st').
Proof.
  intros Hin Hx. induction xs as [|y xs IH]; intros st.
  { by apply elem_of_nil in Hin. }
  simpl. unfold bind. destruct (body y st) as [[[]|e] st1] eqn:Ey; [|eauto].
  apply elem_of_cons in Hin as [->|Hin]; [|by apply IH].
  destruct (Hx st) as (e & st' & He). congruence.
Qed.

Lemma for_each_app {A} (xs ys : list A) (body : A → M S unit) st :
  for_each (xs ++ ys) body st
  = bind (for_each xs body) (λ _, for_each ys body) st.
Proof.
  revert st. induction xs as [|x xs IH]; intros st; [reflexivity|].
  simpl. unfold bind. destruct (body x st) as [[[]|e] st1].
  - by rewrite IH.
  - reflexivity.
Qed.

Lemma for_each_skip {A} (xs : list A) (body : A → M S unit) st :
  (∀ x, x ∈ xs → body x st = (Ok tt, st)) →
  for_each xs body st = (Ok tt, st).
Proof.
  induction xs as [|x xs IH]; intros H; simpl; [done|].
  rewrite (bind_ok _ _ _ _ _ (H x ltac:(by left))).
  apply IH. intros y Hy. apply H. by right.
Qed.







End Loops.

(** ** Looking nodes up *)

Section Lookup.

Context {S : Type}.
Implicit Types (st : VB S * Env S) (vb : VB S) (env : Env S).
Implicit Types (node : Node S) (nodes : list (Node S)).

Lemma filter_none {A} (P : A → Prop) `{∀ x, Decision (P x)} (xs : list A) :
  (∀ x, x ∈ xs → ¬ P x) → filter P xs = [].
Proof.
  induction xs as [|x xs IH]; intros Hno; [done|].
  rewrite filter_cons_False by (apply Hno; by left).
  apply IH. intros y Hy. apply Hno. by right.
Qed.

Lemma dictionary_lookup nodes (s : string) :
  foldl (λ d node, <[name node := node]> d) (∅ : gmap string (Node S)) nodes
    !! s
  = last_named s nodes.
Proof.
  unfold last_named. induction nodes as [|node nodes IH] using rev_ind.
  - simpl. by rewrite lookup_empty.
  - rewrite foldl_app, filter_app. simpl.
    destruct (decide (name node = s)) as [Heq|Hne].
    + rewrite filter_cons_True by done. rewrite filter_nil, last_snoc.
      subst s. by rewrite lookup_insert_eq.
    + rewrite filter_cons_False by done. rewrite filter_nil, app_nil_r.
      by rewrite lookup_insert_ne.
Qed.

Lemma last_named_None nodes (s : string) :
  last_named s nodes = None ↔ s ∉ name <$> nodes.
Proof.
  unfold last_named. rewrite last_None. split.
  - intros Hnil Hin. apply list_elem_of_fmap in Hin as (node & -> & Hin).
    assert (node ∈ filter (λ n, name n = name node) nodes) as Hf.
    { by apply list_elem_of_filter. }
    rewrite Hnil in Hf. by apply elem_of_nil in Hf.
  - intros Hnot. apply filter_none.
    intros node Hin Heq. apply Hnot, list_elem_of_fmap. eauto.
Qed.

Lemma last_named_Some nodes pre node post :
  nodes = pre ++ node :: post → name node ∉ name <$> post →
  last_named (name node) nodes = Some node.
Proof.
  intros -> Hnot. unfold last_named.
  rewrite filter_app, filter_cons_True by done.
  assert (filter (λ n, name n = name node) post = []) as ->.
  { apply filter_none. intros n Hin Heq.
    apply Hnot, list_elem_of_fmap. eauto. }
  by rewrite last_snoc.
Qed.

Lemma last_named_elem nodes (s : string) node :
  last_named s nodes = Some node → node ∈ nodes ∧ name node = s.
Proof.
  unfold last_named. intros H.
  assert (node ∈ filter (λ n, name n = s) nodes) as Hin.
  { apply last_Some in H as [pre ->]. apply elem_of_app. right. by left. }
  by apply list_elem_of_filter in Hin as [? ?].
Qed.

Lemma getitem_by_name (s : string) vb env :
  __getitem__ (ByName s) (vb, env) =
    (match last_named s (model vb) with
     | Some n => Ok n
     | None => Raise KeyError
     end, (vb, env)).
Proof.
  unfold __getitem__, bind, get_self. simpl. rewrite dictionary_lookup.
  by destruct (last_named s (model vb)).
Qed.

Lemma getitem_by_node (n : Node S) vb env :
  __getitem__ (ByNode n) (vb, env) =
    (if decide (node_id n ∈ node_id <$> model vb) then Ok n
     else Raise KeyError, (vb, env)).
Proof. unfold __getitem__, bind, get_self. simpl. by destruct (decide _). Qed.

Lemma getitem_resolves (r : NodeRef S) vb env :
  (resolves vb r → ∃ n, __getitem__ r (vb, env) = (Ok n, (vb, env))) ∧
  (¬ resolves vb r → __getitem__ r (vb, env) = (Raise KeyError, (vb, env))).
Proof.
  destruct r as [n|s]; simpl.
  - rewrite getitem_by_node. destruct (decide _); split; intros; try done; eauto.
  - rewrite getitem_by_name.
    destruct (last_named s (model vb)) as [n|] eqn:E; split; intros H; eauto.
    + apply last_named_elem in E as [Hin <-]. exfalso. apply H.
      apply list_elem_of_fmap. eauto.
    + by apply last_named_None in E.
Qed.

Lemma getitems_unresolved (refs : list (NodeRef S)) r vb env :
  r ∈ refs → ¬ resolves vb r →
  getitems refs (vb, env) = (Raise KeyError, (vb, env)).
Proof.
  intros Hin Hr. induction refs as [|r0 refs IH]; [by apply elem_of_nil in Hin|].
  simpl. destruct (getitem_resolves r0 vb env) as [Hyes Hno].
  apply elem_of_cons in Hin as [->|Hin].
  { by rewrite (bind_raise _ _ _ _ _ (Hno Hr)). }
  assert (resolves vb r0 ∨ ¬ resolves vb r0) as [H0|H0].
  { destruct r0 as [n|s]; simpl; [destruct (decide (node_id n ∈ node_id <$> model vb))
      |destruct (decide (s ∈ name <$> model vb))]; eauto. }
  - destruct (Hyes H0) as [n Hn]. rewrite (bind_ok _ _ _ _ _ Hn).
    by rewrite (bind_raise _ _ _ _ _ (IH Hin)).
  - by rewrite (bind_raise _ _ _ _ _ (Hno H0)).
Qed.

End Lookup.

(** ** What a completed [save] has written *)

Section SaveLayout.

Context {S : Type}.
Implicit Types (st : VB S * Env S) (vb : VB S) (env : Env S).
Implicit Types (node : Node S) (nodes : list (Node S)).

Lemma save_to_layout p vb env vb' env' :
  save_to p (vb, env) = (Ok tt, (vb', env')) →
  vb' = vb ∧ names_ok (model vb) ∧
  ∃ ck, files env' !! p = Some ck ∧ checkpoint_of vb ck.
Proof.
  intros H. pose proof (save_to_self_kept _ _ _ _ H) as Hself.
  unfold self_kept in Hself. simpl in Hself. subst vb'. split; [done|].
  revert H. unfold save_to. intros H.
  apply bind_ok_inv in H as (lib & st0 & H0 & H). injection H0 as <- <-.
  apply bind_ok_inv in H as ([] & [vb1 env1] & H1 & H). injection H1 as <- <-.
  apply bind_ok_inv in H as (vb1 & st1 & H1 & H). injection H1 as <- <-.
  apply bind_ok_inv in H as ([] & [vb2 env2] & Hnodes & H).
  (* the groups of the nodes *)
  apply (for_each_ok_inv (λ pre st1,
    st1.1 = vb ∧ ∃ f, files st1.2 !! p = Some f ∧ no_ledger f ∧
      (∀ nm, is_Some (h5_nodes f !! nm) ↔
         ∃ node, node ∈ pre ∧ name node = nm ∧ is_Some (node_save node)) ∧
      (∀ node cb, node ∈ pre → node_save node = Some cb →
         ∃ g, h5_nodes f !! name node = Some g ∧ written_by cb g) ∧
      (∀ node, node ∈ pre → name node ≠ "")))
    in Hnodes as (Hvb2 & f2 & Hf2 & Hnl & Hgroups & Hwritten & Hnames).
  2:{ split; [done|]. exists h5_new. simpl. rewrite lookup_insert_eq.
      split_and!; try done.
      - intros nm. simpl. rewrite lookup_empty. split.
        + by intros [? [=]].
        + intros (node & Hin & _). by apply elem_of_nil in Hin.
      - intros node cb Hin. by apply elem_of_nil in Hin.
      - intros node Hin. by apply elem_of_nil in Hin. }
  2:{ intros pre node post [vb1 e1] [vb3 e3] _
        (Hvb1 & f & Hf & Hnl & Hg & Hw & Hn).
      simpl in Hvb1, Hf. subst vb1.
      destruct (String.eqb (name node) "") eqn:Ename; [done|].
      apply String.eqb_neq in Ename.
      assert (Hn' : ∀ node0, node0 ∈ pre ++ [node] → name node0 ≠ "").
      { intros node0 [Hin| ->%list_elem_of_singleton]%elem_of_app; auto. }
      destruct (node_save node) as [cb|] eqn:Ecb.
      - intros Hb.
        apply bind_ok_inv in Hb as ([] & [vb4 e4] & Hc & Hb).
        apply bind_ok_inv in Hb as (g & [vb5 e5] & Hcall & Hb).
        revert Hc Hcall Hb. unfold h5_write, call, h5_create_group, h5_fill_group.
        simpl. rewrite Hf.
        destruct (h5_nodes f !! name node) as [?|] eqn:Efresh; [done|].
        destruct (h5py env (CreateGroup (name node)) f); [done|].
        intros [= <- <-]. simpl.
        destruct (cb (node_state e1)) as [[g'|?] s'] eqn:Ecall; [|done].
        intros [= <- <- <-]. simpl. rewrite lookup_insert_eq.
        intros [= <- <-]. simpl. split; [done|].
        eexists. rewrite lookup_insert_eq. split; [done|]. split_and!; try done.
        + intros nm. simpl. destruct (decide (nm = name node)) as [->|Hne].
          * rewrite lookup_insert_eq. split; [|by eauto]. intros _.
            exists node. split_and!; [|done|by rewrite Ecb].
            apply elem_of_app. right. by left.
          * rewrite !lookup_insert_ne by done. rewrite Hg. split.
            -- intros (n0 & Hin & ? & ?). exists n0. split_and!; try done.
               apply elem_of_app. by left.
            -- intros (n0 & [Hin| ->%list_elem_of_singleton]%elem_of_app
                       & Hnm & Hs); [by eauto|done].
        + intros n0 cb0 [Hin| ->%list_elem_of_singleton]%elem_of_app Hcb0; simpl.
          * destruct (Hw n0 cb0 Hin Hcb0) as (g0 & Hg0 & Hw0).
            exists g0. split; [|done].
            rewrite !lookup_insert_ne; [done| |]; congruence.
          * rewrite lookup_insert_eq. eexists. split; [done|].
            assert (cb0 = cb) as -> by congruence. unfold written_by. eauto.
      - intros [= <- <-]. simpl. split; [done|]. exists f.
        split_and!; try done.
        + intros nm. rewrite Hg. split.
          * intros (n0 & Hin & ? & ?). exists n0. split_and!; try done.
            apply elem_of_app. by left.
          * intros (n0 & [Hin| ->%list_elem_of_singleton]%elem_of_app & Hnm & Hs);
              [by eauto|]. rewrite Ecb in Hs. by destruct Hs.
        + intros n0 cb0 [Hin| ->%list_elem_of_singleton]%elem_of_app Hcb0;
            [by eauto|congruence]. }
  simpl in Hvb2, Hf2. subst vb2. destruct Hnl as (HnL & Hni & Hnb).
  (* the ledger *)
  apply bind_ok_inv in H as (vb3 & st & H1 & H). injection H1 as <- <-.
  apply bind_ok_inv in H as ([] & [vb3 env3] & HL & H).
  apply bind_ok_inv in H as ([] & [vb4 env4] & Hi & H).
  apply bind_ok_inv in H as ([] & [vb5 env5] & Hb & H).
  revert HL Hi Hb.
  unfold h5_write, write_L_to_hdf5, write_iter_to_hdf5, h5_create_boundterms.
  simpl. rewrite Hf2. destruct (h5py env WriteL f2); [done|].
  intros [= <- <-]. simpl. rewrite lookup_insert_eq.
  destruct (h5py env WriteIter _); [done|].
  intros [= <- <-]. simpl. rewrite lookup_insert_eq.
  destruct (h5py env CreateBoundterms _); [done|]. intros [= <- <-].
  apply (for_each_ok_inv (λ pre st1,
    st1.1 = vb ∧ ∃ f b, files st1.2 !! p = Some f ∧
      h5_L f = Some (L vb) ∧ h5_iter f = Some (iter vb) ∧
      h5_nodes f = h5_nodes f2 ∧ h5_boundterms f = Some b ∧
      (∀ node, node ∈ pre →
         ∃ s, l vb !! node_id node = Some s ∧ b !! name node = Some s) ∧
      (∀ nm, is_Some (b !! nm) → nm ∈ name <$> pre) ∧
      NoDup (name <$> pre)))
    in H as (_ & f & b & Hf & HfL & Hfi & Hfn & Hfb & Hterms & Hdom & Hnd).
  2:{ split; [done|]. eexists _, ∅. simpl. rewrite lookup_insert_eq.
      split_and!; try done.
      - intros node Hin. by apply elem_of_nil in Hin.
      - intros nm [? Hnm]. by rewrite lookup_empty in Hnm.
      - apply NoDup_nil_2. }
  2:{ intros pre node post [vb1 e1] [vb3 e3] _
        (Hvb1 & f & b & Hf & HfL & Hfi & Hfn & Hfb & Hterms & Hdom & Hnd).
      simpl in Hvb1, Hf. subst vb1.
      unfold getitem_l, bind, get_self, h5_write, write_boundterm_to_hdf5.
      simpl. destruct (l vb !! node_id node) as [s|] eqn:Es; [|done]. simpl.
      rewrite Hf, Hfb.
      destruct (b !! name node) as [?|] eqn:Efresh; [done|].
      destruct (h5py env (WriteBoundterm (name node)) f); [done|].
      intros [= <- <-]. simpl. split; [done|]. eexists _, _.
      rewrite lookup_insert_eq. split; [done|]. simpl. split_and!; try done.
      - intros n0 [Hin| ->%list_elem_of_singleton]%elem_of_app.
        + destruct (Hterms n0 Hin) as (s0 & Hs0 & Hb0). exists s0.
          split; [done|]. rewrite lookup_insert_ne; [done|]. congruence.
        + exists s. by rewrite lookup_insert_eq.
      - intros nm Hnm. rewrite fmap_app. apply elem_of_app.
        destruct (decide (nm = name node)) as [->|Hne].
        + right. simpl. by left.
        + left. apply Hdom. by rewrite lookup_insert_ne in Hnm.
      - rewrite fmap_app. apply NoDup_app. split_and!; [done| |apply NoDup_singleton].
        intros nm Hin ->%list_elem_of_singleton.
        apply list_elem_of_fmap in Hin as (n0 & Hnm & Hin).
        destruct (Hterms n0 Hin) as (s0 & _ & Hb0). congruence. }
  split; [by split|]. exists f. split; [done|].
  split_and!; try done.
  - by exists b.
  - intros nm. by rewrite Hfn, Hgroups.
  - intros node cb Hin Hcb. rewrite Hfn. by apply Hwritten.
Qed.

End SaveLayout.

(** ** What [load] does to the loop *)

Section LoadEffects.

Context {S : Type}.
Implicit Types (st : VB S * Env S) (vb : VB S) (env : Env S).
Implicit Types (node : Node S) (nodes : list (Node S)).

Lemma getitem_self_kept (r : NodeRef S) : preserves self_kept (__getitem__ r).
Proof. unfold __getitem__. pres. Qed.

Lemma getitems_self_kept (refs : list (NodeRef S)) :
  preserves self_kept (getitems refs).
Proof.
  induction refs as [|r refs IH]; simpl; [pres|].
  pres_apply preserves_bind; [apply getitem_self_kept|]. intros n.
  pres_apply preserves_bind; [apply IH|]. intros ns. pres.
Qed.

Lemma load_explicit (refs : list (NodeRef S)) (p : string) st :
  p ≠ "" → load refs (Some p) st = load_from refs p st.
Proof.
  intros Hp. unfold load.
  by rewrite (bind_ok _ _ _ _ _ (resolve_filename_explicit p st Hp)).
Qed.

Lemma load_from_ok p (refs : list (NodeRef S)) vb env vb' env' ck :
  files env !! p = Some ck →
  load_from refs p (vb, env) = (Ok tt, (vb', env')) →
  static_eq vb vb' ∧ h5_L ck = Some (L vb') ∧ h5_iter ck = Some (iter vb') ∧
  (∀ k, k ∉ node_id <$> model vb → l vb' !! k = l vb !! k) ∧
  (NoDup (node_id <$> model vb) → ∀ node, node ∈ model vb →
     ∃ b s, h5_boundterms ck = Some b ∧ b !! name node = Some s ∧
            l vb' !! node_id node = Some s).
Proof.
  intros Hck H. unfold load_from in H.
  apply bind_ok_inv in H as (h5f & st1 & H1 & H).
  unfold h5_open_r in H1. simpl in H1. rewrite Hck in H1. injection H1 as <- <-.
  apply bind_ok_inv in H as (vb1 & st1 & H1 & H). injection H1 as <- <-.
  apply bind_ok_inv in H as (nodes & [vb1 env1] & Hres & H).
  assert (vb1 = vb) as ->.
  { revert Hres. match goal with |- ?m _ = _ → _ =>
      assert (Hp : preserves self_kept m) end.
    { destruct (length refs =? 0)%nat; [pres|apply getitems_self_kept]. }
    intros Hres. apply (Hp _ _ _ Hres). }
  clear Hres.
  apply bind_ok_inv in H as ([] & [vb2 env2] & Hloads & H).
  assert (vb2 = vb) as ->.
  { revert Hloads. match goal with |- ?m _ = _ → _ =>
      assert (Hp : preserves self_kept m) by pres end.
    intros Hloads. apply (Hp _ _ _ Hloads). }
  clear Hloads.
  apply bind_ok_inv in H as (a & st & Ha & H).
  destruct (h5_L ck) as [a'|] eqn:EL; [|done]. injection Ha as <- <-.
  apply bind_ok_inv in H as ([] & st & H1 & H). injection H1 as <-.
  apply bind_ok_inv in H as (i & st & Hi & H).
  destruct (h5_iter ck) as [i'|] eqn:Ei; [|done]. injection Hi as <- <-.
  apply bind_ok_inv in H as ([] & st & H1 & H). injection H1 as <-.
  apply bind_ok_inv in H as (vb3 & st & H1 & H). injection H1 as <- <-.
  simpl in H.
  apply (for_each_ok_inv (λ pre st1,
    static_eq vb st1.1 ∧ L st1.1 = a' ∧ iter st1.1 = i' ∧
    (∀ k, k ∉ node_id <$> pre → l st1.1 !! k = l vb !! k) ∧
    (NoDup (node_id <$> model vb) → ∀ node, node ∈ pre →
       ∃ b s, h5_boundterms ck = Some b ∧ b !! name node = Some s ∧
              l st1.1 !! node_id node = Some s)))
    in H as (Hst & HL & Hiter & Hout & Hin).
  - simpl in *. subst a' i'. by split_and!.
  - split_and!; try done. intros _ node Hn. by apply elem_of_nil in Hn.
  - intros pre node post [vb1 e1] [vb4 e4] Hsplit (Hst & HL & Hiter & Hout & Hin).
    simpl in *. intros Hb.
    apply bind_ok_inv in Hb as (b & st & Hb1 & Hb).
    destruct (h5_boundterms ck) as [b'|] eqn:Eb; [|done]. injection Hb1 as <- <-.
    apply bind_ok_inv in Hb as (s & st & Hs & Hb).
    destruct (b' !! name node) as [s'|] eqn:Es; [|done]. injection Hs as <- <-.
    injection Hb as <- <-. simpl.
    split_and!; try done.
    + intros k Hk. rewrite fmap_app in Hk.
      rewrite lookup_insert_ne.
      * apply Hout. intros Hk'. apply Hk, elem_of_app. by left.
      * intros <-. apply Hk, elem_of_app. right. simpl. by left.
    + intros Hnd n0 [Hn0| ->%list_elem_of_singleton]%elem_of_app.
      * destruct (Hin Hnd n0 Hn0) as (b & s & Hb & Hs & Hl).
        exists b, s. split_and!; try done.
        rewrite lookup_insert_ne; [done|]. intros Heq.
        rewrite Hsplit, fmap_app, fmap_cons in Hnd.
        apply NoDup_app in Hnd as (_ & Hdisj & _).
        apply (Hdisj (node_id n0)); [apply list_elem_of_fmap; eauto|].
        rewrite <- Heq. by left.
      * exists b', s'. split_and!; try done. by rewrite lookup_insert_eq.
Qed.

Lemma resolve_refs_self_kept (refs : list (NodeRef S)) vb :
  preserves self_kept
    (if (length refs =? 0)%nat then ret (model vb) else getitems refs).
Proof. destruct (length refs =? 0)%nat; [pres|apply getitems_self_kept]. Qed.


(** With no node named, [load] goes through the model; the nodes before
    the first one that can be loaded are passed over. *)
Lemma load_from_first_loadable p vb env ck pre node post f :
  files env !! p = Some ck →
  model vb = pre ++ node :: post →
  (∀ n, n ∈ pre → name n ≠ "" ∧ node_load n = None) →
  name node ≠ "" →
  node_load node = Some f →
  (h5_nodes ck !! name node = None →
   load_from [] p (vb, env) =
     (Raise (PyException ("File does not contain variable " +:+ name node)),
      (vb, env))) ∧
  (∀ g s', h5_nodes ck !! name node = Some g →
     f g (node_state env) = (Raise KeyError, s') →
     load_from [] p (vb, env) =
       (Raise (PyException ("File does not contain variable " +:+ name node)),
        (vb, set_node_state s' env))).
Proof.
  intros Hck Hm Hpre Hname Hload.
  assert (Hstart : ∀ r,
    except_KeyError
      (bind (h5_get (h5_nodes ck !! name node)) (λ g, call (f g)))
      (raise (PyException ("File does not contain variable " +:+ name node)))
      (vb, env) = (Raise (PyException
        ("File does not contain variable " +:+ name node)), r) →
    load_from [] p (vb, env) =
      (Raise (PyException ("File does not contain variable " +:+ name node)),
       r)).
  { intros r Hr. unfold load_from.
    unfold bind at 1. unfold h5_open_r at 1. simpl. rewrite Hck.
    unfold bind at 1. simpl. unfold bind at 1. simpl. rewrite Hm.
    unfold bind at 1. rewrite for_each_app. unfold bind at 1.
    rewrite for_each_skip.
    2:{ intros n Hn. destruct (Hpre n Hn) as [Hne ->].
        by rewrite (eqb_empty_false _ Hne). }
    simpl. unfold bind at 1. rewrite (eqb_empty_false _ Hname), Hload.
    by rewrite Hr. }
  split.
  - intros Hnone. apply Hstart.
    unfold except_KeyError, bind, h5_get. by rewrite Hnone.
  - intros g s' Hg Hf. apply Hstart.
    unfold except_KeyError, bind, h5_get, call. rewrite Hg. simpl.
    by rewrite Hf.
Qed.

End LoadEffects.

(** ** Calls of [save] and [load] that fail *)

Section Failures.

Context {S : Type}.
Implicit Types (st : VB S * Env S) (vb : VB S) (env : Env S).
Implicit Types (node : Node S) (nodes : list (Node S)).

Lemma load_from_unresolved p (refs : list (NodeRef S)) r vb env ck :
  files env !! p = Some ck → r ∈ refs → ¬ resolves vb r →
  load_from refs p (vb, env) = (Raise KeyError, (vb, env)).
Proof.
  intros Hck Hin Hr. unfold load_from.
  unfold bind at 1. unfold h5_open_r at 1. simpl. rewrite Hck.
  unfold bind at 1. simpl. unfold bind at 1.
  destruct refs as [|r0 refs]; [by apply elem_of_nil in Hin|].
  change (length (r0 :: refs) =? 0)%nat with false. cbv iota.
  by rewrite (getitems_unresolved _ r vb env Hin Hr).
Qed.

Lemma getitems_out_kept (refs : list (NodeRef S)) :
  preserves out_kept (getitems refs).
Proof.
  induction refs as [|r refs IH]; simpl; [pres|].
  pres_apply preserves_bind; [unfold __getitem__; pres|]. intros n.
  pres_apply preserves_bind; [apply IH|]. intros ns. pres.
Qed.

Lemma load_from_out_kept (refs : list (NodeRef S)) p :
  preserves out_kept (load_from refs p).
Proof.
  unfold load_from. pres_apply preserves_bind; [pres|]. intros h5f.
  pres_apply preserves_bind; [pres|]. intros vb.
  pres_apply preserves_bind.
  { destruct (length refs =? 0)%nat; [pres|apply getitems_out_kept]. }
  intros nodes. pres.
Qed.


Lemma load_terms_raise (ck : H5File) nodes node :
  node ∈ nodes →
  (∀ b, h5_boundterms ck = Some b → b !! name node = None) →
  ∀ vb env, ∃ vb',
    for_each nodes (λ node,
      bind (h5_get (h5_boundterms ck)) (λ b,
      bind (h5_get (b !! name node)) (λ s,
      bind get_self (λ vb,
      set_self (set_l (<[node_id node := s]> (l vb)))))))
      (vb, env) = (Raise KeyError, (vb', env)) ∧
    L vb' = L vb ∧ iter vb' = iter vb.
Proof.
  intros Hin Hmiss. induction nodes as [|n0 nodes IH]; intros vb env.
  { by apply elem_of_nil in Hin. }
  simpl.
  match goal with |- ∃ _, bind ?m _ _ = _ ∧ _ => set (head := m) end.
  assert (head (vb, env) = (Raise KeyError, (vb, env)) ∨
          ∃ b s, h5_boundterms ck = Some b ∧ b !! name n0 = Some s ∧
                 head (vb, env)
                 = (Ok tt, (set_l (<[node_id n0 := s]> (l vb)) vb, env)))
    as [Hhead|(b & s & Hb & Hs & Hhead)].
  { subst head. unfold bind, h5_get, get_self, set_self.
    destruct (h5_boundterms ck) as [b|] eqn:Eb; [|by left]. simpl.
    destruct (b !! name n0) as [s|] eqn:Es; [|by left]. simpl.
    right. by exists b, s. }
  { rewrite (bind_raise _ _ _ _ _ Hhead). by exists vb. }
  rewrite (bind_ok _ _ _ _ _ Hhead).
  apply elem_of_cons in Hin as [->|Hin].
  { rewrite (Hmiss b Hb) in Hs. done. }
  destruct (IH Hin (set_l (<[node_id n0 := s]> (l vb)) vb) env)
    as (vb' & Hfe & HL & Hi).
  by exists vb'.
Qed.

(** A file that lacks the bound term of a node of the model: [load] raises
    once it has replaced the bounds and the count. *)
Lemma load_from_missing_term p vb env ck a i node :
  files env !! p = Some ck → h5_L ck = Some a → h5_iter ck = Some i →
  (∀ n, n ∈ model vb → name n ≠ "" ∧ node_load n = None) →
  node ∈ model vb →
  (∀ b, h5_boundterms ck = Some b → b !! name node = None) →
  ∃ vb', load_from [] p (vb, env) = (Raise KeyError, (vb', env)) ∧
         L vb' = a ∧ iter vb' = i.
Proof.
  intros Hck HL Hi Hnodes Hin Hmiss. unfold load_from.
  unfold bind at 1. unfold h5_open_r at 1. simpl. rewrite Hck.
  unfold bind at 1. simpl. unfold bind at 1. simpl.
  unfold bind at 1. rewrite for_each_skip.
  2:{ intros n Hn. destruct (Hnodes n Hn) as [Hne ->].
      by rewrite (eqb_empty_false _ Hne). }
  unfold bind at 1. rewrite HL. simpl. unfold bind at 1. simpl.
  unfold bind at 1. rewrite Hi. simpl. unfold bind at 1. simpl.
  unfold bind at 1. simpl.
  destruct (load_terms_raise ck (model vb) node Hin Hmiss
              (set_iter i (set_L a vb)) env) as (vb' & Hfe & HL' & Hi').
  exists vb'. split; [exact Hfe|done].
Qed.

Lemma h5_write_keeps_without_ledger p op :
  (∀ f f', op f = Ok f' → no_ledger f → no_ledger f') →
  preserves (keeps (file_without_ledger p)) (h5_write (S:=S) p op).
Proof.
  intros Hop [vb env] r st'. unfold h5_write, keeps. simpl.
  destruct (files env !! p) as [f|] eqn:Ef; [|by intros [= <- <-]].
  destruct (op f) as [f'|e] eqn:Eop; intros [= <- <-]; [|done].
  intros (ck & Hck & Hnl). simpl in *. simplify_eq.
  exists f'. simpl. rewrite lookup_insert_eq. split; [done|]. by eapply Hop.
Qed.

Lemma call_keeps_without_ledger {A} p (cb : S → Res A * S) :
  preserves (keeps (file_without_ledger p)) (call cb).
Proof.
  intros [vb env] r st'. unfold call, keeps. simpl.
  destruct (cb (node_state env)); intros [= <- <-]. done.
Qed.

Lemma save_to_unnamed p vb env node :
  node ∈ model vb → name node = "" →
  ∃ e env', save_to p (vb, env) = (Raise e, (vb, env')) ∧
            file_without_ledger p (vb, env').
Proof.
  intros Hin Hname. unfold save_to.
  unfold bind at 1. simpl. unfold bind at 1. simpl. unfold bind at 1. simpl.
  set (env1 := set_files (<[p := h5_new]> (files env)) env).
  match goal with |- ∃ _ _, bind (for_each _ ?b) _ _ = _ ∧ _ => set (body := b) end.
  destruct (for_each_raises (model vb) body node Hin) with (st := (vb, env1))
    as (e & [vb' env'] & Hfe).
  { intros st. subst body. simpl. rewrite Hname. simpl. by eexists _, _. }
  assert (Hself : preserves self_kept (for_each (model vb) body)).
  { subst body. pres. }
  assert (Hkeep : preserves (keeps (file_without_ledger p))
                    (for_each (model vb) body)).
  { subst body. pres_apply preserves_for_each. intros n _.
    destruct (String.eqb (name n) ""); [pres|].
    destruct (node_save n) as [cb|]; [|pres].
    pres_apply preserves_bind.
    { apply h5_write_keeps_without_ledger. intros f f'.
      unfold h5_create_group. destruct (h5_nodes f !! name n); [done|].
      destruct (h5py env (CreateGroup (name n)) f); [done|].
      by intros [= <-]. }
    intros _. pres_apply preserves_bind; [apply call_keeps_without_ledger|].
    intros g. apply h5_write_keeps_without_ledger. intros f f'.
    unfold h5_fill_group. by intros [= <-]. }
  pose proof (Hself _ _ _ Hfe) as Hs. unfold self_kept in Hs. simpl in Hs.
  subst vb'. exists e, env'. rewrite (bind_raise _ _ _ _ _ Hfe). split; [done|].
  apply (Hkeep _ _ _ Hfe). exists h5_new. subst env1. simpl.
  by rewrite lookup_insert_eq.
Qed.

End Failures.

(** ** Saving, then loading *)

Section RoundTrip.

Context {S : Type}.
Implicit Types (st : VB S * Env S) (vb : VB S) (env : Env S).
Implicit Types (node : Node S) (nodes : list (Node S)).

Lemma load_from_checkpoint_total p vb ck vb2 env2 :
  names_ok (model vb) →
  checkpoint_of vb ck →
  (∀ node, node ∈ model vb → load_total node) →
  model vb2 = model vb →
  files env2 !! p = Some ck →
  ∃ vb3 env3, load_from [] p (vb2, env2) = (Ok tt, (vb3, env3)).
Proof.
  intros [Hne Hnd] (HL & Hi & (b & Hb & Hterms & _) & _ & Hwritten) Hlt Hm Hck.
  unfold load_from.
  unfold bind at 1. unfold h5_open_r at 1. simpl. rewrite Hck.
  unfold bind at 1. simpl. unfold bind at 1. simpl. rewrite Hm.
  lazymatch goal with
  | |- ∃ _ _, bind (for_each _ ?body) _ _ = _ =>
      edestruct (for_each_total (λ pre st1, st1.1 = vb2) (model vb) body
                   (vb2, env2)) as ([vb3 env3] & Hfe & Hvb3);
        [done| |rewrite (bind_ok _ _ _ _ _ Hfe); simpl in Hvb3; subst vb3]
  end.
  { intros pre node post [vb1 e1] Hsplit Hvb1. simpl in Hvb1. subst vb1.
    assert (Hin : node ∈ model vb).
    { rewrite Hsplit. apply elem_of_app. right. by left. }
    rewrite (eqb_empty_false _ (Hne node Hin)).
    destruct (node_load node) as [f|] eqn:Ef; [|by eexists].
    destruct (Hlt node Hin f Ef) as (cb & Hsave & Hf).
    destruct (Hwritten node cb Hin Hsave) as (g & Hg & Hw).
    destruct (Hf g Hw (node_state e1)) as ([] & s' & Hfg).
    unfold except_KeyError, bind, h5_get, call. rewrite Hg. simpl.
    rewrite Hfg. by eexists. }
  unfold bind at 1. rewrite HL. simpl. unfold bind at 1. simpl.
  unfold bind at 1. rewrite Hi. simpl. unfold bind at 1. simpl.
  unfold bind at 1. simpl. rewrite Hm.
  edestruct (for_each_total (λ (pre : list (Node S)) (st1 : VB S * Env S), True)
               (model vb)) as ([vb4 env4] & Hfe2 & _); [done| |by eauto].
  intros pre node post [vb1 e1] Hsplit _.
  assert (Hin : node ∈ model vb).
  { rewrite Hsplit. apply elem_of_app. right. by left. }
  destruct (Hterms node Hin) as (s & _ & Hs).
  unfold bind, h5_get, get_self, set_self. rewrite Hb. simpl. rewrite Hs.
  by eexists.
Qed.

End RoundTrip.

(** ** Calls of [update] in a row *)

Section Composition.

Context {S : Type}.
Implicit Types (st : VB S * Env S) (vb : VB S) (env : Env S).
Implicit Types (node : Node S) (nodes : list (Node S)).

Lemma nans_add j k : nans (j + k) = nans j ++ nans k.
Proof. apply replicate_add. Qed.

Lemma reserve_add j k vb : reserve (j + k) vb = reserve k (reserve j vb).
Proof.
  unfold reserve, set_l, set_L. simpl. f_equal.
  - by rewrite nans_add, app_assoc.
  - rewrite <- map_fmap_compose. apply map_fmap_ext. intros i s _. simpl.
    by rewrite nans_add, app_assoc.
Qed.

Lemma reserve_0 vb : reserve 0 vb = vb.
Proof.
  destruct vb as [m i a d c af fn]. unfold reserve, set_l, set_L. simpl.
  f_equal; [apply app_nil_r|].
  rewrite <- (map_fmap_id d) at 2. apply map_fmap_ext. intros k s _.
  apply app_nil_r.
Qed.

Lemma reserve_entry k vb node s lp :
  iter vb < length s →
  set_l (<[node_id node := <[iter vb := lp]> (s ++ nans k)]> (l (reserve k vb)))
    (reserve k vb)
  = reserve k (set_l (<[node_id node := <[iter vb := lp]> s]> (l vb)) vb).
Proof.
  intros Hlt. unfold reserve, set_l, set_L. simpl. f_equal.
  rewrite fmap_insert. f_equal. by apply insert_app_l.
Qed.

Lemma reserve_commit k vb vb1 Lv :
  iter vb < length (L vb) →
  set_iter (iter vb + 1) (set_L (<[iter vb := Lv]> (L vb ++ nans k)) (reserve k vb1))
  = reserve k (set_iter (iter vb + 1) (set_L (<[iter vb := Lv]> (L vb)) vb1)).
Proof.
  intros Hlt. unfold reserve, set_l, set_L, set_iter. simpl. f_equal.
  by apply insert_app_l.
Qed.

Lemma update_nodes_any_self nodes vb env r vb' env' vb2 :
  update_nodes nodes (vb, env) = (r, (vb', env')) →
  update_nodes nodes (vb2, env) = (r, (vb2, env')).
Proof.
  revert env. induction nodes as [|node nodes IH]; intros env.
  { by intros [= <- <- <-]. }
  rewrite !update_nodes_cons. destruct (node_update node) as [f|]; [|apply IH].
  destruct (f (node_state env)) as [[[]|e] s']; [apply IH|].
  by intros [= <- <- <-].
Qed.

Lemma lowerbound_loop_reserve k nodes Lv vb env Lv' vb' env' :
  lowerbound_loop nodes Lv (vb, env) = (Ok Lv', (vb', env')) →
  lowerbound_loop nodes Lv (reserve k vb, env) = (Ok Lv', (reserve k vb', env')).
Proof.
  revert Lv vb env. induction nodes as [|node nodes IH]; intros Lv vb env.
  { by intros [= <- <- <-]. }
  rewrite !lowerbound_loop_cons.
  destruct (lower_bound_contribution node (node_state env)) as [[lp|e] s'];
    [|done].
  change (l (reserve k vb)) with ((λ s, s ++ nans k) <$> l vb).
  change (iter (reserve k vb)) with (iter vb).
  rewrite lookup_fmap. destruct (l vb !! node_id node) as [s|]; [|done]. simpl.
  destruct (iter vb <? length s)%nat eqn:E; [|done].
  apply Nat.ltb_lt in E. rewrite length_app.
  assert ((iter vb <? length s + length (nans k))%nat = true) as ->.
  { apply Nat.ltb_lt. lia. }
  intros H. apply IH in H. rewrite <- H. do 2 f_equal.
  change ((λ s, s ++ nans k) <$> l vb) with (l (reserve k vb)).
  by apply reserve_entry.
Qed.

Lemma compute_bound_reserve k nodes vb env Lv vb1 env1 :
  compute_bound nodes (vb, env) = (Ok Lv, (vb1, env1)) →
  compute_bound nodes (reserve k vb, env) = (Ok Lv, (reserve k vb1, env1)).
Proof.
  unfold compute_bound. intros H.
  apply bind_ok_inv in H as ([] & [vb0 env0] & Hu & H).
  destruct (update_nodes_frame _ _ _ _ _ _ Hu) as (-> & _).
  rewrite (bind_ok _ _ _ _ _ (update_nodes_any_self _ _ _ _ _ _ (reserve k vb) Hu)).
  revert H. unfold loglikelihood_lowerbound, bind, get_self. simpl.
  apply lowerbound_loop_reserve.
Qed.

Lemma round_events_reserve k vb Lv :
  iter vb < length (L vb) →
  round_events (reserve k vb) Lv = round_events vb Lv.
Proof.
  intros Hlt. unfold round_events, progress_events. simpl.
  destruct (0 <? iter vb)%nat; [|done].
  rewrite lookup_app_l by lia. done.
Qed.

Lemma autosave_off vb env :
  (autosave_iterations vb ≤ 0)%Z → autosave (vb, env) = (Ok tt, (vb, env)).
Proof.
  intros Hc. apply autosave_not_due. unfold autosave_due.
  destruct (0 <? autosave_iterations vb)%Z eqn:E; [|done].
  apply Z.ltb_lt in E. lia.
Qed.

Lemma update_round_reserve k nodes vb env vb' env' :
  (autosave_iterations vb ≤ 0)%Z →
  update_round nodes (vb, env) = (Ok tt, (vb', env')) →
  update_round nodes (reserve k vb, env) = (Ok tt, (reserve k vb', env')).
Proof.
  intros Hc H.
  apply update_round_ok_inv in H as (Lv & vb1 & env1 & Hcb & Hauto & -> & Hlt).
  destruct (compute_bound_frame _ _ _ _ _ _ Hcb) as (((_ & Hc1 & _) & _) & _).
  rewrite autosave_off in Hauto by lia. injection Hauto as <-.
  rewrite (update_round_completes nodes (reserve k vb) env Lv (reserve k vb1) env1
             (reserve k vb1, add_out (round_events vb Lv) env1)).
  - simpl. by rewrite reserve_commit.
  - by apply compute_bound_reserve.
  - simpl. rewrite length_app. lia.
  - rewrite round_events_reserve by done. apply autosave_off. simpl. lia.
Qed.

Lemma rounds_static nodes n vb env r vb' env' :
  rounds nodes n (vb, env) = (r, (vb', env')) → static_eq vb vb'.
Proof.
  revert vb env. induction n as [|n IH]; intros vb env.
  { rewrite rounds_0. by intros [= <- <- <-]. }
  rewrite rounds_S. intros H.
  apply bind_inv in H as [([] & [vb1 env1] & H1 & H)|(e & H1 & ->)].
  - apply update_round_frame in H1 as (((Hm & Hc & Ha & Hf) & _) & _).
    apply IH in H as (Hm' & Hc' & Ha' & Hf').
    split_and!; congruence.
  - by apply update_round_frame in H1 as ((? & _) & _).
Qed.

Lemma rounds_reserve k nodes n vb env vb' env' :
  (autosave_iterations vb ≤ 0)%Z →
  rounds nodes n (vb, env) = (Ok tt, (vb', env')) →
  rounds nodes n (reserve k vb, env) = (Ok tt, (reserve k vb', env')).
Proof.
  revert vb env. induction n as [|n IH]; intros vb env Hc.
  { rewrite !rounds_0. by intros [= <- <-]. }
  rewrite !rounds_S. intros H.
  apply bind_ok_inv in H as ([] & [vb1 env1] & H1 & H).
  rewrite (bind_ok _ _ _ _ _ (update_round_reserve k _ _ _ _ _ Hc H1)).
  apply IH; [|done].
  apply update_round_frame in H1 as (((_ & Hc1 & _) & _) & _). lia.
Qed.

Lemma rounds_add nodes j k st :
  rounds nodes (j + k) st = bind (rounds nodes j) (λ _, rounds nodes k) st.
Proof.
  unfold rounds. rewrite seq_app, for_each_app. simpl.
  by rewrite (for_each_const (seq j k) (seq 0 k)) by (by rewrite !length_seq).
Qed.

Lemma update_add nodes j k vb env vb1 env1 :
  (autosave_iterations vb ≤ 0)%Z →
  update nodes j (vb, env) = (Ok tt, (vb1, env1)) →
  update nodes (j + k) (vb, env) = update nodes k (vb1, env1).
Proof.
  intros Hc. rewrite !update_eq. intros H.
  rewrite rounds_add, reserve_add.
  pose proof (rounds_static _ _ _ _ _ _ _ H) as (Hm & _).
  rewrite (bind_ok _ _ _ _ _ (rounds_reserve k _ _ (reserve j vb) _ _ _ Hc H)).
  unfold targets. simpl in Hm. by rewrite Hm.
Qed.

Lemma update_0 nodes st : update nodes 0 st = (Ok tt, st).
Proof.
  destruct st as [vb env]. by rewrite update_eq, rounds_0, reserve_0.
Qed.

End Composition.

(** ** Bounds that are not numbers *)

Section NotANumber.

Lemma SFeqb_irrefl x : SFeqb x x = false → x = S754_nan.
Proof.
  destruct x as [s|s| |s m e]; unfold SFeqb; simpl; try done.
  - by destruct s.
  - rewrite Z.compare_refl, Pos.compare_cont_refl. by destruct s.
Qed.

Lemma is_nan_Prim2SF (x : float) : is_nan x = true → Prim2SF x = S754_nan.
Proof.
  unfold is_nan. rewrite FloatAxioms.eqb_spec. intros H.
  apply SFeqb_irrefl. by destruct (SFeqb _ _).
Qed.

Lemma SFsub_nan prec emax x y :
  x = S754_nan ∨ y = S754_nan → SFsub prec emax x y = S754_nan.
Proof.
  intros [-> | ->]; [done|].
  destruct x as [s|s| |s m e]; simpl; try done; by destruct s.
Qed.

Lemma SFltb_nan x y : x = S754_nan ∨ y = S754_nan → SFltb x y = false.
Proof.
  intros [-> | ->]; [done|].
  by destruct x as [s|s| |s m e].
Qed.

(** Neither check fires when one of the two bounds is not a number. *)
Lemma checks_silent_on_nan (prev Lv : float) :
  is_nan prev = true ∨ is_nan Lv = true →
  warn_events prev Lv = [] ∧ conv_events prev Lv = [].
Proof.
  intros H. unfold warn_events, conv_events.
  rewrite !FloatAxioms.ltb_spec, !FloatAxioms.sub_spec.
  assert (Prim2SF prev = S754_nan ∨ Prim2SF Lv = S754_nan) as H'.
  { destruct H as [H|H]; [left|right]; by apply is_nan_Prim2SF. }
  unfold SF64sub. rewrite !SFsub_nan by tauto.
  rewrite !SFltb_nan; [done|by left|by right].
Qed.

End NotANumber.

(** ** The history of the ledger *)

Section History.

Context {S : Type}.
Implicit Types (st : VB S * Env S) (vb : VB S) (env : Env S).
Implicit Types (node : Node S) (nodes : list (Node S)).

Lemma rounds_history nodes n vb env r vb' env' i :
  rounds nodes n (vb, env) = (r, (vb', env')) →
  i < iter vb →
  (∀ x, L vb !! i = Some x → L vb' !! i = Some x) ∧
  (∀ node x, entry vb node i = Some x → entry vb' node i = Some x).
Proof.
  revert vb env. induction n as [|n IH]; intros vb env.
  { rewrite rounds_0. by intros [= <- <- <-]. }
  rewrite rounds_S. intros H Hi.
  assert (Hround : ∀ r1 vb1 env1,
            update_round nodes (vb, env) = (r1, (vb1, env1)) →
            iter vb ≤ iter vb1 ∧
            (∀ x, L vb !! i = Some x → L vb1 !! i = Some x) ∧
            (∀ node x, entry vb node i = Some x → entry vb1 node i = Some x)).
  { intros r1 vb1 env1 H1.
    apply update_round_frame in H1 as (Hf & _ & Hr). split_and!.
    - destruct r1; lia.
    - intros x Hx. destruct Hf as (_ & (_ & HL) & _). rewrite HL; [done|lia].
    - intros node x. apply (entry_frame (iter vb)); [done|lia]. }
  apply bind_inv in H as [([] & [vb1 env1] & H1 & H)|(e & H1 & ->)].
  - destruct (Hround _ _ _ H1) as (Hle & HL & Hl).
    destruct (IH _ _ H) as (HL' & Hl'); [lia|]. split; eauto.
  - by destruct (Hround _ _ _ H1) as (_ & HL & Hl).
Qed.

Lemma update_history nodes k vb env r vb' env' i :
  update nodes k (vb, env) = (r, (vb', env')) →
  i < iter vb →
  (∀ x, L vb !! i = Some x → L vb' !! i = Some x) ∧
  (∀ node x, entry vb node i = Some x → entry vb' node i = Some x).
Proof.
  rewrite update_eq. intros H Hi.
  destruct (rounds_history _ _ _ _ _ _ _ i H Hi) as (HL & Hl). split.
  - intros x Hx. apply HL. simpl. by apply lookup_app_l_Some.
  - intros node x Hx. apply Hl. revert Hx. unfold entry. simpl.
    rewrite lookup_fmap. destruct (l vb !! node_id node) as [s|]; [|done].
    simpl. by apply lookup_app_l_Some.
Qed.


End History.

(** ** The lines that [update] prints *)

Section Lines.

Context {S : Type}.
Implicit Types (st : VB S * Env S) (vb : VB S) (env : Env S).
Implicit Types (node : Node S) (nodes : list (Node S)).

Lemma iteration_lines_app evs1 evs2 :
  iteration_lines (evs1 ++ evs2) = iteration_lines evs1 ++ iteration_lines evs2.
Proof. apply omap_app. Qed.

Lemma iteration_lines_progress vb Lv :
  iteration_lines (progress_events vb Lv) = [].
Proof.
  unfold progress_events. destruct (0 <? iter vb)%nat; [|done].
  destruct (L vb !! (iter vb - 1)) as [prev|]; [|done].
  unfold warn_events, conv_events. by repeat case_match.
Qed.

Lemma iteration_lines_round vb Lv :
  iteration_lines
    (round_events vb Lv ++
     (if autosave_due vb then [PrintAutoSaved (autosave_filename vb)] else []))
  = [(iter vb + 1, Lv)].
Proof.
  unfold round_events. rewrite iteration_lines_app.
  change (iteration_lines (PrintIteration (iter vb + 1) Lv :: progress_events vb Lv))
    with ((iter vb + 1, Lv) :: iteration_lines (progress_events vb Lv)).
  rewrite iteration_lines_progress. by destruct (autosave_due vb).
Qed.

Lemma rounds_lines nodes n vb env vb' env' :
  rounds nodes n (vb, env) = (Ok tt, (vb', env')) →
  ∃ evs, out env' = out env ++ evs ∧
         (iteration_lines evs).*1 = seq (iter vb + 1) n ∧
         (iteration_lines evs).*2 = take n (drop (iter vb) (L vb')).
Proof.
  revert vb env. induction n as [|n IH]; intros vb env.
  { rewrite rounds_0. intros [= <- <-]. exists []. by rewrite app_nil_r. }
  rewrite rounds_S. intros H.
  apply bind_ok_inv in H as ([] & [vb1 env1] & H1 & H).
  apply update_round_ok_effects in H1 as (Lv & HL & Hi & Hlt & Ho & _).
  assert (L vb' !! iter vb = Some Lv) as HLv.
  { apply (rounds_history _ _ _ _ _ _ _ (iter vb) H); [lia|].
    rewrite HL. by apply list_lookup_insert_eq. }
  apply IH in H as (evs & Ho' & Hn & Hb).
  eexists. rewrite Ho', Ho, <- app_assoc. split; [done|].
  rewrite iteration_lines_app, iteration_lines_round, !fmap_app, Hn, Hb, Hi.
  simpl. split.
  - do 2 f_equal. lia.
  - rewrite (drop_S _ _ _ HLv). simpl. do 3 f_equal. lia.
Qed.

End Lines.

(** ** Loops in which every call has returned *)

Section Tight.

Context {S : Type}.
Implicit Types (st : VB S * Env S) (vb : VB S) (env : Env S).
Implicit Types (node : Node S) (nodes : list (Node S)).

Lemma run_calls_tight (calls : list (list (Node S) * nat)) vb env vb' env' :
  ledger_shape vb → tight vb →
  run_calls calls (vb, env) = (Ok tt, (vb', env')) →
  ledger_shape vb' ∧ tight vb' ∧ model vb' = model vb ∧
  iter vb' = iter vb + sum_list (calls.*2).
Proof.
  revert vb env. induction calls as [|[nodes k] calls IH]; intros vb env Hsh Ht.
  { intros [= <- <-]. simpl. split_and!; try done; lia. }
  unfold run_calls. simpl. intros H.
  apply bind_ok_inv in H as ([] & [vb1 env1] & H1 & H).
  apply update_spec in H1 as (Hsh1 & (Hm & _) & Hlen & _ & Hi); [|done].
  simpl in Hi, H.
  apply IH in H as (Hsh' & Ht' & Hm' & Hi'); [|done|unfold tight in *; lia].
  split_and!; try done; [congruence|].
  rewrite Hi', Hi, <- Nat.add_assoc. reflexivity.
Qed.

Lemma fresh_tight nodes c fn tmpdir date rnd :
  tight (fresh nodes c fn tmpdir date rnd).
Proof. done. Qed.


Lemma plot_columns_raises nodes n columns legends vb env node s :
  (∀ n0, n0 ∈ nodes → is_Some (l vb !! node_id n0)) →
  node ∈ nodes →
  l vb !! node_id node = Some s → length s ≠ n → length s ≠ 1 →
  plot_columns nodes n columns legends (vb, env) = (Raise ValueError, (vb, env)).
Proof.
  intros Hall Hin Hl Hn H1. revert columns legends.
  induction nodes as [|n0 nodes IH]; intros columns legends.
  { by apply elem_of_nil in Hin. }
  destruct (Hall n0 ltac:(by left)) as [s0 Hs0].
  simpl. unfold bind at 1. unfold getitem_l, bind at 1, get_self. simpl.
  rewrite Hs0. simpl. unfold bind at 1, assign_column.
  assert (Hbad : ∀ t : list float, length t ≠ n → length t ≠ 1 →
            (if (length t =? n)%nat then ret t
             else match t with
                  | [x] => ret (replicate n x)
                  | _ => raise ValueError
                  end) (vb, env) = (Raise (A:=list float) ValueError, (vb, env))).
  { intros t Ht1 Ht2. apply Nat.eqb_neq in Ht1. rewrite Ht1.
    by destruct t as [|x [|y t]]. }
  apply elem_of_cons in Hin as [->|Hin].
  { assert (s0 = s) as -> by congruence. by rewrite Hbad. }
  destruct (decide (length s0 = n)) as [Heq|Hne].
  - rewrite Heq, Nat.eqb_refl. simpl. apply IH; [|done].
    intros n1 Hn1. apply Hall. by right.
  - apply Nat.eqb_neq in Hne. rewrite Hne.
    destruct s0 as [|x [|y s0]]; simpl; try done.
    apply IH; [|done]. intros n1 Hn1. apply Hall. by right.
Qed.

End Tight.

(** ** What no call changes *)

Section Configuration.

Context {S : Type}.
Implicit Types (st : VB S * Env S) (vb : VB S) (env : Env S).
Implicit Types (node : Node S) (nodes : list (Node S)).

Lemma static_eq_refl vb : static_eq vb vb.
Proof. done. Qed.

Lemma static_eq_trans vb1 vb2 vb3 :
  static_eq vb1 vb2 → static_eq vb2 vb3 → static_eq vb1 vb3.
Proof.
  intros (? & ? & ? & ?) (? & ? & ? & ?). split_and!; congruence.
Qed.

Lemma keys_static vb vb' :
  model vb' = model vb →
  (∀ k, is_Some (l vb' !! k) ↔ is_Some (l vb !! k)) →
  keys_are_model vb → keys_are_model vb'.
Proof. intros Hm Hk H k. by rewrite Hk, Hm. Qed.

Lemma ledger_frame_keys i vb vb' :
  ledger_frame i vb vb' → ∀ k, is_Some (l vb' !! k) ↔ is_Some (l vb !! k).
Proof.
  intros (_ & _ & Hl) k. specialize (Hl k).
  destruct Hl; split; intros [? ?]; done || eauto.
Qed.

Lemma reserve_keys n vb k : is_Some (l (reserve n vb) !! k) ↔ is_Some (l vb !! k).
Proof. simpl. rewrite lookup_fmap. apply fmap_is_Some. Qed.

Lemma rounds_keys nodes n vb env r vb' env' :
  rounds nodes n (vb, env) = (r, (vb', env')) →
  ∀ k, is_Some (l vb' !! k) ↔ is_Some (l vb !! k).
Proof.
  revert vb env. induction n as [|n IH]; intros vb env.
  { rewrite rounds_0. by intros [= <- <- <-]. }
  rewrite rounds_S. intros H k.
  apply bind_inv in H as [([] & [vb1 env1] & H1 & H)|(e & H1 & ->)].
  - apply update_round_frame in H1 as (Hf & _).
    rewrite (IH _ _ H k). by apply (ledger_frame_keys _ _ _ Hf).
  - apply update_round_frame in H1 as (Hf & _).
    by apply (ledger_frame_keys _ _ _ Hf).
Qed.

Lemma update_keys nodes n vb env r vb' env' :
  update nodes n (vb, env) = (r, (vb', env')) →
  static_eq vb vb' ∧ ∀ k, is_Some (l vb' !! k) ↔ is_Some (l vb !! k).
Proof.
  rewrite update_eq. intros H. split.
  - by apply rounds_static in H.
  - intros k. rewrite (rounds_keys _ _ _ _ _ _ _ H k). apply reserve_keys.
Qed.

Lemma load_terms_keys (ck : H5File) nodes vb env r vb' env' :
  for_each nodes (λ node,
    bind (h5_get (h5_boundterms ck)) (λ b,
    bind (h5_get (b !! name node)) (λ s,
    bind get_self (λ vb,
    set_self (set_l (<[node_id node := s]> (l vb)))))))
    (vb, env) = (r, (vb', env')) →
  static_eq vb vb' ∧
  ∀ k, (is_Some (l vb !! k) → is_Some (l vb' !! k)) ∧
       (is_Some (l vb' !! k) →
        is_Some (l vb !! k) ∨ k ∈ node_id <$> nodes).
Proof.
  revert vb env. induction nodes as [|n0 nodes IH]; intros vb env.
  { intros [= <- <- <-]. split; [done|]. intros k. split; eauto. }
  simpl.
  match goal with |- bind ?m _ _ = _ → _ => set (head := m) end.
  assert (head (vb, env) = (Raise KeyError, (vb, env)) ∨
          ∃ s, head (vb, env)
               = (Ok tt, (set_l (<[node_id n0 := s]> (l vb)) vb, env)))
    as [Hhead|(s & Hhead)].
  { subst head. unfold bind, h5_get, get_self, set_self.
    destruct (h5_boundterms ck) as [b|] eqn:Eb; [|by left]. simpl.
    destruct (b !! name n0) as [s|] eqn:Es; [|by left]. simpl.
    right. by exists s. }
  { rewrite (bind_raise _ _ _ _ _ Hhead). intros [= <- <- <-].
    split; [done|]. intros k. split; eauto. }
  rewrite (bind_ok _ _ _ _ _ Hhead). intros H.
  apply IH in H as (Hst & Hk). split; [done|]. intros k.
  destruct (Hk k) as [Hk1 Hk2]. simpl in Hk1, Hk2. split.
  - intros Hs. apply Hk1. rewrite lookup_insert_is_Some'. by right.
  - intros Hs. apply Hk2 in Hs as [Hs|Hs].
    + apply lookup_insert_is_Some' in Hs as [<-|Hs]; [|by left].
      right. by left.
    + right. by right.
Qed.

Lemma h5_open_r_same p st (r : Res H5File) st' :
  h5_open_r p st = (r, st') → st' = st.
Proof. unfold h5_open_r. destruct (files st.2 !! p); by intros [= <- <-]. Qed.

Lemma h5_get_same {A} (o : option A) st (r : Res A) st' :
  h5_get o st = (r, st') → st' = st.
Proof. destruct o; by intros [= <- <-]. Qed.

Lemma load_from_keys (refs : list (NodeRef S)) p vb env r vb' env' :
  load_from refs p (vb, env) = (r, (vb', env')) →
  static_eq vb vb' ∧ (keys_are_model vb → keys_are_model vb').
Proof.
  intros H. unfold load_from in H.
  apply bind_inv in H as [(h5f & [vb1 env1] & H1 & H)|(e & H1 & _)].
  2:{ by apply h5_open_r_same in H1 as [= -> ->]. }
  apply h5_open_r_same in H1 as [= -> ->].
  apply bind_inv in H as [(vb1 & st1 & H1 & H)|(e & [=] & _)].
  injection H1 as <- <-.
  apply bind_inv in H as [(nodes & [vb1 env2] & H1 & H)|(e & H1 & _)].
  2:{ apply (resolve_refs_self_kept refs vb) in H1.
      unfold self_kept in H1. simpl in H1. by subst. }
  apply (resolve_refs_self_kept refs vb) in H1.
  unfold self_kept in H1. simpl in H1. subst vb1.
  apply bind_inv in H as [([] & [vb1 env3] & H1 & H)|(e & H1 & _)].
  2:{ revert H1. match goal with |- ?m _ = _ → _ =>
        assert (Hp : preserves self_kept m) by pres end.
      intros H1. apply Hp in H1. unfold self_kept in H1. simpl in H1. by subst. }
  assert (vb1 = vb) as ->.
  { revert H1. match goal with |- ?m _ = _ → _ =>
      assert (Hp : preserves self_kept m) by pres end.
    intros H1. apply (Hp _ _ _ H1). }
  clear H1.
  apply bind_inv in H as [(a & st & Ha & H)|(e & Ha & _)].
  2:{ by apply h5_get_same in Ha as [= -> ->]. }
  apply h5_get_same in Ha as ->.
  apply bind_inv in H as [([] & st & H1 & H)|(e & [=] & _)]. injection H1 as <-.
  apply bind_inv in H as [(i & st & Hi & H)|(e & Hi & _)].
  2:{ by apply h5_get_same in Hi as [= -> ->]. }
  apply h5_get_same in Hi as ->.
  apply bind_inv in H as [([] & st & H1 & H)|(e & [=] & _)]. injection H1 as <-.
  apply bind_inv in H as [(vb2 & st & H1 & H)|(e & [=] & _)].
  injection H1 as <- <-. simpl in H.
  apply load_terms_keys in H as (Hst & Hk). split.
  - by destruct Hst as (? & ? & ? & ?).
  - intros Hkeys k. destruct Hst as (Hm & _). simpl in Hm. rewrite Hm.
    destruct (Hk k) as [Hk1 Hk2]. simpl in Hk1, Hk2. split.
    + intros Hs. apply Hk2 in Hs as [Hs|Hs]; [by apply Hkeys|done].
    + intros Hin. by apply Hk1, Hkeys.
Qed.

Lemma resolve_filename_same o vb env r st' :
  resolve_filename o (vb, env) = (r, st') → st' = (vb, env).
Proof.
  unfold resolve_filename, bind, get_self. simpl.
  repeat case_match; by intros [= <- <-].
Qed.

Lemma plot_columns_self_kept nodes n columns legends :
  preserves self_kept (plot_columns (S:=S) nodes n columns legends).
Proof.
  revert columns legends. induction nodes as [|node nodes IH];
    intros columns legends; simpl; [pres|].
  pres_apply preserves_bind; [pres|]. intros s.
  pres_apply preserves_bind; [unfold assign_column; pres|]. intros c.
  apply IH.
Qed.

Lemma run_call_keys (c : Call) vb env r vb' env' :
  run_call c (vb, env) = (r, (vb', env')) →
  static_eq vb vb' ∧ (keys_are_model vb → keys_are_model vb').
Proof.
  assert (Hself : ∀ m : M S unit, preserves self_kept m →
            m (vb, env) = (r, (vb', env')) →
            static_eq vb vb' ∧ (keys_are_model vb → keys_are_model vb')).
  { intros m Hp H. apply Hp in H. unfold self_kept in H. simpl in H.
    by subst. }
  destruct c as [nodes n|fn|refs fn|ref| |]; simpl.
  - intros H. apply update_keys in H as [Hst Hk]. split; [done|].
    destruct Hst as (Hm & _). by apply keys_static.
  - apply Hself, save_self_kept.
  - unfold load. intros H.
    apply bind_inv in H as [(p & st & H1 & H)|(e & H1 & _)].
    + apply resolve_filename_same in H1 as ->. by apply load_from_keys in H.
    + apply resolve_filename_same in H1 as [= <- <-]. done.
  - apply Hself. pres_apply preserves_bind; [apply getitem_self_kept|].
    intros _. pres.
  - apply Hself. unfold get_iteration_by_nodes. pres.
  - apply Hself. unfold plot_iteration_by_nodes.
    pres_apply preserves_bind; [|intros _; pres].
    pres_apply preserves_bind; [pres|]. intros vb0. cbv zeta.
    pres_apply preserves_bind; [apply plot_columns_self_kept|]. intros x. pres.
Qed.

Lemma fresh_keys nodes c fn tmpdir date rnd :
  keys_are_model (fresh nodes c fn tmpdir date rnd).
Proof.
  intros k. split.
  - intros [s Hs]. simpl in *. apply elem_of_list_to_map_2 in Hs.
    apply list_elem_of_fmap in Hs as (n & [= -> _] & Hn).
    apply list_elem_of_fmap. eauto.
  - intros Hin. simpl in Hin. apply list_elem_of_fmap in Hin as (n & -> & Hn).
    rewrite (fresh_series nodes c fn tmpdir date rnd n Hn). eauto.
Qed.

Lemma in_use_keys st :
  in_use st → keys_are_model st.1 ∧ NoDup (node_id <$> model st.1).
Proof.
  induction 1 as [nodes c fn tmpdir date rnd vb env H|st c r st' _ IH H].
  - rewrite init_eq in H. injection H as <-.
    split; [apply fresh_keys|apply unique_NoDup].
  - destruct st as [vb env], st' as [vb' env'], IH as [Hk Hnd].
    apply run_call_keys in H as [(Hm & _) Hk']. simpl in *.
    split; [by apply Hk'|by rewrite Hm].
Qed.

Lemma driven_keys st st' :
  driven st st' →
  static_eq st.1 st'.1 ∧ (keys_are_model st.1 → keys_are_model st'.1).
Proof.
  induction 1 as [st|[vb env] c r [vb1 env1] st2 H _ [IHs IHk]]; [done|].
  apply run_call_keys in H as [Hs Hk]. simpl in *. split.
  - by apply (static_eq_trans _ vb1).
  - intros Hkeys. by apply IHk, Hk.
Qed.

End Configuration.


(** ** What [save] and [load] leave alone *)

Section SaveLoadFrames.

Context {S : Type}.
Implicit Types (st : VB S * Env S) (vb : VB S) (env : Env S).

Lemma load_files_out_kept (refs : list (NodeRef S)) fn vb env r vb' env' :
  load refs fn (vb, env) = (r, (vb', env')) →
  files env' = files env ∧ out env' = out env.
Proof.
  unfold load. intros H.
  apply bind_inv in H as [(p & st & H1 & H)|(e & H1 & _)].
  - apply resolve_filename_same in H1 as ->. split.
    + apply (load_from_files_kept _ _ _ _ _ H).
    + apply (load_from_out_kept _ _ _ _ _ H).
  - by apply resolve_filename_same in H1 as [= <- <-].
Qed.

End SaveLoadFrames.

(** ** What a call of [update] prints, round by round *)

Section Output.

Context {S : Type}.
Implicit Types (st : VB S * Env S) (vb : VB S) (env : Env S).
Implicit Types (node : Node S) (nodes : list (Node S)).

Lemma round_lines_events vb Lv a :
  iter vb < length (L vb) →
  a !! iter vb = Some Lv →
  (0 < iter vb → a !! (iter vb - 1) = L vb !! (iter vb - 1)) →
  round_lines a (iter vb) = round_events vb Lv.
Proof.
  intros Hlt HLv Hprev. unfold round_lines, round_events, progress_events.
  rewrite HLv. f_equal.
  destruct (0 <? iter vb)%nat eqn:E; [|done].
  apply Nat.ltb_lt in E. by rewrite Hprev.
Qed.

Lemma call_output_ext c fn a a' from n :
  (∀ i, i < from + n → a' !! i = a !! i) →
  call_output c fn a' from n = call_output c fn a from n.
Proof.
  intros Hext. unfold call_output.
  assert (∀ i, i ∈ seq from n → round_lines a' i = round_lines a i) as Hr.
  { intros i [Hi Hi']%elem_of_seq. unfold round_lines.
    rewrite (Hext i) by lia. destruct (a !! i); [|done].
    destruct (0 <? i)%nat eqn:E; [|done]. apply Nat.ltb_lt in E.
    by rewrite (Hext (i - 1)) by lia. }
  induction (seq from n) as [|i rest IH]; [done|]. simpl.
  rewrite Hr by left. rewrite IH; [done|].
  intros j Hj. apply Hr. by right.
Qed.

Lemma rounds_output nodes n vb env vb' env' :
  rounds nodes n (vb, env) = (Ok tt, (vb', env')) →
  iter vb' = iter vb + n ∧
  out env' = out env ++ call_output (autosave_iterations vb)
                          (autosave_filename vb) (L vb') (iter vb) n.
Proof.
  revert vb env. induction n as [|n IH]; intros vb env.
  { rewrite rounds_0. intros [= <- <-]. unfold call_output. simpl.
    by rewrite app_nil_r, Nat.add_0_r. }
  rewrite rounds_S. intros H.
  apply bind_ok_inv in H as ([] & [vb1 env1] & H1 & H).
  pose proof (update_round_frame _ _ _ _ _ _ H1) as (((_ & Hc & Hfn & _) & _) & _).
  apply update_round_ok_effects in H1 as (Lv & HL & Hi & Hlt & Ho & _).
  assert (∀ i x, i ≤ iter vb → L vb1 !! i = Some x → L vb' !! i = Some x)
    as Hkeep.
  { intros i x Hle. apply (rounds_history _ _ _ _ _ _ _ i H). lia. }
  assert (L vb' !! iter vb = Some Lv) as HLv.
  { apply Hkeep; [done|]. rewrite HL. by apply list_lookup_insert_eq. }
  assert (0 < iter vb → L vb' !! (iter vb - 1) = L vb !! (iter vb - 1))
    as Hprev.
  { intros H0. destruct (lookup_lt_is_Some_2 (L vb) (iter vb - 1)) as [x Hx];
      [lia|]. rewrite Hx. apply Hkeep; [lia|].
    rewrite HL, list_lookup_insert_ne by lia. done. }
  apply IH in H as (Hi' & Ho'). split; [lia|].
  rewrite Ho', Ho, Hc, Hfn, Hi. unfold call_output. simpl.
  rewrite (round_lines_events vb Lv) by done.
  rewrite autosave_due_round.
  replace (Datatypes.S (iter vb)) with (iter vb + 1) by lia.
  unfold round_events. rewrite <- ?app_assoc. simpl.
  rewrite <- ?app_assoc. reflexivity.
Qed.



Lemma call_output_lines c fn a from n :
  from + n ≤ length a →
  (iteration_lines (call_output c fn a from n)).*1 = seq (from + 1) n.
Proof.
  revert from. induction n as [|n IH]; intros from Hle; [done|].
  unfold call_output. simpl. rewrite !iteration_lines_app, !fmap_app.
  fold (call_output c fn a (Datatypes.S from) n).
  rewrite IH by lia.
  destruct (lookup_lt_is_Some_2 a from) as [Lv HLv]; [lia|].
  unfold round_lines. rewrite HLv.
  assert (∀ evs, (iteration_lines (PrintIteration (from + 1) Lv :: evs))
                 = (from + 1, Lv) :: iteration_lines evs) as Hcons by done.
  rewrite Hcons.
  assert (iteration_lines
            (if (0 <? from)%nat
             then match a !! (from - 1) with
                  | Some prev => warn_events prev Lv ++ conv_events prev Lv
                  | None => []
                  end
             else []) = []) as ->.
  { destruct (0 <? from)%nat; [|done]. destruct (a !! (from - 1)); [|done].
    unfold warn_events, conv_events. by repeat case_match. }
  assert (iteration_lines (if due_round c (from + 1)
                           then [PrintAutoSaved fn] else []) = []) as ->.
  { by destruct (due_round c (from + 1)). }
  simpl. by replace (Datatypes.S from + 1) with (Datatypes.S (from + 1)) by lia.
Qed.



End Output.

(** ** A failing round fails the call *)

Section Propagation.

Context {S : Type}.
Implicit Types (st : VB S * Env S) (vb : VB S) (env : Env S).
Implicit Types (node : Node S) (nodes : list (Node S)).

Lemma rounds_raise nodes j k st st1 e st' :
  j < k →
  rounds nodes j st = (Ok tt, st1) →
  update_round nodes st1 = (Raise e, st') →
  rounds nodes k st = (Raise e, st').
Proof.
  intros Hj H1 H2.
  replace k with (j + Datatypes.S (k - j - 1)) by lia.
  rewrite rounds_add, (bind_ok _ _ _ _ _ H1), rounds_S.
  by apply bind_raise.
Qed.

Lemma update_raise nodes j k vb env st1 e st' :
  j < k →
  rounds (targets nodes vb) j (reserve k vb, env) = (Ok tt, st1) →
  update_round (targets nodes vb) st1 = (Raise e, st') →
  update nodes k (vb, env) = (Raise e, st').
Proof. rewrite update_eq. apply rounds_raise. Qed.

Lemma compute_bound_raise nodes st :
  (∀ e st1, update_nodes nodes st = (Raise e, st1) →
     compute_bound nodes st = (Raise e, st1)) ∧
  (∀ e st1 st2, update_nodes nodes st = (Ok tt, st1) →
     loglikelihood_lowerbound st1 = (Raise e, st2) →
     compute_bound nodes st = (Raise e, st2)).
Proof.
  split.
  - intros e st1 H. unfold compute_bound. by apply bind_raise.
  - intros e st1 st2 H1 H2. unfold compute_bound.
    by rewrite (bind_ok _ _ _ _ _ H1).
Qed.

End Propagation.

(** ** The sum of the contributions *)

Section OwnLedger.

Context {S : Type}.
Implicit Types (st : VB S * Env S) (vb : VB S) (env : Env S).
Implicit Types (node : Node S) (nodes : list (Node S)).

Lemma loglikelihood_lowerbound_ok vb env Lv vb' env' :
  NoDup (node_id <$> model vb) →
  loglikelihood_lowerbound (vb, env) = (Ok Lv, (vb', env')) →
  ∃ vs, contributions (model vb) (node_state env) = (Ok vs, node_state env') ∧
        Forall2 (λ node v, entry vb' node (iter vb) = Some v) (model vb) vs ∧
        Lv = py_sum vs.
Proof.
  intros Hnd H. unfold loglikelihood_lowerbound, bind, get_self in H.
  simpl in H. by apply lowerbound_loop_ok in H.
Qed.

Lemma update_round_sum nodes vb env vb' env' :
  NoDup (node_id <$> model vb) →
  update_round nodes (vb, env) = (Ok tt, (vb', env')) →
  ∃ env1 vs s2,
    update_nodes nodes (vb, env) = (Ok tt, (vb, env1)) ∧
    contributions (model vb) (node_state env1) = (Ok vs, s2) ∧
    Forall2 (λ node v, entry vb' node (iter vb) = Some v) (model vb) vs ∧
    L vb' !! iter vb = Some (py_sum vs).
Proof.
  intros Hnd H.
  apply update_round_ok_inv in H as (Lv & vb1 & env1 & Hc & _ & -> & Hlt).
  unfold compute_bound in Hc.
  apply bind_ok_inv in Hc as ([] & [vb0 env0] & Hu & Hl).
  pose proof (update_nodes_self_kept _ _ _ _ Hu) as Hs.
  unfold self_kept in Hs. simpl in Hs. subst vb0.
  apply loglikelihood_lowerbound_ok in Hl as (vs & Hcs & Hall & ->); [|done].
  exists env0, vs, (node_state env1). split_and!; try done.
  simpl. by apply list_lookup_insert_eq.
Qed.

Lemma run_call_self_kept (c : Call) vb env r vb' env' :
  is_load c = false →
  run_call c (vb, env) = (r, (vb', env')) →
  (∃ nodes k, c = CallUpdate nodes k) ∨ vb' = vb.
Proof.
  intros Hc.
  assert (Hself : ∀ m : M S unit, preserves self_kept m →
            m (vb, env) = (r, (vb', env')) →
            (∃ nodes k, c = CallUpdate nodes k) ∨ vb' = vb).
  { intros m Hp H. apply Hp in H. by right. }
  destruct c as [nodes n|fn|refs fn|ref| |]; simpl; try done.
  - intros _. left. eauto.
  - apply Hself, save_self_kept.
  - apply Hself. pres_apply preserves_bind; [apply getitem_self_kept|].
    intros _. pres.
  - apply Hself. unfold get_iteration_by_nodes. pres.
  - apply Hself. unfold plot_iteration_by_nodes.
    pres_apply preserves_bind; [|intros _; pres].
    pres_apply preserves_bind; [pres|]. intros vb0. cbv zeta.
    pres_apply preserves_bind; [apply plot_columns_self_kept|]. intros x. pres.
Qed.

Lemma own_ledger_sum_consistent st :
  own_ledger st → ledger_shape st.1 ∧ sum_consistent st.1.
Proof.
  induction 1 as [nodes c fn tmpdir date rnd vb env H
                 |[vb env] c r [vb' env'] _ [Hsh Hsum] Hc H].
  - rewrite init_eq in H. injection H as <-. split; [apply fresh_shape|].
    intros i Hi. simpl in Hi. lia.
  - simpl in *.
    destruct (run_call_self_kept _ _ _ _ _ _ Hc H) as [(nodes & k & ->)| ->];
      [|done].
    simpl in H. split.
    + by apply update_spec in H as (? & _).
    + rewrite update_eq in H.
      eapply sum_consistent_rounds; [| |exact H].
      * by apply shape_reserve.
      * by apply sum_consistent_reserve.
Qed.

Lemma float_eqb_refl (x : float) :
  is_nan x = false → (x =? x)%float = true.
Proof. unfold is_nan. by intros ->%negb_false_iff. Qed.

End OwnLedger.

(** ** The float comparison of a bound with the sum, and ledgers read back *)

Section SumAsFloats.

Context {S : Type}.
Implicit Types (st : VB S * Env S) (vb : VB S) (env : Env S).
Implicit Types (node : Node S) (nodes : list (Node S)).

Lemma sum_consistent_float vb i :
  sum_consistent vb → i < iter vb →
  ∃ vs x,
    Forall2 (λ node v, entry vb node i = Some v) (model vb) vs ∧
    L vb !! i = Some x ∧ x = py_sum vs ∧
    (is_nan x = false → (x =? py_sum vs)%float = true).
Proof.
  intros Hsum Hi. destruct (Hsum i Hi) as (vs & Hall & HL).
  exists vs, (py_sum vs). split_and!; try done. apply float_eqb_refl.
Qed.

Lemma Forall2_impl_elem {A B} (P Q : A → B → Prop) (xs : list A) (ys : list B) :
  (∀ x y, x ∈ xs → P x y → Q x y) → Forall2 P xs ys → Forall2 Q xs ys.
Proof.
  intros Himp Hall. induction Hall as [|x y xs ys Hxy Hall IH]; [done|].
  constructor.
  - apply Himp; [by left|done].
  - apply IH. intros x' y' Hin. apply Himp. by right.
Qed.

Lemma sum_consistent_ext vb vb' :
  model vb' = model vb → L vb' = L vb → iter vb' = iter vb →
  (∀ node, node ∈ model vb → l vb' !! node_id node = l vb !! node_id node) →
  sum_consistent vb → sum_consistent vb'.
Proof.
  intros Hm HL Hi Hl Hsum i Hlt. rewrite Hi in Hlt.
  destruct (Hsum i Hlt) as (vs & Hall & HLi). exists vs.
  rewrite Hm, HL. split; [|done].
  eapply Forall2_impl_elem; [|exact Hall].
  intros node v Hin. unfold entry. by rewrite (Hl node Hin).
Qed.

Lemma load_restores_ledger p (refs : list (NodeRef S))
    vb vb1 vb2 vb3 env env1 env2 env3 :
  p ≠ "" →
  NoDup (node_id <$> model vb) →
  save (Some p) (vb, env) = (Ok tt, (vb1, env1)) →
  model vb2 = model vb →
  files env2 !! p = files env1 !! p →
  load refs (Some p) (vb2, env2) = (Ok tt, (vb3, env3)) →
  model vb3 = model vb ∧ L vb3 = L vb ∧ iter vb3 = iter vb ∧
  ∀ node, node ∈ model vb → l vb3 !! node_id node = l vb !! node_id node.
Proof.
  intros Hp Hnd Hsave Hm Hfile Hload.
  rewrite save_explicit in Hsave by done. rewrite load_explicit in Hload by done.
  apply save_to_layout in Hsave
    as (-> & _ & ck & Hck & HL & Hi & (b & Hb & Hterms & _) & _).
  rewrite Hck in Hfile.
  destruct (load_from_ok _ _ _ _ _ _ _ Hfile Hload)
    as ((Hm' & _) & HL' & Hi' & _ & Hl').
  rewrite Hm in Hl'. split_and!; [congruence|congruence|congruence|].
  intros node Hin. destruct (Hl' Hnd node Hin) as (b' & s & Hb' & Hs & ->).
  destruct (Hterms node Hin) as (s0 & -> & Hs0). congruence.
Qed.

End SumAsFloats.

(** * The claims *)

Section ProgressChecks.

Context {S : Type}.
Implicit Types (st : VB S * Env S) (vb : VB S) (env : Env S).
Implicit Types (node : Node S) (nodes : list (Node S)).

(** C10.  In a round that is not the first, when the bound just computed is
    below the previous recorded bound by more than 1e-6, the convergence
    test holds as well, and the round prints both the warning and
    "Converged.", one after the other, whatever the round does next. *)
Theorem decrease_warns_and_converges nodes vb env Lv vb1 env1 prev r st' :
  0 < iter vb →
  L vb !! (iter vb - 1) = Some prev →
  compute_bound nodes (vb, env) = (Ok Lv, (vb1, env1)) →
  (warn_tol <? prev - Lv)%float = true →
  update_round nodes (vb, env) = (r, st') →
  (Lv - prev <? conv_tol)%float = true ∧
  (out env ++ [PrintIteration (iter vb + 1) Lv;
               WarnDecreased (prev - Lv)%float;
               PrintConverged]) `prefix_of` out st'.2.
Proof.
  intros H0 Hprev Hc Hw Hr.
  pose proof (decrease_below_conv_tol _ _ Hw) as Hconv. split; [done|].
  apply (update_round_out _ _ _ _ _ _ _ _ Hc) in Hr.
  - revert Hr. rewrite (round_events_later _ _ _ H0 Hprev).
    unfold warn_events, conv_events. by rewrite Hw, Hconv.
  - apply lookup_lt_Some in Hprev. lia.
Qed.

End ProgressChecks.

Lemma decrease_warns_and_converges_witness :
  (1.0 - 2.0 <? conv_tol)%float = true ∧
  (out Examples.D2.2 ++ [PrintIteration (iter Examples.D2.1 + 1) 1.0%float;
                         WarnDecreased (2.0 - 1.0)%float;
                         PrintConverged])
    `prefix_of` out (update_round [Examples.D] Examples.D2).2.2.
Proof.
  apply (decrease_warns_and_converges [Examples.D] Examples.D2.1 Examples.D2.2
           1.0%float Examples.D2_bound.2.1 Examples.D2_bound.2.2 2.0%float
           (update_round [Examples.D] Examples.D2).1).
  - vm_compute. lia.
  - vm_compute. reflexivity.
  - vm_compute. reflexivity.
  - vm_compute. reflexivity.
  - vm_compute. reflexivity.
Defined.







(** C3.  What the constructor does with two nodes of one name: over [X1] and
    [X2], distinct nodes both named "x", it raises nothing and returns a
    loop whose model holds both, and that loop runs a round. *)
Theorem init_accepts_duplicate_names :
  ∃ vb : VB nat,
    __init__ [Examples.X1; Examples.X2] 0 None "/tmp" "20130101000000" "k3x9"
    = Ok vb ∧
    node_id <$> model vb = [6; 7] ∧
    name <$> model vb = ["x"; "x"] ∧
    (update [] 1 (vb, Examples.env0)).1 = Ok tt ∧
    iter (update [] 1 (vb, Examples.env0)).2.1 = 1.
Proof.
  eexists. split; [apply init_eq|]. split_and!; vm_compute; reflexivity.
Qed.

(** C8.  For a loop as the constructor built it, and after any change that
    leaves its configuration alone: when a non-empty path [f] was given at
    construction, [save()] and [load()] without a path are [save] and [load]
    at [f]; when none was given, the autosave path is the synthesized
    temporary name, and [save()] and [load()] without a path raise
    "Filename must be given." and change nothing; and with a non-empty path
    [p] as argument [save] writes the file at [p] and no other, and [load]
    reads the file at [p], failing when there is none, and writes none: its
    outcome and the loop it leaves are the same whatever the other files
    are. *)
Theorem save_load_path_resolution (S : Type) (nodes : list (Node S)) (c : Z)
    (fn : option string) (tmpdir date rnd : string) (vb0 vb : VB S)
    (env : Env S) :
  __init__ nodes c fn tmpdir date rnd = Ok vb0 →
  static_eq vb0 vb →
  (∀ f, fn = Some f → f ≠ "" →
     save None (vb, env) = save_to f (vb, env) ∧
     ∀ refs, load refs None (vb, env) = load_from refs f (vb, env))
  ∧ (truthy fn = false →
     autosave_filename vb = tmpfile_name tmpdir date rnd ∧
     save None (vb, env)
     = (Raise (PyException "Filename must be given."), (vb, env)) ∧
     ∀ refs, load refs None (vb, env)
             = (Raise (PyException "Filename must be given."), (vb, env)))
  ∧ (∀ p, p ≠ "" →
     save (Some p) (vb, env) = save_to p (vb, env) ∧
     (∀ refs, load refs (Some p) (vb, env) = load_from refs p (vb, env)) ∧
     (∀ r st', save_to p (vb, env) = (r, st') →
        is_Some (files st'.2 !! p) ∧
        ∀ q, q ≠ p → files st'.2 !! q = files env !! q) ∧
     (∀ refs r st', load_from refs p (vb, env) = (r, st') →
        files st'.2 = files env ∧
        (files env !! p = None → r = Raise OSError)) ∧
     (∀ refs env2,
        files env2 !! p = files env !! p →
        node_state env2 = node_state env → out env2 = out env →
        (load_from refs p (vb, env2)).1 = (load_from refs p (vb, env)).1 ∧
        (load_from refs p (vb, env2)).2.1
        = (load_from refs p (vb, env)).2.1)).
Proof.
  rewrite init_eq. intros [= <-] (_ & _ & Haf & Hf). simpl in Haf, Hf.
  split_and!.
  - intros f -> Hne. simpl in Hf. rewrite (eqb_empty_false _ Hne) in Hf.
    simpl in Hf. split.
    + unfold save. by rewrite (bind_ok _ _ _ _ _
        (resolve_filename_default f vb env Hf Hne)).
    + intros refs. unfold load. by rewrite (bind_ok _ _ _ _ _
        (resolve_filename_default f vb env Hf Hne)).
  - intros Hfn. rewrite Hfn in Haf, Hf. split_and!; [done| |].
    + unfold save. by rewrite (bind_raise _ _ _ _ _
        (resolve_filename_missing vb env Hf)).
    + intros refs. unfold load. by rewrite (bind_raise _ _ _ _ _
        (resolve_filename_missing vb env Hf)).
  - intros p Hp. split_and!.
    + by apply save_explicit.
    + intros refs. unfold load.
      by rewrite (bind_ok _ _ _ _ _ (resolve_filename_explicit p (vb, env) Hp)).
    + intros r st' H. split.
      * by apply (save_to_file_exists _ _ _ _ _ H).
      * apply (save_to_files_kept_except _ _ _ _ H).
    + intros refs r st' H. split.
      * apply (load_from_files_kept _ _ _ _ _ H).
      * intros Hnone. rewrite (load_from_missing _ _ _ _ Hnone) in H.
        by injection H as <- <-.
    + intros refs env2 Hfile Hns Hout.
      destruct (load_from_reads_one_file refs p (vb, env2) (vb, env))
        as (Hr & Hvb & _); [by split_and!|done|by split].
Qed.

Lemma save_load_path_resolution_witness :
  save None (Examples.P0.1, Examples.P0.2)
  = save_to "ckpt.h5" (Examples.P0.1, Examples.P0.2) ∧
  ∀ refs, load refs None (Examples.P0.1, Examples.P0.2)
          = load_from refs "ckpt.h5" (Examples.P0.1, Examples.P0.2).
Proof.
  refine (proj1 (save_load_path_resolution nat [Examples.P] 2 (Some "ckpt.h5")
                   "/tmp" "20130101000000" "k3x9"
                   Examples.P0.1 Examples.P0.1 Examples.P0.2 _ _)
            "ckpt.h5" _ _).
  - vm_compute. reflexivity.
  - vm_compute. done.
  - reflexivity.
  - discriminate.
Defined.

(** C2 (as amended).  [loglikelihood_lowerbound] asks every node of the
    whole model for its contribution, in the order of the model, records each
    in the series of its node at the slot of the round, and returns their sum,
    formed from zero by additions from the left.  So the bound that a round
    stores is that sum over the whole model, taken after the updates of the
    round, also when [update] was given some of the nodes only.  And in every
    state of a loop built by the constructor and changed by calls of its
    methods other than [load] (with any arguments and any outcomes), the
    bound recorded for a completed round [i] is the sum of the contributions
    recorded for round [i], one for each node of the model: the very same
    float, which compares equal to the sum with [==] unless it is not a
    number.  A ledger read back by [load] from a file that [save] has written
    from such a state is the ledger saved, and has the same property. *)
Theorem global_bound_is_sum_of_contributions (S : Type) :
  (∀ (vb vb' : VB S) (env env' : Env S) (Lv : float),
     NoDup (node_id <$> model vb) →
     loglikelihood_lowerbound (vb, env) = (Ok Lv, (vb', env')) →
     ∃ vs,
       contributions (model vb) (node_state env) = (Ok vs, node_state env') ∧
       Forall2 (λ node v, entry vb' node (iter vb) = Some v) (model vb) vs ∧
       Lv = py_sum vs)
  ∧ (∀ (nodes : list (Node S)) (vb vb' : VB S) (env env' : Env S),
       NoDup (node_id <$> model vb) →
       update_round nodes (vb, env) = (Ok tt, (vb', env')) →
       ∃ env1 vs s2,
         update_nodes nodes (vb, env) = (Ok tt, (vb, env1)) ∧
         contributions (model vb) (node_state env1) = (Ok vs, s2) ∧
         Forall2 (λ node v, entry vb' node (iter vb) = Some v) (model vb) vs ∧
         L vb' !! iter vb = Some (py_sum vs))
  ∧ (∀ (vb : VB S) (env : Env S) (i : nat),
       own_ledger (vb, env) →
       i < iter vb →
       ∃ vs x,
         Forall2 (λ node v, entry vb node i = Some v) (model vb) vs ∧
         L vb !! i = Some x ∧ x = py_sum vs ∧
         (is_nan x = false → (x =? py_sum vs)%float = true))
  ∧ (∀ (p : string) (refs : list (NodeRef S)) (vb vb1 vb2 vb3 : VB S)
       (env env1 env2 env3 : Env S) (i : nat),
       own_ledger (vb, env) →
       p ≠ "" →
       save (Some p) (vb, env) = (Ok tt, (vb1, env1)) →
       model vb2 = model vb →
       files env2 !! p = files env1 !! p →
       load refs (Some p) (vb2, env2) = (Ok tt, (vb3, env3)) →
       i < iter vb3 →
       ∃ vs x,
         Forall2 (λ node v, entry vb3 node i = Some v) (model vb3) vs ∧
         L vb3 !! i = Some x ∧ x = py_sum vs ∧
         (is_nan x = false → (x =? py_sum vs)%float = true)).
Proof.
  split_and!.
  - intros vb vb' env env' Lv. apply loglikelihood_lowerbound_ok.
  - intros nodes vb vb' env env'. apply update_round_sum.
  - intros vb env i Hown.
    apply own_ledger_sum_consistent in Hown as [_ Hsum].
    by apply sum_consistent_float.
  - intros p refs vb vb1 vb2 vb3 env env1 env2 env3 i Hown Hp Hs Hm Hf Hl.
    apply own_ledger_sum_consistent in Hown as [Hsh Hsum].
    destruct (load_restores_ledger p refs vb vb1 vb2 vb3 env env1 env2 env3)
      as (Hm3 & HL & Hi & Hser); try done; [apply Hsh|].
    apply sum_consistent_float. by apply (sum_consistent_ext vb).
Qed.

Lemma global_bound_is_sum_of_contributions_witness :
  ∃ vs x,
    Forall2 (λ node v, entry Examples.ABs.1 node 1 = Some v)
      (model Examples.ABs.1) vs ∧
    L Examples.ABs.1 !! 1 = Some x ∧ x = py_sum vs ∧
    (is_nan x = false → (x =? py_sum vs)%float = true).
Proof.
  apply (proj1 (proj2 (proj2 (global_bound_is_sum_of_contributions nat)))
           Examples.ABs.1 Examples.ABs.2 1).
  - apply (own_ledger_call Examples.AB0 (CallUpdate [Examples.A] 2)
             (update [Examples.A] 2 Examples.AB0).1
             (Examples.ABs.1, Examples.ABs.2)).
    + apply (own_ledger_init [Examples.A; Examples.B] 0 None
               "/tmp" "20130101000000" "k3x9" Examples.AB0.1 Examples.AB0.2).
      vm_compute. reflexivity.
    + reflexivity.
    + vm_compute. reflexivity.
  - vm_compute. lia.
Defined.

(** C2 fails as stated: over the node [N], whose contribution is not a
    number, the call [update()] returns, and the bound recorded for its round
    does not compare equal to the sum of the contributions recorded for that
    round: both are not a number, which is equal to nothing. *)
Lemma nan_bound_differs_from_its_sum :
  (update [] 1 (Examples.start [Examples.N] 0 None)).1 = Ok tt ∧
  iter Examples.N1.1 = 1 ∧
  model Examples.N1.1 = [Examples.N] ∧
  entry Examples.N1.1 Examples.N 0 = Some nan ∧
  L Examples.N1.1 !! 0 = Some (py_sum [nan]) ∧
  (py_sum [nan] =? py_sum [nan])%float = false.
Proof. split_and!; vm_compute; reflexivity. Qed.

(** C9.  In a round in which an autosave is due and which completes, the
    checkpoint at the autosave path holds the iteration count from before the
    round and the ledger from before the commit, whose slot for this round
    still holds the sentinel, although the bound of the round had been
    computed and printed before the checkpoint was written; the round then
    stores that bound and advances the count. *)
Theorem autosave_checkpoint_precedes_commit (S : Type) (nodes : list (Node S))
    (vb vb' : VB S) (env env' : Env S) :
  ledger_shape vb →
  autosave_filename vb ≠ "" →
  autosave_due vb = true →
  update_round nodes (vb, env) = (Ok tt, (vb', env')) →
  ∃ ck Lv,
    files env' !! autosave_filename vb = Some ck ∧
    h5_iter ck = Some (iter vb) ∧
    h5_L ck = Some (L vb) ∧
    h5_L ck ≫= (.!! iter vb) = Some nan ∧
    out env' = out env ++ round_events vb Lv
                 ++ [PrintAutoSaved (autosave_filename vb)] ∧
    L vb' !! iter vb = Some Lv ∧
    iter vb' = iter vb + 1.
Proof.
  intros Hsh Hne Hdue H.
  apply update_round_ok_effects in H as (Lv & HL & Hi & Hlt & Ho & _ & Hck).
  destruct (Hck Hdue Hne) as [(ck & Hf & HckL & Hcki) _]. simpl in Hf.
  exists ck, Lv. rewrite Hdue in Ho. split_and!; try done.
  - rewrite HckL. simpl. apply Hsh; [done|lia].
  - rewrite HL. by apply list_lookup_insert_eq.
Qed.

Lemma autosave_checkpoint_precedes_commit_witness :
  ∃ ck Lv,
    files (update_round [Examples.P] Examples.P1r).2.2
      !! autosave_filename Examples.P1r.1 = Some ck ∧
    h5_iter ck = Some (iter Examples.P1r.1) ∧
    h5_L ck = Some (L Examples.P1r.1) ∧
    h5_L ck ≫= (.!! iter Examples.P1r.1) = Some nan ∧
    out (update_round [Examples.P] Examples.P1r).2.2
    = out Examples.P1r.2 ++ round_events Examples.P1r.1 Lv
        ++ [PrintAutoSaved (autosave_filename Examples.P1r.1)] ∧
    L (update_round [Examples.P] Examples.P1r).2.1 !! iter Examples.P1r.1
    = Some Lv ∧
    iter (update_round [Examples.P] Examples.P1r).2.1
    = iter Examples.P1r.1 + 1.
Proof.
  apply (autosave_checkpoint_precedes_commit nat [Examples.P]
           Examples.P1r.1 (update_round [Examples.P] Examples.P1r).2.1
           Examples.P1r.2 (update_round [Examples.P] Examples.P1r).2.2).
  - apply shape_reserve.
    apply (reachable_shape (Examples.P1.1, Examples.P1.2)).
    apply (reachable_update Examples.P0 [] 1 (update [] 1 Examples.P0).1
             (Examples.P1.1, Examples.P1.2)).
    + apply (reachable_init [Examples.P] 2 (Some "ckpt.h5")
               "/tmp" "20130101000000" "k3x9" Examples.P0.1 Examples.P0.2).
      vm_compute. reflexivity.
    + vm_compute. reflexivity.
  - vm_compute. discriminate.
  - vm_compute. reflexivity.
  - vm_compute. reflexivity.
Defined.

(** C6 (as amended).  When the node updates or the bound computation of a
    round raise, the round raises the same exception and leaves the
    iteration count and the recorded bounds as they were; and the call of
    [update] in which that round is run, after any number of completed
    rounds, raises that exception too, in the state in which the round left
    the loop, with the count advanced by the completed rounds only.  When a
    call of [update] raises, the count has advanced by the rounds completed
    before, fewer than asked for, and the ledger is not truncated: the
    recorded bounds and the series of every node of the model keep all the
    slots the call reserved, and the slots of the bounds from the count on,
    of which there is at least one, hold the sentinel. *)
Theorem failed_round_keeps_reserved_slots (S : Type) :
  (∀ (nodes : list (Node S)) (st st1 : VB S * Env S) (e : Exn),
     compute_bound nodes st = (Raise e, st1) →
     update_round nodes st = (Raise e, st1) ∧
     iter st1.1 = iter st.1 ∧ L st1.1 = L st.1)
  ∧ (∀ (nodes : list (Node S)) (k : nat) (vb vb' : VB S) (env env' : Env S)
       (e : Exn),
     ledger_shape vb →
     update nodes k (vb, env) = (Raise e, (vb', env')) →
     (∃ j, j < k ∧ iter vb' = iter vb + j) ∧
     length (L vb') = length (L vb) + k ∧
     (∀ node, node ∈ model vb' →
        ∃ s, l vb' !! node_id node = Some s ∧ length s = length (L vb')) ∧
     iter vb' < length (L vb') ∧
     (∀ i, iter vb' ≤ i → i < length (L vb') → L vb' !! i = Some nan))
  ∧ (∀ (nodes : list (Node S)) (k j : nat) (vb : VB S) (env : Env S)
       (st1 st' : VB S * Env S) (e : Exn),
     j < k →
     rounds (targets nodes vb) j (reserve k vb, env) = (Ok tt, st1) →
     compute_bound (targets nodes vb) st1 = (Raise e, st') →
     update nodes k (vb, env) = (Raise e, st') ∧
     iter st'.1 = iter vb + j).
Proof.
  split_and!.
  - intros nodes [vb env] [vb1 env1] e Hc.
    split; [by apply update_round_raise_bound|].
    by apply compute_bound_frame in Hc as (_ & ? & ? & _).
  - intros nodes k vb vb' env env' e Hsh H.
    apply update_spec in H as ([_ Hser Hit Hres] & _ & Hlen & _ & j & Hj & Hi);
      [|done].
    split_and!; try done; [by exists j|].
    destruct Hsh as [_ _ Hle _]. lia.
  - intros nodes k j vb env [vb1 env1] [vb' env'] e Hj Hr Hc. split.
    + apply (update_raise nodes j k vb env (vb1, env1)); [done|done|].
      by apply update_round_raise_bound.
    + apply rounds_output in Hr as [Hi _].
      apply compute_bound_frame in Hc as (_ & Hi' & _). simpl in *. lia.
Qed.

Lemma failed_round_keeps_reserved_slots_witness :
  (∃ j, j < 1 ∧ iter (update [] 1 Examples.R0).2.1 = iter Examples.R0.1 + j) ∧
  length (L (update [] 1 Examples.R0).2.1) = length (L Examples.R0.1) + 1 ∧
  (∀ node, node ∈ model (update [] 1 Examples.R0).2.1 →
     ∃ s, l (update [] 1 Examples.R0).2.1 !! node_id node = Some s ∧
          length s = length (L (update [] 1 Examples.R0).2.1)) ∧
  iter (update [] 1 Examples.R0).2.1 < length (L (update [] 1 Examples.R0).2.1) ∧
  (∀ i, iter (update [] 1 Examples.R0).2.1 ≤ i →
     i < length (L (update [] 1 Examples.R0).2.1) →
     L (update [] 1 Examples.R0).2.1 !! i = Some nan).
Proof.
  apply (proj1 (proj2 (failed_round_keeps_reserved_slots nat)) [] 1
           Examples.R0.1 (update [] 1 Examples.R0).2.1
           Examples.R0.2 (update [] 1 Examples.R0).2.2 (NodeError 7)).
  - apply (reachable_shape (Examples.R0.1, Examples.R0.2)).
    apply (reachable_init [Examples.R] 0 None
             "/tmp" "20130101000000" "k3x9" Examples.R0.1 Examples.R0.2).
    vm_compute. reflexivity.
  - vm_compute. reflexivity.
Defined.

(** C6 fails as stated: over the node [R], whose [update] raises, the first
    call of [update()] raises that exception with the iteration count still
    zero, and the recorded bounds and the series of [R] keep the reserved
    slot with the sentinel in it. *)
Lemma failed_round_is_not_truncated :
  (update [] 1 Examples.R0).1 = Raise (NodeError 7) ∧
  iter (update [] 1 Examples.R0).2.1 = 0 ∧
  L (update [] 1 Examples.R0).2.1 = [nan] ∧
  l (update [] 1 Examples.R0).2.1 !! node_id Examples.R = Some [nan].
Proof. split_and!; vm_compute; reflexivity. Qed.

(** C7.  With a positive cadence [c], a round that completes announces an
    autosave to the autosave path, after having written the checkpoint
    there, exactly when its iteration count, counted from one, is a
    multiple of [c]; otherwise it writes no file.  Over a loop just built with
    cadence [c > 0], a call [update(repeat=2c)] that returns has autosaved
    exactly twice, in the rounds [c] and [2c]; and the call does return when
    no callback of a node raises, the nodes of the model bear pairwise
    distinct names made of letters, digits and underscores, none empty, and
    the HDF5 library takes such names.  With cadence 0 no call of [update]
    ever autosaves or touches a file, whatever its outcome. *)
Theorem autosave_cadence (S : Type) :
  (∀ (nodes : list (Node S)) (vb vb' : VB S) (env env' : Env S),
     (0 < autosave_iterations vb)%Z →
     update_round nodes (vb, env) = (Ok tt, (vb', env')) →
     ∃ Lv,
       ((autosave_iterations vb | Z.of_nat (iter vb + 1))%Z →
          out env' = out env ++ round_events vb Lv
                       ++ [PrintAutoSaved (autosave_filename vb)] ∧
          (autosave_filename vb ≠ "" →
             holds_ledger (autosave_filename vb) (L vb) (iter vb) (vb', env')))
       ∧ (¬ (autosave_iterations vb | Z.of_nat (iter vb + 1))%Z →
          out env' = out env ++ round_events vb Lv ∧ files env' = files env))
  ∧ (∀ (nodes upd : list (Node S)) (c : nat) (fn : option string)
       (tmpdir date rnd : string) (env : Env S),
     0 < c →
     ∃ vb0,
       __init__ nodes (Z.of_nat c) fn tmpdir date rnd = Ok vb0 ∧
       (∀ vb' env',
          update upd (2 * c) (vb0, env) = (Ok tt, (vb', env')) →
          ∃ evs, out env' = out env ++ evs ∧ autosave_rounds evs = [c; 2 * c]) ∧
       ((∀ node, node ∈ nodes → node_total node) →
        (∀ node, node ∈ upd → node_total node) →
        names_ok (unique nodes) →
        names_plain (unique nodes) →
        accepts_plain (h5py env) →
        ∃ vb' env', update upd (2 * c) (vb0, env) = (Ok tt, (vb', env'))))
  ∧ (∀ (nodes : list (Node S)) (k : nat) (vb vb' : VB S) (env env' : Env S)
       (r : Res unit),
     autosave_iterations vb = 0%Z →
     update nodes k (vb, env) = (r, (vb', env')) →
     files env' = files env ∧
     ∃ evs, out env' = out env ++ evs ∧
            autosave_rounds evs = [] ∧
            Forall (λ e, is_autosaved e = false) evs).
Proof.
  split_and!.
  - intros nodes vb vb' env env' Hpos H.
    apply update_round_ok_effects in H as (Lv & _ & _ & _ & Ho & Hnot & Hdue).
    exists Lv. split.
    + intros Hdiv.
      assert (autosave_due vb = true) as Ed.
      { apply autosave_due_iff. split; [done|]. apply Z.mod_divide; [lia|done]. }
      rewrite Ed in Ho. split; [done|]. intros Hne. by apply Hdue.
    + intros Hdiv.
      assert (autosave_due vb = false) as Ed.
      { apply not_true_is_false. intros [_ Hmod]%autosave_due_iff.
        apply Hdiv. apply Z.mod_divide; [lia|done]. }
      rewrite Ed, app_nil_r in Ho. split; [done|]. by apply Hnot.
  - intros nodes upd c fn tmpdir date rnd env Hc.
    exists (fresh nodes (Z.of_nat c) fn tmpdir date rnd).
    split_and!; [apply init_eq| |].
    + intros vb' env' Hup. rewrite update_eq in Hup.
      apply rounds_ok_events in Hup as (evs & Ho & Hevs).
      exists evs. split; [done|].
      unfold autosave_rounds. rewrite Hevs. simpl iter.
      simpl autosave_iterations. by apply due_rounds_twice.
    + intros Hn Hu Hnames Hplain Hlib. apply update_total.
      * apply fresh_shape.
      * done.
      * intros node Hin. apply Hn. by apply unique_subseteq.
      * apply fresh_autosave_filename.
      * by right.
  - intros nodes k vb vb' env env' r Hc H.
    apply update_no_autosave in H as (Hf & evs & Ho & Hall); [|lia].
    split; [done|]. exists evs. split_and!; try done.
    by apply autosave_rounds_quiet.
Qed.

Lemma autosave_cadence_witness :
  ∃ (vb0 vb' : VB nat) (env' : Env nat) (evs : list Event),
    __init__ [Examples.P] (Z.of_nat 2) (Some "ckpt.h5")
      "/tmp" "20130101000000" "k3x9" = Ok vb0 ∧
    update [] (2 * 2) (vb0, Examples.env0) = (Ok tt, (vb', env')) ∧
    out env' = out Examples.env0 ++ evs ∧
    autosave_rounds evs = [2; 2 * 2].
Proof.
  destruct (proj1 (proj2 (autosave_cadence nat)) [Examples.P] [] 2
              (Some "ckpt.h5") "/tmp" "20130101000000" "k3x9" Examples.env0)
    as (vb0 & Hinit & Hevents & Hreturns); [lia|].
  destruct Hreturns as (vb' & env' & Hup).
  - intros node ->%list_elem_of_singleton. split_and!.
    + intros f [= <-] s. eauto.
    + intros s. simpl. eauto.
    + intros f [= <-] s. eauto.
  - intros node Hin. by apply elem_of_nil in Hin.
  - split.
    + intros node Hin. apply unique_subseteq in Hin.
      apply list_elem_of_singleton in Hin as ->. discriminate.
    + vm_compute. apply NoDup_singleton.
  - intros node Hin. apply unique_subseteq in Hin.
    apply list_elem_of_singleton in Hin as ->. reflexivity.
  - intros op f Hop _. simpl. unfold Examples.lib. by rewrite Hop.
  - destruct (Hevents vb' env' Hup) as (evs & Hout & Hrounds).
    exists vb0, vb', env', evs. done.
Defined.

(** C1 (as amended).  Over a loop built by the constructor, when no callback
    of a node raises, when autosaving is off or the nodes of the model bear
    pairwise distinct names made of letters, digits and underscores, none
    empty, and the HDF5 library takes such names, and when no contribution and
    no sum of the contributions is the sentinel: every call of a sequence of calls
    of [update] returns normally, a further call with repeat count [k]
    returns normally and raises the iteration count by exactly [k], and
    afterwards the recorded bounds and the series of every node of the model
    have one length, with exactly as many entries as the iteration count
    that are not the sentinel, at the front, and the sentinel in every slot
    behind them. *)
Theorem ledger_alignment (S : Type) (nodes : list (Node S)) (c : Z)
    (fn : option string) (tmpdir date rnd : string) (env : Env S)
    (calls : list (list (Node S) * nat)) (upd : list (Node S)) (k : nat) :
  (∀ node, node ∈ nodes → node_total node) →
  (∀ call node, call ∈ calls → node ∈ call.1 → node_total node) →
  (∀ node, node ∈ upd → node_total node) →
  (c ≤ 0)%Z ∨ (names_ok (unique nodes) ∧ names_plain (unique nodes) ∧
               accepts_plain (h5py env)) →
  bounds_not_nan (unique nodes) →
  ∃ vb0 vb1 env1 vb2 env2,
    __init__ nodes c fn tmpdir date rnd = Ok vb0 ∧
    run_calls calls (vb0, env) = (Ok tt, (vb1, env1)) ∧
    update upd k (vb1, env1) = (Ok tt, (vb2, env2)) ∧
    iter vb2 = iter vb1 + k ∧
    aligned vb2.
Proof.
  intros Hn Hcalls Hu Hsafe Hnn.
  assert (sound nodes c (fresh nodes c fn tmpdir date rnd)) as Hso.
  { split_and!; try done.
    - apply fresh_shape.
    - apply aligned_fresh.
    - apply fresh_autosave_filename. }
  destruct (sound_run_calls nodes c calls _ env Hn Hcalls Hsafe Hnn Hso)
    as (vb1 & env1 & Hrun & Hso1 & Hlib).
  rewrite <- Hlib in Hsafe.
  destruct (sound_update nodes c upd k vb1 env1 Hn Hu Hsafe Hnn Hso1)
    as (vb2 & env2 & Hup & Hi & (_ & Hal & _) & _).
  exists (fresh nodes c fn tmpdir date rnd), vb1, env1, vb2, env2.
  split_and!; try done. apply init_eq.
Qed.

Lemma ledger_alignment_witness :
  ∃ (vb0 vb1 : VB nat) (env1 : Env nat) (vb2 : VB nat) (env2 : Env nat),
    __init__ [Examples.P] 2 (Some "ckpt.h5") "/tmp" "20130101000000" "k3x9"
    = Ok vb0 ∧
    run_calls [([], 1)] (vb0, Examples.env0) = (Ok tt, (vb1, env1)) ∧
    update [Examples.P] 2 (vb1, env1) = (Ok tt, (vb2, env2)) ∧
    iter vb2 = iter vb1 + 2 ∧
    aligned vb2.
Proof.
  assert (Htotal : node_total Examples.P).
  { split_and!.
    - intros f [= <-] s. eauto.
    - intros s. simpl. eauto.
    - intros f [= <-] s. eauto. }
  apply (ledger_alignment nat [Examples.P] 2 (Some "ckpt.h5")
           "/tmp" "20130101000000" "k3x9" Examples.env0
           [([], 1)] [Examples.P] 2).
  - by intros node ->%list_elem_of_singleton.
  - intros call node ->%list_elem_of_singleton Hin. by apply elem_of_nil in Hin.
  - by intros node ->%list_elem_of_singleton.
  - right. split_and!.
    + split.
      * intros node Hin. apply unique_subseteq in Hin.
        apply list_elem_of_singleton in Hin as ->. discriminate.
      * vm_compute. apply NoDup_singleton.
    + intros node Hin. apply unique_subseteq in Hin.
      apply list_elem_of_singleton in Hin as ->. reflexivity.
    + intros op f Hop _. simpl. unfold Examples.lib. by rewrite Hop.
  - intros s vs s'. change (unique [Examples.P]) with [Examples.P].
    simpl. intros [= <- <-].
    do 6 (destruct s as [|s]; [split; [by repeat constructor|reflexivity]|]).
    split; [by repeat constructor|reflexivity].
Defined.

(** C1 fails as stated, in two ways, with no callback of a node raising.
    Over the unnamed node [U] with an autosave in every round, the first call
    of [update()] raises from [save] and the iteration count stays zero.
    Over the node [N], whose contribution is the sentinel itself, the first
    call returns with the count at one and the sentinel in the first slot of
    the bounds and of the series of [N]. *)
Lemma ledger_alignment_fails_as_stated :
  (node_total Examples.U ∧
   (update [] 1 (Examples.start [Examples.U] 1 None)).1
   = Raise (PyException
       "In order to save nodes, they must have (unique) names.") ∧
   iter (update [] 1 (Examples.start [Examples.U] 1 None)).2.1 = 0)
  ∧ (node_total Examples.N ∧
     (update [] 1 (Examples.start [Examples.N] 0 None)).1 = Ok tt ∧
     iter (update [] 1 (Examples.start [Examples.N] 0 None)).2.1 = 1 ∧
     L (update [] 1 (Examples.start [Examples.N] 0 None)).2.1 = [nan] ∧
     l (update [] 1 (Examples.start [Examples.N] 0 None)).2.1
       !! node_id Examples.N = Some [nan]).
Proof.
  split; split_and!; try (vm_compute; reflexivity).
  - split_and!; [intros f [=]| |intros f [=]]. intros s. simpl. eauto.
  - split_and!; [intros f [=]| |intros f [=]]. intros s. simpl. eauto.
Qed.
(** * Further properties of the loop *)

(** X1.  A checkpoint restores the ledger.  When [save] to the path [p] has
    returned, a later [load] from [p] that returns, in whatever state the
    loop then is and for whatever nodes it is asked, leaves the bounds, the
    iteration count and the series of every node of the model as they were
    when [save] was called. *)
Theorem save_load_round_trip (S : Type) (p : string) (refs : list (NodeRef S))
    (vb vb1 vb2 vb3 : VB S) (env env1 env2 env3 : Env S) :
  p ≠ "" →
  NoDup (node_id <$> model vb) →
  save (Some p) (vb, env) = (Ok tt, (vb1, env1)) →
  model vb2 = model vb →
  files env2 !! p = files env1 !! p →
  load refs (Some p) (vb2, env2) = (Ok tt, (vb3, env3)) →
  L vb3 = L vb ∧ iter vb3 = iter vb ∧
  ∀ node, node ∈ model vb → l vb3 !! node_id node = l vb !! node_id node.
Proof.
  intros Hp Hnd Hsave Hm Hfile Hload.
  rewrite save_explicit in Hsave by done. rewrite load_explicit in Hload by done.
  apply save_to_layout in Hsave
    as (-> & _ & ck & Hck & HL & Hi & (b & Hb & Hterms & _) & _).
  rewrite Hck in Hfile.
  destruct (load_from_ok _ _ _ _ _ _ _ Hfile Hload) as (_ & HL' & Hi' & _ & Hl').
  rewrite Hm in Hl'. split_and!; [congruence|congruence|].
  intros node Hin. destruct (Hl' Hnd node Hin) as (b' & s & Hb' & Hs & ->).
  destruct (Hterms node Hin) as (s0 & -> & Hs0). congruence.
Qed.

Lemma save_load_round_trip_witness :
  L Examples.PL.1 = L Examples.P1.1 ∧ iter Examples.PL.1 = iter Examples.P1.1 ∧
  ∀ node, node ∈ model Examples.P1.1 →
    l Examples.PL.1 !! node_id node = l Examples.P1.1 !! node_id node.
Proof.
  apply (save_load_round_trip nat "s.h5" []
           Examples.P1.1 Examples.PS.1 Examples.P2.1 Examples.PL.1
           Examples.P1.2 Examples.PS.2 Examples.P2.2 Examples.PL.2).
  - discriminate.
  - vm_compute. apply NoDup_singleton.
  - vm_compute. reflexivity.
  - vm_compute. reflexivity.
  - vm_compute. reflexivity.
  - vm_compute. reflexivity.
Defined.

(** X2.  After a [save] to [p] that has returned, [load] from [p] over the
    whole model returns normally, in whatever state the loop then is, when
    every node that can be loaded can also be saved and its [load] accepts
    what its [save] writes. *)
Theorem load_after_save_returns (S : Type) (p : string)
    (vb vb1 vb2 : VB S) (env env1 env2 : Env S) :
  p ≠ "" →
  save (Some p) (vb, env) = (Ok tt, (vb1, env1)) →
  (∀ node, node ∈ model vb → load_total node) →
  model vb2 = model vb →
  files env2 !! p = files env1 !! p →
  ∃ vb3 env3, load [] (Some p) (vb2, env2) = (Ok tt, (vb3, env3)).
Proof.
  intros Hp Hsave Hlt Hm Hfile. rewrite save_explicit in Hsave by done.
  apply save_to_layout in Hsave as (-> & Hnames & ck & Hck & Hcp).
  rewrite Hck in Hfile. rewrite load_explicit by done.
  by apply (load_from_checkpoint_total p vb ck).
Qed.

Lemma load_after_save_returns_witness :
  ∃ vb3 env3,
    load [] (Some "s.h5") (Examples.P2.1, Examples.P2.2) = (Ok tt, (vb3, env3)).
Proof.
  apply (load_after_save_returns nat "s.h5" Examples.P1.1 Examples.PS.1
           Examples.P2.1 Examples.P1.2 Examples.PS.2 Examples.P2.2).
  - discriminate.
  - vm_compute. reflexivity.
  - intros node Hin. change (model Examples.P1.1) with [Examples.P] in Hin.
    apply list_elem_of_singleton in Hin as ->.
    intros f [= <-]. eexists. split; [reflexivity|].
    intros g (s & s' & [= <- _]) s0. simpl. eauto.
  - vm_compute. reflexivity.
  - vm_compute. reflexivity.
Defined.



(** X4.  [load] is not all-or-nothing.  When the file holds the bounds and
    the count but lacks the bound term of some node of the model, [load]
    raises [KeyError] after it has replaced the bounds and the count of the
    loop by those of the file.  (The nodes are taken to have names and no
    [load] of their own, so that the first phase passes.) *)
Theorem load_replaces_ledger_before_bound_terms (S : Type) (p : string)
    (vb : VB S) (env : Env S) (ck : H5File) (a : list float) (i : nat)
    (node : Node S) :
  p ≠ "" →
  files env !! p = Some ck → h5_L ck = Some a → h5_iter ck = Some i →
  (∀ n, n ∈ model vb → name n ≠ "" ∧ node_load n = None) →
  node ∈ model vb →
  (∀ b, h5_boundterms ck = Some b → b !! name node = None) →
  ∃ vb', load [] (Some p) (vb, env) = (Raise KeyError, (vb', env)) ∧
         L vb' = a ∧ iter vb' = i.
Proof.
  intros Hp Hck HL Hi Hnodes Hin Hmiss. rewrite load_explicit by done.
  by apply (load_from_missing_term p vb env ck a i node).
Qed.

Lemma load_replaces_ledger_before_bound_terms_witness :
  ∃ vb', load [] (Some "b.h5") (Examples.ABb.1, Examples.ABb.2)
         = (Raise KeyError, (vb', Examples.ABb.2)) ∧
         L vb' = [0.5; 0.5]%float ∧ iter vb' = 2.
Proof.
  apply (load_replaces_ledger_before_bound_terms nat "b.h5"
           Examples.ABb.1 Examples.ABb.2
           (default h5_new (files Examples.ABb.2 !! "b.h5"))
           [0.5; 0.5]%float 2 Examples.A).
  - discriminate.
  - vm_compute. reflexivity.
  - vm_compute. reflexivity.
  - vm_compute. reflexivity.
  - intros n Hn. change (model Examples.ABb.1) with [Examples.A; Examples.B] in Hn.
    apply elem_of_cons in Hn as [->|Hn]; [done|].
    apply list_elem_of_singleton in Hn as ->. done.
  - vm_compute. by left.
  - intros b. vm_compute. by intros [= <-].
Defined.

(** X5.  With no node named, [load] goes through the model in order.  At the
    first node that has a [load], when the nodes before it have names and the
    node has one: if the file has no group of the node's name, [load] raises
    "File does not contain variable" with that name and nothing has changed;
    and if the group is there but the node's own [load] raises a [KeyError],
    the same exception is raised, so that the two cases look alike. *)
Theorem load_reports_missing_variable (S : Type) (p : string) (vb : VB S)
    (env : Env S) (ck : H5File) (pre post : list (Node S)) (node : Node S)
    (f : Group → S → Res unit * S) :
  p ≠ "" →
  files env !! p = Some ck →
  model vb = pre ++ node :: post →
  (∀ n, n ∈ pre → name n ≠ "" ∧ node_load n = None) →
  name node ≠ "" →
  node_load node = Some f →
  (h5_nodes ck !! name node = None →
   load [] (Some p) (vb, env) =
     (Raise (PyException ("File does not contain variable " +:+ name node)),
      (vb, env))) ∧
  (∀ g s', h5_nodes ck !! name node = Some g →
     f g (node_state env) = (Raise KeyError, s') →
     load [] (Some p) (vb, env) =
       (Raise (PyException ("File does not contain variable " +:+ name node)),
        (vb, set_node_state s' env))).
Proof.
  intros Hp Hck Hm Hpre Hname Hload. rewrite load_explicit by done.
  by apply (load_from_first_loadable p vb env ck pre node post f).
Qed.

Lemma load_reports_missing_variable_witness :
  load [] (Some "e.h5") (Examples.BP0.1, Examples.BP0.2) =
    (Raise (PyException "File does not contain variable p"),
     (Examples.BP0.1, Examples.BP0.2)).
Proof.
  refine (proj1 (load_reports_missing_variable nat "e.h5"
                   Examples.BP0.1 Examples.BP0.2 h5_new
                   [Examples.B] [] Examples.P _ _ _ _ _ _ _) _).
  - discriminate.
  - vm_compute. reflexivity.
  - vm_compute. reflexivity.
  - intros n ->%list_elem_of_singleton. done.
  - discriminate.
  - reflexivity.
  - reflexivity.
Defined.

(** X6.  Looking a node up by its name gives the last node of the model that
    bears the name, and raises [KeyError] when no node bears it; the loop is
    not changed. *)
Theorem lookup_by_name_finds_last (S : Type) (vb : VB S) (env : Env S)
    (s : string) :
  (s ∉ name <$> model vb →
   __getitem__ (ByName s) (vb, env) = (Raise KeyError, (vb, env))) ∧
  (∀ pre node post,
     model vb = pre ++ node :: post → name node = s → s ∉ name <$> post →
     __getitem__ (ByName s) (vb, env) = (Ok node, (vb, env))).
Proof.
  rewrite getitem_by_name. split.
  - intros Hnot. by rewrite (proj2 (last_named_None _ _) Hnot).
  - intros pre node post Hm <- Hnot.
    by rewrite (last_named_Some _ _ _ _ Hm Hnot).
Qed.

Lemma lookup_by_name_finds_last_witness :
  __getitem__ (ByName "x") (Examples.XX0.1, Examples.XX0.2)
  = (Ok Examples.X2, (Examples.XX0.1, Examples.XX0.2)).
Proof.
  refine (proj2 (lookup_by_name_finds_last nat Examples.XX0.1 Examples.XX0.2 "x")
            [Examples.X1] Examples.X2 [] _ _ _).
  - vm_compute. reflexivity.
  - reflexivity.
  - simpl. apply not_elem_of_nil.
Defined.

(** X7.  [load] for nodes of which one is not resolved, a node outside the
    model or a name that no node of the model bears, raises [KeyError] with
    nothing loaded and nothing changed, provided the file exists. *)
Theorem load_of_unknown_node_changes_nothing (S : Type) (p : string)
    (refs : list (NodeRef S)) (r : NodeRef S) (vb : VB S) (env : Env S) :
  p ≠ "" →
  is_Some (files env !! p) →
  r ∈ refs →
  ¬ resolves vb r →
  load refs (Some p) (vb, env) = (Raise KeyError, (vb, env)).
Proof.
  intros Hp [ck Hck] Hin Hr. rewrite load_explicit by done.
  by apply (load_from_unresolved p refs r vb env ck).
Qed.

Lemma load_of_unknown_node_changes_nothing_witness :
  load [ByName "B"; ByName "zz"] (Some "e.h5") (Examples.BP0.1, Examples.BP0.2)
  = (Raise KeyError, (Examples.BP0.1, Examples.BP0.2)).
Proof.
  apply (load_of_unknown_node_changes_nothing nat "e.h5"
           [ByName "B"; ByName "zz"] (ByName "zz")).
  - discriminate.
  - vm_compute. eauto.
  - right. by left.
  - simpl. change (model Examples.BP0.1) with [Examples.B; Examples.P]. simpl.
    intros [[=]|[[=]|[]%elem_of_nil]%elem_of_cons]%elem_of_cons.
Defined.

(** X8.  [save] over a model with an unnamed node raises, and by then it has
    emptied the file: whatever the file at the path held before, it holds
    neither bounds, nor count, nor bound terms afterwards.  The loop itself
    is unchanged. *)
Theorem save_with_unnamed_node_empties_the_file (S : Type) (p : string)
    (vb : VB S) (env : Env S) (node : Node S) :
  p ≠ "" →
  node ∈ model vb →
  name node = "" →
  ∃ e env', save (Some p) (vb, env) = (Raise e, (vb, env')) ∧
    ∃ ck, files env' !! p = Some ck ∧
          h5_L ck = None ∧ h5_iter ck = None ∧ h5_boundterms ck = None.
Proof.
  intros Hp Hin Hname. rewrite save_explicit by done.
  destruct (save_to_unnamed p vb env node Hin Hname)
    as (e & env' & Hs & ck & Hck & Hnl).
  exists e, env'. split; [done|]. by exists ck.
Qed.

Lemma save_with_unnamed_node_empties_the_file_witness :
  h5_L (default h5_new (files Examples.PUs.2 !! "s.h5")) = Some [1.0]%float ∧
  ∃ e env',
    save (Some "s.h5") (Examples.PUs.1, Examples.PUs.2)
    = (Raise e, (Examples.PUs.1, env')) ∧
    ∃ ck, files env' !! "s.h5" = Some ck ∧
          h5_L ck = None ∧ h5_iter ck = None ∧ h5_boundterms ck = None.
Proof.
  split; [vm_compute; reflexivity|].
  apply (save_with_unnamed_node_empties_the_file nat "s.h5"
           Examples.PUs.1 Examples.PUs.2 Examples.U).
  - discriminate.
  - change (model Examples.PUs.1) with [Examples.P; Examples.U]. right. by left.
  - reflexivity.
Defined.

(** X9.  [save] returns normally only over a model whose nodes bear
    non-empty, pairwise distinct names.  The file then holds the bounds and
    the count of the loop, the series of every node of the model as the bound
    term of the node's name and no other bound term, and a group for every
    node that has a [save], written by that node, and no other group.  The
    loop is unchanged. *)
Theorem save_returns_only_for_proper_names (S : Type) (p : string)
    (vb vb' : VB S) (env env' : Env S) :
  p ≠ "" →
  save (Some p) (vb, env) = (Ok tt, (vb', env')) →
  vb' = vb ∧
  (∀ node, node ∈ model vb → name node ≠ "") ∧
  NoDup (name <$> model vb) ∧
  ∃ ck, files env' !! p = Some ck ∧ checkpoint_of vb ck.
Proof.
  intros Hp H. rewrite save_explicit in H by done.
  apply save_to_layout in H as (-> & [Hne Hnd] & ck & Hck & Hcp).
  split_and!; try done. by exists ck.
Qed.

Lemma save_returns_only_for_proper_names_witness :
  Examples.PS.1 = Examples.P1.1 ∧
  (∀ node, node ∈ model Examples.P1.1 → name node ≠ "") ∧
  NoDup (name <$> model Examples.P1.1) ∧
  ∃ ck, files Examples.PS.2 !! "s.h5" = Some ck ∧ checkpoint_of Examples.P1.1 ck.
Proof.
  apply (save_returns_only_for_proper_names nat "s.h5"
           Examples.P1.1 Examples.PS.1 Examples.P1.2 Examples.PS.2).
  - discriminate.
  - vm_compute. reflexivity.
Defined.

(** X10.  Calls of [update] compose.  With autosaving off, when
    [update(repeat=j)] has returned, a call [update(repeat=k)] after it does
    what the one call [update(repeat=j+k)] does in its last [k] rounds: the
    two ways end with the same outcome, the same loop, the same nodes and the
    same output.  And [update(repeat=0)] changes nothing. *)
Theorem update_calls_compose (S : Type) (nodes : list (Node S)) (j k : nat)
    (vb vb1 : VB S) (env env1 : Env S) :
  update nodes 0 (vb, env) = (Ok tt, (vb, env)) ∧
  ((autosave_iterations vb ≤ 0)%Z →
   update nodes j (vb, env) = (Ok tt, (vb1, env1)) →
   update nodes (j + k) (vb, env) = update nodes k (vb1, env1)).
Proof.
  split; [apply update_0|]. intros Hc H. by apply update_add.
Qed.

Lemma update_calls_compose_witness :
  update [] (1 + 2) (Examples.AB0.1, Examples.AB0.2)
  = update [] 2 (Examples.AB1.1, Examples.AB1.2).
Proof.
  refine (proj2 (update_calls_compose nat [] 1 2 Examples.AB0.1 Examples.AB1.1
                   Examples.AB0.2 Examples.AB1.2) _ _).
  - vm_compute. discriminate.
  - vm_compute. reflexivity.
Defined.

(** X11.  A bound that is not a number goes unreported.  In a round after
    the first that completes, when the bound of the round or the bound
    recorded for the round before is not a number, the round prints its
    iteration line, and the autosave line when an autosave is due, and
    nothing else: neither the warning nor "Converged.". *)
Theorem nan_bound_is_not_reported (S : Type) (nodes : list (Node S))
    (vb vb' : VB S) (env env' : Env S) (prev : float) :
  0 < iter vb →
  L vb !! (iter vb - 1) = Some prev →
  update_round nodes (vb, env) = (Ok tt, (vb', env')) →
  ∃ Lv, L vb' !! iter vb = Some Lv ∧
    (is_nan prev = true ∨ is_nan Lv = true →
     out env' = out env ++ PrintIteration (iter vb + 1) Lv ::
       (if autosave_due vb then [PrintAutoSaved (autosave_filename vb)]
        else [])).
Proof.
  intros Hi Hprev H.
  apply update_round_ok_effects in H as (Lv & HL & _ & Hlt & Ho & _).
  exists Lv. split.
  { rewrite HL. by apply list_lookup_insert_eq. }
  intros Hnan. rewrite Ho, (round_events_later vb Lv prev Hi Hprev).
  by destruct (checks_silent_on_nan prev Lv Hnan) as [-> ->].
Qed.

Lemma nan_bound_is_not_reported_witness :
  ∃ Lv,
    L (update_round [Examples.N] Examples.N1r).2.1 !! iter Examples.N1r.1
    = Some Lv ∧
    (is_nan nan = true ∨ is_nan Lv = true →
     out (update_round [Examples.N] Examples.N1r).2.2
     = out Examples.N1r.2 ++ PrintIteration (iter Examples.N1r.1 + 1) Lv ::
       (if autosave_due Examples.N1r.1
        then [PrintAutoSaved (autosave_filename Examples.N1r.1)] else [])).
Proof.
  destruct (nan_bound_is_not_reported nat [Examples.N]
              Examples.N1r.1 (update_round [Examples.N] Examples.N1r).2.1
              Examples.N1r.2 (update_round [Examples.N] Examples.N1r).2.2 nan)
    as (Lv & H1 & H2).
  - vm_compute. lia.
  - vm_compute. reflexivity.
  - vm_compute. reflexivity.
  - exists Lv. by split.
Defined.





(** X14.  After a call of [update] that has raised, on a loop whose calls
    had all returned until then, [plot_iteration_by_nodes] raises
    [ValueError]: the series are longer than the iteration count.  The model
    is taken not to be empty, and the failed call not to be a call for one
    round on a loop with no round yet, which leaves series of one entry, and
    those NumPy spreads over the empty column. *)
Theorem plot_fails_after_failed_update (S : Type)
    (nodes : list (Node S)) (c : Z) (fn : option string)
    (tmpdir date rnd : string) (vb0 vb vb' : VB S) (env0 env env' : Env S)
    (calls : list (list (Node S) * nat)) (upd : list (Node S)) (k : nat)
    (e : Exn) :
  __init__ nodes c fn tmpdir date rnd = Ok vb0 →
  run_calls calls (vb0, env0) = (Ok tt, (vb, env)) →
  update upd k (vb, env) = (Raise e, (vb', env')) →
  model vb ≠ [] →
  iter vb + k ≠ 1 →
  plot_iteration_by_nodes (vb', env') = (Raise ValueError, (vb', env')).
Proof.
  rewrite init_eq. intros [= <-] H Hup Hm Hk.
  apply run_calls_tight in H as (Hsh & Ht & _ & _);
    [|apply fresh_shape|apply fresh_tight].
  apply update_spec in Hup as (Hsh' & (Hm' & _) & Hlen & _ & (j & Hj & Hi));
    [|done].
  unfold tight in Ht.
  destruct (model vb') as [|node rest] eqn:Emodel; [congruence|].
  destruct (shape_series _ Hsh' node) as (s & Hs & Hslen).
  { rewrite Emodel. by left. }
  unfold plot_iteration_by_nodes, bind at 1, get_self. simpl.
  unfold bind at 1.
  rewrite (plot_columns_raises (model vb') (iter vb') [] [] vb' env' node s);
    [done| |rewrite Emodel; by left|done|lia|lia].
  intros n0 Hn0. destruct (shape_series _ Hsh' n0 Hn0) as (s0 & -> & _). eauto.
Qed.

Lemma plot_fails_after_failed_update_witness :
  (update [] 2 Examples.R0).1 = Raise (NodeError 7) ∧
  plot_iteration_by_nodes (Examples.R2.1, Examples.R2.2)
  = (Raise ValueError, (Examples.R2.1, Examples.R2.2)).
Proof.
  split; [vm_compute; reflexivity|].
  apply (plot_fails_after_failed_update nat [Examples.R]
           0 None "/tmp" "20130101000000" "k3x9"
           Examples.R0.1 Examples.R0.1 Examples.R2.1
           Examples.R0.2 Examples.R0.2 Examples.R2.2
           [] [] 2 (NodeError 7)).
  - vm_compute. reflexivity.
  - vm_compute. reflexivity.
  - vm_compute. reflexivity.
  - vm_compute. discriminate.
  - vm_compute. lia.
Defined.

(** X15.  The checkpoint of an autosave is one round behind.  After a round
    that has autosaved and completed, the iteration count has advanced, but a
    [load] from the autosave path that returns sets the count and the bounds
    back to what they were before the round: the slot of the round holds the
    sentinel again. *)
Theorem autosaved_checkpoint_is_one_round_behind (S : Type)
    (nodes : list (Node S)) (refs : list (NodeRef S))
    (vb vb' vb'' : VB S) (env env' env'' : Env S) :
  ledger_shape vb →
  autosave_filename vb ≠ "" →
  autosave_due vb = true →
  update_round nodes (vb, env) = (Ok tt, (vb', env')) →
  load refs (Some (autosave_filename vb)) (vb', env') = (Ok tt, (vb'', env'')) →
  iter vb' = iter vb + 1 ∧ iter vb'' = iter vb ∧ L vb'' = L vb ∧
  L vb'' !! iter vb = Some nan.
Proof.
  intros Hsh Hne Hdue H Hload.
  apply update_round_ok_effects in H as (Lv & _ & Hi & Hlt & _ & _ & Hck).
  destruct (Hck Hdue Hne) as [(ck & Hf & HckL & Hcki) _]. simpl in Hf.
  rewrite load_explicit in Hload by done.
  destruct (load_from_ok _ _ _ _ _ _ _ Hf Hload) as (_ & HL' & Hi' & _).
  assert (L vb'' = L vb) as HL by congruence.
  split_and!; [done|congruence|done|].
  rewrite HL. apply Hsh; [done|lia].
Qed.

Lemma autosaved_checkpoint_is_one_round_behind_witness :
  iter Examples.P2a.1 = iter Examples.P1r.1 + 1 ∧
  iter Examples.P2l.1 = iter Examples.P1r.1 ∧
  L Examples.P2l.1 = L Examples.P1r.1 ∧
  L Examples.P2l.1 !! iter Examples.P1r.1 = Some nan.
Proof.
  apply (autosaved_checkpoint_is_one_round_behind nat [Examples.P] []
           Examples.P1r.1 Examples.P2a.1 Examples.P2l.1
           Examples.P1r.2 Examples.P2a.2 Examples.P2l.2).
  - apply shape_reserve.
    apply (reachable_shape (Examples.P1.1, Examples.P1.2)).
    apply (reachable_update Examples.P0 [] 1 (update [] 1 Examples.P0).1
             (Examples.P1.1, Examples.P1.2)).
    + apply (reachable_init [Examples.P] 2 (Some "ckpt.h5")
               "/tmp" "20130101000000" "k3x9" Examples.P0.1 Examples.P0.2).
      vm_compute. reflexivity.
    + vm_compute. reflexivity.
  - vm_compute. discriminate.
  - vm_compute. reflexivity.
  - vm_compute. reflexivity.
  - vm_compute. reflexivity.
Defined.

(** X16.  No call of a method changes the configuration of the loop: the
    model, the cadence of the autosaves, the autosave path and the default
    path are after [update], [save], [load], a lookup,
    [get_iteration_by_nodes] or [plot_iteration_by_nodes] what they were
    before, whether the call returns or raises. *)
Theorem calls_keep_the_configuration (S : Type) (c : @Call S)
    (vb vb' : VB S) (env env' : Env S) (r : Res unit) :
  run_call c (vb, env) = (r, (vb', env')) →
  model vb' = model vb ∧
  autosave_iterations vb' = autosave_iterations vb ∧
  autosave_filename vb' = autosave_filename vb ∧
  filename vb' = filename vb.
Proof. intros H. by apply run_call_keys in H as [Hst _]. Qed.

Lemma calls_keep_the_configuration_witness :
  model Examples.P2l.1 = model Examples.P2a.1 ∧
  autosave_iterations Examples.P2l.1 = autosave_iterations Examples.P2a.1 ∧
  autosave_filename Examples.P2l.1 = autosave_filename Examples.P2a.1 ∧
  filename Examples.P2l.1 = filename Examples.P2a.1.
Proof.
  apply (calls_keep_the_configuration nat (CallLoad [] (Some "ckpt.h5"))
           Examples.P2a.1 Examples.P2l.1 Examples.P2a.2 Examples.P2l.2 (Ok tt)).
  vm_compute. reflexivity.
Defined.

(** X17.  In every state of a loop in use, built by the constructor and then
    driven by any calls of its methods with any outcomes, the dictionary that
    [get_iteration_by_nodes] returns has the nodes of the model as its keys,
    no more and no fewer, and no node occurs twice in the model. *)
Theorem series_are_kept_for_the_model (S : Type) (vb : VB S) (env : Env S) :
  in_use (vb, env) →
  get_iteration_by_nodes (vb, env) = (Ok (l vb), (vb, env)) ∧
  (∀ k, is_Some (l vb !! k) ↔ k ∈ node_id <$> model vb) ∧
  NoDup (node_id <$> model vb).
Proof.
  intros H. apply in_use_keys in H as [Hk Hnd]. by split_and!.
Qed.

Lemma series_are_kept_for_the_model_witness :
  get_iteration_by_nodes (Examples.P2l.1, Examples.P2l.2)
  = (Ok (l Examples.P2l.1), (Examples.P2l.1, Examples.P2l.2)) ∧
  (∀ k, is_Some (l Examples.P2l.1 !! k) ↔ k ∈ node_id <$> model Examples.P2l.1) ∧
  NoDup (node_id <$> model Examples.P2l.1).
Proof.
  apply (series_are_kept_for_the_model nat Examples.P2l.1 Examples.P2l.2).
  apply (in_use_call (Examples.P2a.1, Examples.P2a.2)
           (CallLoad [] (Some "ckpt.h5")) (Ok tt)).
  2:{ vm_compute. reflexivity. }
  apply (in_use_call (Examples.P1.1, Examples.P1.2)
           (CallUpdate [Examples.P] 1) (Ok tt)).
  2:{ vm_compute. reflexivity. }
  apply (in_use_call (Examples.P0.1, Examples.P0.2) (CallUpdate [] 1) (Ok tt)).
  2:{ vm_compute. reflexivity. }
  apply (in_use_init [Examples.P] 2 (Some "ckpt.h5")
           "/tmp" "20130101000000" "k3x9").
  vm_compute. reflexivity.
Defined.

(** X18.  What [update] prints is what it records.  A call
    [update(repeat=k)] that returns has printed exactly [k] iteration lines,
    numbered in order from the iteration count plus one to the count plus
    [k], and the bounds they show are the [k] bounds that the call has
    recorded, in order. *)
Theorem update_prints_what_it_records (S : Type) (nodes : list (Node S))
    (k : nat) (vb vb' : VB S) (env env' : Env S) :
  update nodes k (vb, env) = (Ok tt, (vb', env')) →
  ∃ evs, out env' = out env ++ evs ∧
         (iteration_lines evs).*1 = seq (iter vb + 1) k ∧
         (iteration_lines evs).*2 = take k (drop (iter vb) (L vb')).
Proof.
  rewrite update_eq. intros H.
  by apply rounds_lines in H.
Qed.

Lemma update_prints_what_it_records_witness :
  ∃ evs, out Examples.AB3.2 = out Examples.AB1.2 ++ evs ∧
         (iteration_lines evs).*1 = seq (iter Examples.AB1.1 + 1) 2 ∧
         (iteration_lines evs).*2
         = take 2 (drop (iter Examples.AB1.1) (L Examples.AB3.1)).
Proof.
  apply (update_prints_what_it_records nat [] 2
           Examples.AB1.1 Examples.AB3.1 Examples.AB1.2 Examples.AB3.2).
  vm_compute. reflexivity.
Defined.



(** X20.  [update] never rewrites the history.  Whatever a call of [update]
    does and however it ends, the bound and the contributions recorded for a
    round completed before the call are afterwards what they were. *)
Theorem update_keeps_the_history (S : Type) (nodes : list (Node S)) (k : nat)
    (vb vb' : VB S) (env env' : Env S) (r : Res unit) (i : nat) :
  update nodes k (vb, env) = (r, (vb', env')) →
  i < iter vb →
  (∀ x, L vb !! i = Some x → L vb' !! i = Some x) ∧
  (∀ node x, entry vb node i = Some x → entry vb' node i = Some x).
Proof. apply update_history. Qed.

Lemma update_keeps_the_history_witness :
  (∀ x, L Examples.AB1.1 !! 0 = Some x → L Examples.AB3.1 !! 0 = Some x) ∧
  (∀ node x, entry Examples.AB1.1 node 0 = Some x →
             entry Examples.AB3.1 node 0 = Some x).
Proof.
  apply (update_keeps_the_history nat [] 2 Examples.AB1.1 Examples.AB3.1
           Examples.AB1.2 Examples.AB3.2 (Ok tt) 0).
  - vm_compute. reflexivity.
  - vm_compute. lia.
Defined.

(** X21.  [save] touches nothing but files and what the [save] methods of
    the nodes touch: whatever its outcome, the loop is what it was and
    nothing is printed.  [load], whatever its outcome, changes no file and
    prints nothing. *)
Theorem save_and_load_frames (S : Type) (fn : option string)
    (refs : list (NodeRef S)) (vb vb' : VB S) (env env' : Env S)
    (r : Res unit) :
  (save fn (vb, env) = (r, (vb', env')) → vb' = vb ∧ out env' = out env) ∧
  (load refs fn (vb, env) = (r, (vb', env')) →
   files env' = files env ∧ out env' = out env).
Proof.
  split.
  - intros H. split.
    + apply (save_self_kept _ _ _ _ H).
    + apply (save_out_kept _ _ _ _ H).
  - apply load_files_out_kept.
Qed.

Lemma save_and_load_frames_witness :
  (Examples.PS.1 = Examples.P1.1 ∧ out Examples.PS.2 = out Examples.P1.2) ∧
  (files Examples.P2l.2 = files Examples.P2a.2 ∧
   out Examples.P2l.2 = out Examples.P2a.2).
Proof.
  split.
  - apply (proj1 (save_and_load_frames nat (Some "s.h5") []
                    Examples.P1.1 Examples.PS.1 Examples.P1.2 Examples.PS.2
                    (Ok tt))).
    vm_compute. reflexivity.
  - apply (proj2 (save_and_load_frames nat (Some "ckpt.h5") []
                    Examples.P2a.1 Examples.P2l.1 Examples.P2a.2 Examples.P2l.2
                    (Ok tt))).
    vm_compute. reflexivity.
Defined.

(** X22.  A checkpoint brings the loop back.  On a loop in use, when [save]
    to the path [p] has returned and the loop has then been driven by any
    calls of its methods, with any outcomes, that left the file at [p] as it
    was, a [load] from [p] that returns leaves the loop object exactly as it
    was when [save] was called. *)
Theorem checkpoint_brings_the_loop_back (S : Type) (p : string)
    (refs : list (NodeRef S)) (vb vb1 vb2 vb3 : VB S)
    (env env1 env2 env3 : Env S) :
  p ≠ "" →
  in_use (vb, env) →
  save (Some p) (vb, env) = (Ok tt, (vb1, env1)) →
  driven (vb1, env1) (vb2, env2) →
  files env2 !! p = files env1 !! p →
  load refs (Some p) (vb2, env2) = (Ok tt, (vb3, env3)) →
  vb3 = vb.
Proof.
  intros Hp Huse Hsave Hdr Hfile Hload.
  apply in_use_keys in Huse as [Hkeys Hnd]. simpl in Hkeys, Hnd.
  rewrite save_explicit in Hsave by done. rewrite load_explicit in Hload by done.
  apply save_to_layout in Hsave
    as (-> & _ & ck & Hck & HL & Hi & (b & Hb & Hterms & _) & _).
  apply driven_keys in Hdr as [(Hm & Hc & Ha & Hf) Hkeys2]. simpl in *.
  specialize (Hkeys2 Hkeys). rewrite Hck in Hfile.
  destruct (load_from_ok _ _ _ _ _ _ _ Hfile Hload)
    as ((Hm' & Hc' & Ha' & Hf') & HL' & Hi' & Hout & Hin).
  rewrite Hm in Hin, Hout.
  assert (l vb3 = l vb) as Hl.
  { apply map_eq. intros k.
    destruct (decide (k ∈ node_id <$> model vb)) as [Hk|Hk].
    - apply list_elem_of_fmap in Hk as (node & -> & Hnode).
      destruct (Hin Hnd node Hnode) as (b' & s & Hb' & Hs & ->).
      destruct (Hterms node Hnode) as (s0 & -> & Hs0). congruence.
    - rewrite (Hout k Hk).
      assert (l vb2 !! k = None) as ->.
      { apply eq_None_not_Some. rewrite (Hkeys2 k), Hm. done. }
      symmetry. apply eq_None_not_Some. by rewrite (Hkeys k). }
  destruct vb, vb3. simpl in *. f_equal; congruence.
Qed.

Lemma checkpoint_brings_the_loop_back_witness : Examples.PL.1 = Examples.P1.1.
Proof.
  apply (checkpoint_brings_the_loop_back nat "s.h5" []
           Examples.P1.1 Examples.PS.1 Examples.P2.1 Examples.PL.1
           Examples.P1.2 Examples.PS.2 Examples.P2.2 Examples.PL.2).
  - discriminate.
  - apply (in_use_call (Examples.P0.1, Examples.P0.2) (CallUpdate [] 1) (Ok tt)).
    2:{ vm_compute. reflexivity. }
    apply (in_use_init [Examples.P] 2 (Some "ckpt.h5")
             "/tmp" "20130101000000" "k3x9").
    vm_compute. reflexivity.
  - vm_compute. reflexivity.
  - apply (driven_step (Examples.PS.1, Examples.PS.2) (CallUpdate [] 1) (Ok tt)
             (Examples.P2.1, Examples.P2.2)).
    + vm_compute. reflexivity.
    + apply driven_refl.
  - vm_compute. reflexivity.
  - vm_compute. reflexivity.
Defined.
